(** * Tool invocation and orchestration engine: a shallow embedding

    The development follows the notebooks of the repository:
    - [PyStr]: the [str] methods the code calls ([replace], [strip],
      [lower], [split], [in]);
    - [Regex]: the search of the recursive pattern
      [\{(?:[^{}]|(?R))*\}] used to locate an embedded JSON object;
    - [Json]: the values, [json.loads] and [json.dumps];
    - [Tools]: [AgentTool], the [Tool] decorator, [AgentToolExecutor];
    - [Loop]: the function-calling [Agent] of lesson 12;
    - [ReAct]: the text-prompt [Agent] of lesson 15 and the stand-alone
      [parse_nested_json] of lesson 13;
    - [Observe]: the predicates the properties are stated with;
    - [Scenario]: the stubbed backends and tools of the test scenarios;
    - [Memory]: [ChatMessageMemory] and the memory agent of lessons 6
      and 7;
    - [Single]: the single-step agent of lesson 11;
    - [Prompted]: the prompt-driven agent of lesson 14;
    - [Schema]: the function-calling definition of a tool;
    - [Trace], [Stubs]: the predicates and stubs of the further
      properties.
    The properties follow the definitions.

    Texts are [string]s, one [ascii] per code point, so the model covers
    the texts of code points below 256.  Two steps of the code lead
    from such a text to a code point beyond them: a [\u] escape in a
    JSON text, where the scanner stops with [WideCharacter] and the run
    is marked [Unrepresentable], and the capital of the code points
    181 and 255 in [capitalize].  The LM backend and the wrapped
    functions are total functions over a state [W] of their own; a log
    records every call made to them. *)

From Stdlib Require Import ZArith Lia List Ascii String Bool.
From stdpp Require Import base option list strings pretty gmap.

Local Open Scope string_scope.

(** ** Python [str] methods *)

Module PyStr.

(** The double quote and the line feed, and a shorthand to write JSON
    texts readably: [q] turns every apostrophe into a double quote. *)
Definition dquote : ascii := ascii_of_nat 34.
Definition newline : ascii := ascii_of_nat 10.
Definition backslash : ascii := ascii_of_nat 92.
Definition nl : string := String newline "".
Definition bs : string := String backslash "".

Fixpoint q (s : string) : string :=
  match s with
  | "" => ""
  | String c s' => String (if Ascii.eqb c "'" then dquote else c) (q s')
  end.

(** [s.startswith(p)] *)
Fixpoint startswith (p s : string) : bool :=
  match p, s with
  | "", _ => true
  | String a p', String b s' => Ascii.eqb a b && startswith p' s'
  | String _ _, "" => false
  end.

(** [drop n s] is [s[n:]]. *)
Fixpoint drop (n : nat) (s : string) : string :=
  match n, s with
  | O, _ => s
  | S k, String _ s' => drop k s'
  | S _, "" => ""
  end.

(** [s.replace(old, new)] for a non-empty [old]: the occurrences are
    taken leftmost first and do not overlap.  [skip] counts the
    characters of the current occurrence still to be passed over. *)
Fixpoint replace_from (old new : string) (skip : nat) (s : string) : string :=
  match s with
  | "" => ""
  | String c s' =>
      match skip with
      | S k => replace_from old new k s'
      | O =>
          if startswith old s
          then new +:+ replace_from old new (String.length old - 1) s'
          else String c (replace_from old new 0 s')
      end
  end.

Definition replace (old new s : string) : string := replace_from old new 0 s.

(** [sub in s] *)
Fixpoint contains (sub s : string) : bool :=
  startswith sub s ||
  match s with
  | "" => false
  | String _ s' => contains sub s'
  end.

(** [s.split(sep)[-1]] for a non-empty [sep]: the text after the last
    occurrence of [sep] in the left-to-right, non-overlapping split,
    or [s] itself when [sep] does not occur.  [cur] is the piece being
    read, kept as a suffix of the input. *)
Fixpoint split_last_from (sep : string) (skip : nat) (cur s : string) : string :=
  match s with
  | "" => cur
  | String _ s' =>
      match skip with
      | S k => split_last_from sep k cur s'
      | O =>
          if startswith sep s
          then split_last_from sep (String.length sep - 1) (drop (String.length sep) s) s'
          else split_last_from sep 0 cur s'
      end
  end.

Definition split_last (sep s : string) : string := split_last_from sep 0 s s.

(** [str.isspace] on one character (code points below 256). *)
Definition is_space (c : ascii) : bool :=
  let n := nat_of_ascii c in
  (((9 <=? n) && (n <=? 13)) || ((28 <=? n) && (n <=? 32))
   || (n =? 133) || (n =? 160))%nat.

Fixpoint lstrip (s : string) : string :=
  match s with
  | "" => ""
  | String c s' => if is_space c then lstrip s' else s
  end.

(** [rstrip]: a character is dropped when it and everything after it
    is white space. *)
Fixpoint rstrip (s : string) : string :=
  match s with
  | "" => ""
  | String c s' =>
      match rstrip s' with
      | "" => if is_space c then "" else String c ""
      | r => String c r
      end
  end.

Definition strip (s : string) : string := rstrip (lstrip s).

(** [str.lower] on one character: A-Z, and the upper-case letters of
    the Latin-1 block. *)
Definition lower_char (c : ascii) : ascii :=
  let n := nat_of_ascii c in
  if (((65 <=? n) && (n <=? 90))
      || ((192 <=? n) && (n <=? 222) && negb (n =? 215)))%nat
  then ascii_of_nat (n + 32) else c.

Fixpoint lower (s : string) : string :=
  match s with
  | "" => ""
  | String c s' => String (lower_char c) (lower s')
  end.

End PyStr.

(** ** The recursive brace pattern *)

Module Regex.

(** [span_end opened s]: [s] is read after an opening brace, [opened]
    counts the braces opened since and not yet closed.  The result is
    the number of characters up to and including the brace that closes
    the first one, when there is one. *)
Fixpoint span_end (opened : nat) (s : string) : option nat :=
  match s with
  | "" => None
  | String c s' =>
      if Ascii.eqb c "{" then S <$> span_end (S opened) s'
      else if Ascii.eqb c "}" then
        match opened with
        | O => Some 1
        | S k => S <$> span_end k s'
        end
      else S <$> span_end opened s'
  end.

(** A match of the pattern at the start of [s]. *)
Definition match_here (s : string) : option string :=
  match s with
  | String c s' =>
      if Ascii.eqb c "{"
      then (fun n => substring 0 (S n) s) <$> span_end 0 s'
      else None
  | "" => None
  end.

(** [pattern.search(s)] followed by [match.group()]: the match at the
    leftmost position that has one. *)
Fixpoint search (s : string) : option string :=
  match match_here s with
  | Some m => Some m
  | None =>
      match s with
      | "" => None
      | String _ s' => search s'
      end
  end.

(** The texts the pattern matches: an opening brace, then any number
    of characters other than braces and of matches of the whole
    pattern, then a closing brace. *)
Inductive balanced : string -> Prop :=
| balanced_braces body : inside body -> balanced (String "{" (body +:+ "}"))
with inside : string -> Prop :=
| inside_empty : inside ""
| inside_char c rest :
    c <> "{"%char -> c <> "}"%char -> inside rest -> inside (String c rest)
| inside_group g rest : balanced g -> inside rest -> inside (g +:+ rest).

Scheme balanced_mut := Minimality for balanced Sort Prop
  with inside_mut := Minimality for inside Sort Prop.
Combined Scheme balanced_inside_mut from balanced_mut, inside_mut.

End Regex.

(** ** JSON values, [json.loads] and [json.dumps] *)

Module Json.
Import PyStr.

(** The Python values [json.loads] builds.  A [dict] keeps its keys in
    insertion order and holds each key once; a [float] is kept as the
    text [repr] writes for it, which names it. *)
#[warnings="-register-all"]
Inductive json : Type :=
| JNull
| JBool (b : bool)
| JInt (z : Z)
| JFloat (repr : string)
| JStr (s : string)
| JArr (items : list json)
| JObj (members : list (string * json)).

(** [d[k] = v] *)
Fixpoint dict_set {V} (k : string) (v : V) (d : list (string * V)) : list (string * V) :=
  match d with
  | [] => [(k, v)]
  | (k', v') :: d' =>
      if String.eqb k k' then (k, v) :: d' else (k', v') :: dict_set k v d'
  end.

(** [d.get(k)] *)
Fixpoint dict_get {V} (k : string) (d : list (string * V)) : option V :=
  match d with
  | [] => None
  | (k', v) :: d' => if String.eqb k k' then Some v else dict_get k d'
  end.

(** Result of a scanner: a value and the text left, or the way the
    scan ended without one.
    - [DecodeError]: [json.JSONDecodeError];
    - [DigitsLimit]: the [ValueError] of [int] for an integer of more
      than [max_str_digits] digits;
    - [RecursionLimit]: the [RecursionError] of the interpreter;
    - [WideCharacter]: the text holds a [\u] escape of a code point
      of 256 or more, which [json.loads] decodes and the texts of this
      development cannot hold: the scan stops there and says nothing
      of what the code does with the text;
    - [OutOfFuel]: the budget of the scanner functions was used up
      ([loads] gives enough). *)
Inductive scan (A : Type) : Type :=
| Scanned (a : A) (rest : string)
| DecodeError
| DigitsLimit
| RecursionLimit
| WideCharacter
| OutOfFuel.
Arguments Scanned {A} a rest.
Arguments DecodeError {A}.
Arguments DigitsLimit {A}.
Arguments RecursionLimit {A}.
Arguments WideCharacter {A}.
Arguments OutOfFuel {A}.

(** [sys.get_int_max_str_digits()]; [int] refuses a text of more
    digits, which are the digits [str] writes for the value. *)
Definition max_str_digits : nat := 4300.
Definition exceeds_digits (z : Z) : bool :=
  (max_str_digits <? String.length (pretty (Z.abs z)))%nat.

(** The number of objects and arrays, one inside the other, that the
    scanner may enter: each takes one level of the recursion of the
    interpreter, whose limit [sys.getrecursionlimit()] is 1000, and
    the frames of the callers of [json.loads] take theirs.  The value
    is what an interpreter started on the code of lesson 15 leaves to
    the scanner called from [Agent.parse_response] or from [execute];
    a caller nested deeper, or a notebook kernel, leaves less, and
    [parse_nested_json] called on its own has one level more. *)
Definition max_nesting : nat := 993.

(** [WHITESPACE]: blank, tab, line feed, carriage return. *)
Definition is_ws (c : ascii) : bool :=
  let n := nat_of_ascii c in ((n =? 32) || (n =? 9) || (n =? 10) || (n =? 13))%nat.

Fixpoint skip_ws (s : string) : string :=
  match s with
  | String c s' => if is_ws c then skip_ws s' else s
  | "" => ""
  end.

Definition is_digit (c : ascii) : bool :=
  let n := nat_of_ascii c in ((48 <=? n) && (n <=? 57))%nat.

Definition hex_value (c : ascii) : option nat :=
  let n := nat_of_ascii c in
  if ((48 <=? n) && (n <=? 57))%nat then Some (n - 48)
  else if ((65 <=? n) && (n <=? 70))%nat then Some (n - 55)
  else if ((97 <=? n) && (n <=? 102))%nat then Some (n - 87)
  else None.

(** The four hexadecimal digits of a [\u] escape. *)
Definition hex4 (a b c d : ascii) : option nat :=
  x1 ← hex_value a; x2 ← hex_value b; x3 ← hex_value c; x4 ← hex_value d;
  Some (((x1 * 16 + x2) * 16 + x3) * 16 + x4).

(** The escapes of one character after a backslash. *)
Definition unescape (c : ascii) : option ascii :=
  if Ascii.eqb c dquote then Some dquote
  else if Ascii.eqb c backslash then Some backslash
  else if Ascii.eqb c "/" then Some "/"%char
  else if Ascii.eqb c "b" then Some (ascii_of_nat 8)
  else if Ascii.eqb c "f" then Some (ascii_of_nat 12)
  else if Ascii.eqb c "n" then Some (ascii_of_nat 10)
  else if Ascii.eqb c "r" then Some (ascii_of_nat 13)
  else if Ascii.eqb c "t" then Some (ascii_of_nat 9)
  else None.

(** [scanstring], strict: [s] starts after the opening quote.  A
    control character ends the scan with an error.  At a [\u] escape
    of a code point of 256 or more the scan stops with
    [WideCharacter]. *)
Fixpoint scanstring (s : string) : scan string :=
  match s with
  | "" => DecodeError
  | String c s' =>
      if Ascii.eqb c dquote then Scanned "" s'
      else if (nat_of_ascii c <? 32)%nat then DecodeError
      else if Ascii.eqb c backslash then
        match s' with
        | "" => DecodeError
        | String e s'' =>
            if Ascii.eqb e "u" then
              match s'' with
              | String h1 (String h2 (String h3 (String h4 s3))) =>
                  match hex4 h1 h2 h3 h4 with
                  | Some n =>
                      if (n <? 256)%nat then
                        match scanstring s3 with
                        | Scanned r rest => Scanned (String (ascii_of_nat n) r) rest
                        | e => e
                        end
                      else WideCharacter
                  | None => DecodeError
                  end
              | _ => DecodeError
              end
            else
              match unescape e with
              | Some x =>
                  match scanstring s'' with
                  | Scanned r rest => Scanned (String x r) rest
                  | e => e
                  end
              | None => DecodeError
              end
        end
      else
        match scanstring s' with
        | Scanned r rest => Scanned (String c r) rest
        | e => e
        end
  end.

(** The longest run of digits at the start of [s], and the rest. *)
Fixpoint span_digits (s : string) : string * string :=
  match s with
  | String c s' =>
      if is_digit c then let '(d, r) := span_digits s' in (String c d, r)
      else ("", s)
  | "" => ("", "")
  end.

Definition digits_value (d : string) : Z :=
  fold_left (fun acc c => (acc * 10 + Z.of_nat (nat_of_ascii c - 48))%Z)
            (list_ascii_of_string d) 0%Z.

(** The integer part of [NUMBER_RE]: [0|[1-9][0-9]*]. *)
Definition scan_int_part (s : string) : option (string * string) :=
  match s with
  | String c s' =>
      if Ascii.eqb c "0" then Some ("0", s')
      else if is_digit c then Some (span_digits s)
      else None
  | "" => None
  end.

(** The optional fraction [\.[0-9]+]. *)
Definition scan_frac (s : string) : string * string :=
  match s with
  | String c s' =>
      if Ascii.eqb c "." then
        match span_digits s' with
        | ("", _) => ("", s)
        | (d, r) => (String c d, r)
        end
      else ("", s)
  | "" => ("", "")
  end.

(** The optional exponent [[eE][-+]?[0-9]+]. *)
Definition scan_exp (s : string) : string * string :=
  match s with
  | String c s' =>
      if Ascii.eqb c "e" || Ascii.eqb c "E" then
        let '(sign, s1) :=
          match s' with
          | String g s'' =>
              if Ascii.eqb g "-" || Ascii.eqb g "+" then (String g "", s'') else ("", s')
          | "" => ("", "")
          end in
        match span_digits s1 with
        | ("", _) => ("", s)
        | (d, r) => (String c (sign +:+ d), r)
        end
      else ("", s)
  | "" => ("", "")
  end.

(** *** [float]: the value of a decimal text, and its [repr] *)

Section Float.
Local Open Scope Z_scope.

(** [n / d] rounded to the nearest integer, a tie to the even one
    ([d] positive). *)
Definition round_half_even (n d : Z) : Z :=
  let q := n / d in
  let r := n mod d in
  if 2 * r <? d then q
  else if d <? 2 * r then q + 1
  else if Z.even q then q else q + 1.

(** The fractions [n / (d * 2 ^ e)] and [n / (d * 10 ^ x)], whatever
    the sign of the exponent. *)
Definition shift2 (n d e : Z) : Z * Z :=
  if 0 <=? e then (n, d * 2 ^ e) else (n * 2 ^ (- e), d).

Definition shift10 (n d x : Z) : Z * Z :=
  if 0 <=? x then (n, d * 10 ^ x) else (n * 10 ^ (- x), d).

(** The magnitude of a [float] that is a number: [m * 2 ^ e]
    with [0 <= m < 2 ^ 53] and [-1074 <= e <= 971], or infinity. *)
Inductive binary64 : Type :=
| Finite (m e : Z)
| Infinite.

(** The [float] nearest to [M * 10 ^ E] ([M] not negative), a tie to
    the even significand: what [float] reads from a decimal text.
    Far beyond the range of [float] the answer is known without
    the power of ten. *)
Definition magnitude (n : Z) : Z := Z.log2 n * 30103 / 100000.

Definition nearest_binary64 (M E : Z) : binary64 :=
  if M =? 0 then Finite 0 0
  else if 400 <? magnitude M + E then Infinite
  else if magnitude M + E <? - 400 then Finite 0 0
  else
    let '(n, d) := shift10 M 1 (- E) in
    let k0 := Z.log2 n - Z.log2 d in
    let '(n0, d0) := shift2 n d k0 in
    let k := if n0 <? d0 then k0 - 1 else k0 in
    let e := Z.max (k - 52) (- 1074) in
    let '(n1, d1) := shift2 n d e in
    let m := round_half_even n1 d1 in
    let '(m, e) := if m =? 2 ^ 53 then (2 ^ 52, e + 1) else (m, e) in
    if 971 <? e then Infinite else Finite m e.

(** The position [x] of the decimal point of a positive fraction:
    [10 ^ (x - 1) <= n / d < 10 ^ x], searched from an estimate. *)
Definition below_pow10 (n d x : Z) : bool :=
  let '(n', d') := shift10 n d x in n' <? d'.

Fixpoint point_up (fuel : nat) (n d x : Z) : Z :=
  match fuel with
  | O => x
  | S fuel' => if below_pow10 n d x then x else point_up fuel' n d (x + 1)
  end.

Fixpoint point_down (fuel : nat) (n d x : Z) : Z :=
  match fuel with
  | O => x
  | S fuel' => if below_pow10 n d (x - 1) then point_down fuel' n d (x - 1) else x
  end.

Definition decimal_point (n d : Z) : Z :=
  let x := (Z.log2 n - Z.log2 d) * 30103 / 100000 in
  point_down 4 n d (point_up 4 n d x).

(** The shortest decimal that reads back as the float [v / d], as
    [repr] chooses it.  The texts that round to the float lie between
    [lo / d] and [hi / d], the ends included when [closed].  With
    [digits] digits the two decimals next to the value are tried; the
    nearer one that lies in the interval is taken, in a tie the even
    one, and without one another digit is added.  The answer [(k, x)]
    stands for [k * 10 ^ x]. *)
Fixpoint shortest (fuel : nat) (digits : Z) (v lo hi d : Z) (closed : bool) (point : Z)
  : Z * Z :=
  match fuel with
  | O => (0, 0)
  | S fuel' =>
      let x := point - digits in
      let '(v1, d1) := shift10 v d x in
      let '(lo1, _) := shift10 lo d x in
      let '(hi1, _) := shift10 hi d x in
      let k := v1 / d1 in
      let fits (c : Z) : bool :=
        if closed then (lo1 <=? c * d1) && (c * d1 <=? hi1)
        else (lo1 <? c * d1) && (c * d1 <? hi1) in
      if fits k && fits (k + 1) then (round_half_even v1 d1, x)
      else if fits k then (k, x)
      else if fits (k + 1) then (k + 1, x)
      else shortest fuel' (digits + 1) v lo hi d closed point
  end.

(** A text of [n] zeros, and a decimal without its trailing zeros. *)
Fixpoint zeros (n : nat) : string :=
  match n with
  | O => ""
  | S k => String "0" (zeros k)
  end.

Fixpoint rstrip_zeros (s : string) : string :=
  match s with
  | "" => ""
  | String c s' =>
      match rstrip_zeros s' with
      | "" => if Ascii.eqb c "0" then "" else String c ""
      | r => String c r
      end
  end.

(** [repr] of the positive float [m * 2 ^ e]: the shortest digits,
    written with an exponent when the decimal point lies more than
    16 places right or more than 3 places left of the first digit. *)
Definition repr_finite (m e : Z) : string :=
  let scale := 2 ^ Z.max 0 (e - 2) in
  let d := 2 ^ Z.max 0 (2 - e) in
  let v := 4 * m * scale in
  let hi := (4 * m + 2) * scale in
  let lo := (if (m =? 2 ^ 52) && (- 1074 <? e) then 4 * m - 1 else 4 * m - 2) * scale in
  let '(k, x) := shortest 17 1 v lo hi d (Z.even m) (decimal_point v d) in
  let all : string := pretty k in
  let decpt := x + Z.of_nat (String.length all) in
  let digits := rstrip_zeros all in
  let n := Z.of_nat (String.length digits) in
  if (- 4 <? decpt) && (decpt <=? 16) then
    if decpt <=? 0 then "0." +:+ zeros (Z.to_nat (- decpt)) +:+ digits
    else if decpt <? n then
      substring 0 (Z.to_nat decpt) digits +:+ "."
        +:+ substring (Z.to_nat decpt) (Z.to_nat (n - decpt)) digits
    else digits +:+ zeros (Z.to_nat (decpt - n)) +:+ ".0"
  else
    let exponent := decpt - 1 in
    let written : string := pretty (Z.abs exponent) in
    substring 0 1 digits
      +:+ (if 1 <? n then "." +:+ substring 1 (Z.to_nat (n - 1)) digits else "")
      +:+ "e" +:+ (if exponent <? 0 then "-" else "+")
      +:+ (if Z.abs exponent <? 10 then "0" else "") +:+ written.

(** [repr(float(text))] for the text of a JSON number: the digits
    [i] of the integer part, the fraction [f] with its point and the
    exponent [e] with its letter, either of them may be empty. *)
Definition float_repr (neg : bool) (i f e : string) : string :=
  let fraction := drop 1 f in
  let exponent :=
    match e with
    | String _ (String "-" d) => - digits_value d
    | String _ (String "+" d) => digits_value d
    | String _ d => digits_value d
    | "" => 0
    end in
  let M := digits_value (i +:+ fraction) in
  let E := exponent - Z.of_nat (String.length fraction) in
  (if neg then "-" else "")
    +:+ match nearest_binary64 M E with
        | Infinite => "inf"
        | Finite 0 _ => "0.0"
        | Finite m e => repr_finite m e
        end.

End Float.

(** [match_number]: an [int] when there is neither fraction nor
    exponent, a [float] otherwise. *)
Definition match_number (s : string) : option (json * string) :=
  let '(neg, s0) :=
    match s with
    | String c s' => if Ascii.eqb c "-" then (true, s') else (false, s)
    | "" => (false, "")
    end in
  match scan_int_part s0 with
  | None => None
  | Some (i, s1) =>
      let '(f, s2) := scan_frac s1 in
      let '(e, s3) := scan_exp s2 in
      match f, e with
      | "", "" =>
          Some (JInt (if neg then - digits_value i else digits_value i)%Z, s3)
      | _, _ => Some (JFloat (float_repr neg i f e), s3)
      end
  end.

(** [scan_once], [JSONObject] and [JSONArray].  [parse_members] is the
    loop of [JSONObject], entered after the opening quote of a key;
    [parse_items] is the loop of [JSONArray], entered at a value.
    [depth] counts the objects and arrays that may still be entered,
    [fuel] bounds the calls. *)
Fixpoint scan_once (fuel depth : nat) (s : string) : scan json :=
  match fuel with
  | O => OutOfFuel
  | S fuel' =>
      match s with
      | "" => DecodeError
      | String c s' =>
          if Ascii.eqb c dquote then
            match scanstring s' with
            | Scanned r rest => Scanned (JStr r) rest
            | DecodeError => DecodeError
            | DigitsLimit => DigitsLimit
            | RecursionLimit => RecursionLimit
            | WideCharacter => WideCharacter
            | OutOfFuel => OutOfFuel
            end
          else if Ascii.eqb c "{" then
            match depth with
            | O => RecursionLimit
            | S depth' =>
                match skip_ws s' with
                | String c1 s1 =>
                    if Ascii.eqb c1 "}" then Scanned (JObj []) s1
                    else if Ascii.eqb c1 dquote then parse_members fuel' depth' [] s1
                    else DecodeError
                | "" => DecodeError
                end
            end
          else if Ascii.eqb c "[" then
            match depth with
            | O => RecursionLimit
            | S depth' =>
                match skip_ws s' with
                | String c1 s1 =>
                    if Ascii.eqb c1 "]" then Scanned (JArr []) s1
                    else parse_items fuel' depth' [] (String c1 s1)
                | "" => DecodeError
                end
            end
          else if startswith "null" s then Scanned JNull (drop 4 s)
          else if startswith "true" s then Scanned (JBool true) (drop 4 s)
          else if startswith "false" s then Scanned (JBool false) (drop 5 s)
          else
            match match_number s with
            | Some (JInt z, rest) =>
                if exceeds_digits z then DigitsLimit else Scanned (JInt z) rest
            | Some (v, rest) => Scanned v rest
            | None =>
                if startswith "NaN" s then Scanned (JFloat "nan") (drop 3 s)
                else if startswith "Infinity" s then Scanned (JFloat "inf") (drop 8 s)
                else if startswith "-Infinity" s then Scanned (JFloat "-inf") (drop 9 s)
                else DecodeError
            end
      end
  end

with parse_members (fuel depth : nat) (acc : list (string * json)) (s : string) : scan json :=
  match fuel with
  | O => OutOfFuel
  | S fuel' =>
      match scanstring s with
      | Scanned key s1 =>
          match skip_ws s1 with
          | String c s2 =>
              if Ascii.eqb c ":" then
                match scan_once fuel' depth (skip_ws s2) with
                | Scanned v s3 =>
                    let acc' := dict_set key v acc in
                    match skip_ws s3 with
                    | String c4 s4 =>
                        if Ascii.eqb c4 "}" then Scanned (JObj acc') s4
                        else if Ascii.eqb c4 "," then
                          match skip_ws s4 with
                          | String c5 s5 =>
                              if Ascii.eqb c5 dquote then parse_members fuel' depth acc' s5
                              else DecodeError
                          | "" => DecodeError
                          end
                        else DecodeError
                    | "" => DecodeError
                    end
                | e => e
                end
              else DecodeError
          | "" => DecodeError
          end
      | DecodeError => DecodeError
      | DigitsLimit => DigitsLimit
      | RecursionLimit => RecursionLimit
      | WideCharacter => WideCharacter
      | OutOfFuel => OutOfFuel
      end
  end

with parse_items (fuel depth : nat) (acc : list json) (s : string) : scan json :=
  match fuel with
  | O => OutOfFuel
  | S fuel' =>
      match scan_once fuel' depth s with
      | Scanned v s1 =>
          match skip_ws s1 with
          | String c s2 =>
              if Ascii.eqb c "]" then Scanned (JArr (acc ++ [v])) s2
              else if Ascii.eqb c "," then parse_items fuel' depth (acc ++ [v]) (skip_ws s2)
              else DecodeError
          | "" => DecodeError
          end
      | e => e
      end
  end.

(** The budget [loads] gives the scanner. *)
Definition fuel_for (s : string) : nat := 2 * String.length s + 1.

(** [json.loads(s)] as a scan result: leading white space is skipped,
    one value is read, and only white space may follow
    (otherwise "Extra data"). *)
Definition decode (s : string) : scan json :=
  match scan_once (fuel_for s) max_nesting (skip_ws s) with
  | Scanned v rest =>
      match skip_ws rest with
      | "" => Scanned v ""
      | _ => DecodeError
      end
  | e => e
  end.

(** The value [json.loads(s)] returns, when it returns one. *)
Definition loads (s : string) : option json :=
  match decode s with
  | Scanned v _ => Some v
  | _ => None
  end.

(** [encode_basestring_ascii] on one character: the quote and the
    backslash are escaped, the characters outside blank..tilde are
    written with a short escape or as [\u00XX]. *)
Definition hex_digit (n : nat) : ascii :=
  ascii_of_nat (if (n <? 10)%nat then n + 48 else n + 87).

Definition escape_char (c : ascii) : string :=
  let n := nat_of_ascii c in
  if Ascii.eqb c dquote then String backslash (String dquote "")
  else if Ascii.eqb c backslash then String backslash (String backslash "")
  else if ((32 <=? n) && (n <=? 126))%nat then String c ""
  else if (n =? 8)%nat then String backslash "b"
  else if (n =? 12)%nat then String backslash "f"
  else if (n =? 10)%nat then String backslash "n"
  else if (n =? 13)%nat then String backslash "r"
  else if (n =? 9)%nat then String backslash "t"
  else String backslash
         (String "u" (String "0" (String "0"
            (String (hex_digit (n / 16)) (String (hex_digit (n mod 16)) ""))))).

Fixpoint escape (s : string) : string :=
  match s with
  | "" => ""
  | String c s' => escape_char c +:+ escape s'
  end.

Definition encode_basestring_ascii (s : string) : string :=
  String dquote (escape s +:+ String dquote "").

(** [', '.join(parts)] *)
Fixpoint join (sep : string) (parts : list string) : string :=
  match parts with
  | [] => ""
  | [p] => p
  | p :: rest => p +:+ sep +:+ join sep rest
  end.

(** [float.__repr__] as [json.dumps] writes it: the three values that
    are no number have names of their own. *)
Definition floatstr (repr : string) : string :=
  if String.eqb repr "nan" then "NaN"
  else if String.eqb repr "inf" then "Infinity"
  else if String.eqb repr "-inf" then "-Infinity"
  else repr.

(** [json.dumps(v)] with the default separators.  The values the code
    dumps were read by [json.loads]: their integers have the digits
    [str] accepts to write. *)
Fixpoint dumps (v : json) : string :=
  match v with
  | JNull => "null"
  | JBool true => "true"
  | JBool false => "false"
  | JInt z => pretty z
  | JFloat repr => floatstr repr
  | JStr s => encode_basestring_ascii s
  | JArr items => "[" +:+ join ", " (map dumps items) +:+ "]"
  | JObj members =>
      "{" +:+ join ", "
               (map (fun kv => encode_basestring_ascii (fst kv) +:+ ": " +:+ dumps (snd kv))
                    members)
          +:+ "}"
  end.

(** [repr] of a text: between single quotes, or between double quotes
    when the text holds a single quote and no double one.  The
    backslash and the quote in use are escaped, tab, line feed and
    carriage return have their letter, and the other characters that
    do not print are written [\xHH]. *)
Definition printable (c : ascii) : bool :=
  let n := nat_of_ascii c in
  negb ((n <? 32) || ((127 <=? n) && (n <=? 160)) || (n =? 173))%nat.

Definition repr_char (quote c : ascii) : string :=
  let n := nat_of_ascii c in
  if Ascii.eqb c quote || Ascii.eqb c backslash then String backslash (String c "")
  else if (n =? 9)%nat then String backslash "t"
  else if (n =? 10)%nat then String backslash "n"
  else if (n =? 13)%nat then String backslash "r"
  else if printable c then String c ""
  else String backslash
         (String "x" (String (hex_digit (n / 16)) (String (hex_digit (n mod 16)) ""))).

Fixpoint repr_chars (quote : ascii) (s : string) : string :=
  match s with
  | "" => ""
  | String c s' => repr_char quote c +:+ repr_chars quote s'
  end.

Definition repr_str (s : string) : string :=
  let quote : ascii :=
    if contains "'" s && negb (contains (String dquote "") s) then dquote else "'"%char in
  String quote (repr_chars quote s +:+ String quote "").

(** [repr(v)] *)
Fixpoint py_repr (v : json) : string :=
  match v with
  | JNull => "None"
  | JBool true => "True"
  | JBool false => "False"
  | JInt z => pretty z
  | JFloat repr => repr
  | JStr s => repr_str s
  | JArr items => "[" +:+ join ", " (map py_repr items) +:+ "]"
  | JObj members =>
      "{" +:+ join ", "
               (map (fun kv => repr_str (fst kv) +:+ ": " +:+ py_repr (snd kv)) members)
          +:+ "}"
  end.

(** [str(v)]: a text is itself, another value is written as [repr]
    writes it. *)
Definition py_str (v : json) : string :=
  match v with
  | JStr s => s
  | _ => py_repr v
  end.

End Json.

(** ** Tool descriptors and the executor *)

Module Tools.
Import PyStr Json.

(** *** Exceptions and results *)

(** The classes of the exceptions met.  [Unrepresentable] is no class
    of Python: it marks the place where the code goes on with a text
    that holds a code point of 256 or more, which this development has
    no text for; what follows the mark in a run says nothing of the
    code. *)
Inductive exn_class : Type :=
| ValueError | KeyError | TypeError | AttributeError
| ValidationError | JSONDecodeError | RecursionError | Unrepresentable.

(** An exception: its class, [str(e)], and the [__cause__] set by
    [raise ... from e]. *)
#[warnings="-register-all"]
Inductive exn : Type :=
| Exn (cls : exn_class) (msg : string) (cause : option exn).

Definition exn_cls (e : exn) : exn_class := let 'Exn c _ _ := e in c.
Definition exn_str (e : exn) : string := let 'Exn _ m _ := e in m.
Definition exn_cause (e : exn) : option exn := let 'Exn _ _ c := e in c.

Inductive result (A : Type) : Type :=
| Return (a : A)
| Raise (e : exn).
Arguments Return {A} a.
Arguments Raise {A} e.

(** [json.loads(s)] with the exceptions it raises; their texts are
    abridged.  The budget of the scanner is never used up. *)
Definition json_loads (s : string) : result json :=
  match decode s with
  | Scanned v _ => Return v
  | DecodeError => Raise (Exn JSONDecodeError "Expecting value" None)
  | DigitsLimit =>
      Raise (Exn ValueError
               "Exceeds the limit (4300 digits) for integer string conversion" None)
  | RecursionLimit =>
      Raise (Exn RecursionError
               "maximum recursion depth exceeded while decoding a JSON document" None)
  | WideCharacter | OutOfFuel =>
      Raise (Exn Unrepresentable "code point of 256 or more" None)
  end.

(** *** Conversation turns *)

(** One requested invocation: [tool.id], [tool.function.name],
    [tool.function.arguments]. *)
Record tool_call : Type := ToolCall {
  id : string;
  function_name : string;
  function_arguments : string
}.

(** The message object the LM client returns: [content] may be [None],
    [tool_calls] is [None] or a list ([None] is the empty list here,
    both are false in a condition). *)
Record completion : Type := Completion {
  content : option string;
  tool_calls : list tool_call
}.

Inductive message : Type :=
| Dict (role text : string)                        (* {"role": .., "content": ..} *)
| Assistant (response : completion)                (* the client's message object *)
| ToolMessage (tool_call_id name text : string).   (* {"role": "tool", ..} *)

(** What an observer of a run sees: the calls to the LM client, with
    the messages sent, and the calls to wrapped functions, with the
    keyword arguments received. *)
Inductive event : Type :=
| Generate (messages : list message)
| Invoke (fn : string) (kwargs : gmap string json).

Definition is_generate (e : event) : bool :=
  match e with Generate _ => true | Invoke _ _ => false end.
Definition is_invoke (e : event) : bool :=
  match e with Invoke _ _ => true | Generate _ => false end.

(** [dict(pairs)]: a later pair replaces an earlier one with its key. *)
Definition py_dict (pairs : list (string * json)) : gmap string json :=
  foldl (fun m kv => <[kv.1 := kv.2]> m) ∅ pairs.

(** [d.update(other)] *)
Definition update (d other : gmap string json) : gmap string json := other ∪ d.

Section WithWorld.
(** [W] is the state of the collaborators: the LM backend behind the
    client and whatever the wrapped functions read (the random
    generator of [get_weather]). *)
Context {W : Type}.

(** The mutable state of one [Agent] and of its collaborators,
    with the log of observed events. *)
Record state : Type := State {
  memory : list message;          (* self.memory.messages *)
  tool_history : list message;    (* self.tool_history *)
  world : W;
  log : list event
}.

Definition M (A : Type) : Type := state -> result A * state.

Definition ret {A} (a : A) : M A := fun st => (Return a, st).
Definition raise {A} (e : exn) : M A := fun st => (Raise e, st).
Definition bind {A B} (m : M A) (k : A -> M B) : M B :=
  fun st =>
    match m st with
    | (Return a, st') => k a st'
    | (Raise e, st') => (Raise e, st')
    end.
(** [try: m except Exception as e: h e] *)
Definition try_except {A} (m : M A) (h : exn -> M A) : M A :=
  fun st =>
    match m st with
    | (Raise e, st') => h e st'
    | r => r
    end.

(** A Python function: [__name__], [__doc__], the names of its
    parameters, and its call with keyword arguments. *)
Record PyFunc : Type := {
  fn_name : string;
  fn_doc : option string;
  fn_params : list string;
  fn_call : gmap string json -> W -> result string * W
}.

(** A pydantic model class, through what the code uses of it:
    [model_validate_json] and the constructor answer with the
    validated fields (the [model_dump] of the instance) or with the
    text of a [ValidationError]. *)
Record BaseModel : Type := {
  model_doc : option string;
  model_validate_json : string -> string + gmap string json;
  model_construct : gmap string json -> string + gmap string json
}.

Record AgentTool : Type := {
  func : PyFunc;
  args_model : BaseModel;
  name : string;
  description : string
}.

(** Truth value of [func.__doc__]: [None] and the empty text are
    false. *)
Definition has_doc (f : PyFunc) : bool :=
  match fn_doc f with
  | Some (String _ _) => true
  | _ => false
  end.

(** [AgentTool.__init__] *)
Definition AgentTool_init (f : PyFunc) (m : BaseModel) : AgentTool :=
  {| func := f;
     args_model := m;
     name := fn_name f;
     description :=
       if has_doc f then default "" (fn_doc f)
       else default "" (model_doc m) |}.

Definition check_docstring (f : PyFunc) : result unit :=
  if negb (has_doc f)
  then Raise (Exn ValueError
                ("Function '" +:+ fn_name f +:+ "' must have a docstring.") None)
  else Return tt.

(** The decorator [@Tool(args_model=m)] applied to [f]. *)
Definition Tool (m : BaseModel) (f : PyFunc) : result AgentTool :=
  match check_docstring f with
  | Raise e => Raise e
  | Return _ => Return (AgentTool_init f m)
  end.

Definition validate_json_args (t : AgentTool) (json_string : string) : bool :=
  match model_validate_json (args_model t) json_string with
  | inr _ => true
  | inl _ => false
  end.

(** The call of the wrapped function with keyword arguments, logged. *)
Definition call (f : PyFunc) (kwargs : gmap string json) : M string :=
  fun st =>
    let '(r, w) := fn_call f kwargs (world st) in
    (r, {| memory := memory st; tool_history := tool_history st;
           world := w; log := log st ++ [Invoke (fn_name f) kwargs] |}).

(** [AgentTool.run]: [args] are the positional arguments, [kwargs]
    the keyword arguments.  The call binds [self] to the tool before
    the body is entered: a keyword of that name is refused with a
    [TypeError], outside the [try] of the body. *)
Definition run (t : AgentTool) (args : list json) (kwargs : gmap string json) : M string :=
  match kwargs !! "self" with
  | Some _ =>
      raise (Exn TypeError "AgentTool.run() got multiple values for argument 'self'" None)
  | None =>
      let kwargs :=
        match args with
        | [] => kwargs
        | _ => update kwargs (py_dict (zip (fn_params (func t)) args))
        end in
      match model_construct (args_model t) kwargs with
      | inl msg =>
          raise (Exn ValueError
                   ("Argument validation failed for tool '" +:+ name t +:+ "': " +:+ msg) None)
      | inr validated_args =>
          try_except (call (func t) validated_args)
            (fun e =>
               match exn_cls e with
               | ValidationError =>
                   raise (Exn ValueError
                            ("Argument validation failed for tool '"
                               +:+ name t +:+ "': " +:+ exn_str e) None)
               | _ =>
                   raise (Exn ValueError
                            ("An error occurred during the execution of tool '"
                               +:+ name t +:+ "': " +:+ exn_str e) None)
               end)
      end
  end.

(** [AgentToolExecutor.register_tool]: the outcome and the mapping
    [self.tools] afterwards. *)
Definition register_tool (tool : AgentTool) (tools : gmap string AgentTool)
  : result unit * gmap string AgentTool :=
  match tools !! name tool with
  | Some _ =>
      (Raise (Exn ValueError ("Tool '" +:+ name tool +:+ "' is already registered.") None),
       tools)
  | None => (Return tt, <[name tool := tool]> tools)
  end.

(** The registration loop of [Agent.__init__]. *)
Fixpoint register_tools (l : list AgentTool) (tools : gmap string AgentTool)
  : result unit * gmap string AgentTool :=
  match l with
  | [] => (Return tt, tools)
  | t :: l' =>
      match register_tool t tools with
      | (Return _, tools') => register_tools l' tools'
      | r => r
      end
  end.

(** [AgentToolExecutor.execute] *)
Definition execute (tools : gmap string AgentTool) (tool_name tool_args : string) : M string :=
  match tools !! tool_name with
  | None => raise (Exn ValueError ("Tool '" +:+ tool_name +:+ "' not found.") None)
  | Some tool =>
      try_except
        (if validate_json_args tool tool_args then
           match json_loads tool_args with
           | Return (JObj tool_args_dict) => run tool [] (py_dict tool_args_dict)
           | Return _ => raise (Exn TypeError "argument after ** must be a mapping" None)
           | Raise e => raise e
           end
         else
           raise (Exn ValueError
                    ("Error validating tool '" +:+ tool_name +:+ "' arguments.") None))
        (fun e =>
           raise (Exn ValueError
                    ("Error executing tool '" +:+ tool_name +:+ "': " +:+ exn_str e)
                    (Some e)))
  end.

(** *** The weather tool of the lessons *)

(** [random.randint(a, b)] *)
Variable randint : Z -> Z -> W -> Z * W.

(** A model class whose fields are all required and of type [str],
    as [GetWeatherSchema] and [JumpSchema] are: every field must be
    present with a text value, other keys are ignored.  A JSON text is
    read as [json.loads] reads it; the text of the validation error is
    abridged.  A text with a [\u] escape of a code point of 256 or
    more is passed on as it is: [json.loads], which [execute] calls
    next on the same text, marks it. *)
Fixpoint validate_fields (fields : list string) (input : gmap string json)
  : string + gmap string json :=
  match fields with
  | [] => inr ∅
  | f :: fields' =>
      match input !! f with
      | Some (JStr s) =>
          match validate_fields fields' input with
          | inr d => inr (<[f := JStr s]> d)
          | inl msg => inl msg
          end
      | Some _ => inl (f +:+ ": Input should be a valid string")
      | None => inl (f +:+ ": Field required")
      end
  end.

Definition str_model (doc : string) (fields : list string) : BaseModel :=
  {| model_doc := Some doc;
     model_validate_json := fun s =>
       match decode s with
       | Scanned (JObj d) _ => validate_fields fields (py_dict d)
       | Scanned _ _ => inl "Input should be an object"
       | WideCharacter => inr ∅
       | _ => inl "Invalid JSON"
       end;
     model_construct := validate_fields fields |}.

Definition GetWeatherSchema : BaseModel :=
  str_model "Get weather information based on location." ["location"].

(** [def get_weather(location: str) -> str].  The call binds the
    keyword [location]; any other keyword set is a [TypeError]. *)
Definition get_weather_func : PyFunc :=
  {| fn_name := "get_weather";
     fn_doc := Some "Gets weather information.";
     fn_params := ["location"];
     fn_call := fun kwargs w =>
       match kwargs !! "location", decide (dom kwargs = {["location"]}) with
       | Some location, left _ =>
           let '(temperature, w') := randint 60 80 w in
           (Return (py_str location +:+ ": " +:+ pretty temperature +:+ "F."), w')
       | _, _ => (Raise (Exn TypeError "get_weather() got unexpected arguments" None), w)
       end |}.

Definition get_weather : result AgentTool := Tool GetWeatherSchema get_weather_func.

End WithWorld.

Arguments state : clear implicits.
Arguments PyFunc : clear implicits.
Arguments AgentTool : clear implicits.
Arguments M : clear implicits.

(** Sequencing of two steps; an exception of the first ends both. *)
Notation "'do' x <- m ;; k" := (bind m (fun x => k))
  (at level 10, x name, m at level 99, k at level 200).

End Tools.

(** ** The function-calling agent (lesson 12) *)

Module Loop.
Import PyStr Json Tools.

Section WithWorld.
Context {W : Type}.

(** The parts of an [Agent] fixed by [__init__].  [llm_generate] is
    [self.llm_client.generate(chat_history, tools=self.function_calls)];
    [executor] is [self.executor.tools]; [max_iterations] is the length
    of [range(self.max_iterations)]. *)
Record Agent : Type := {
  llm_generate : list message -> W -> completion * W;
  system_message : message;
  max_iterations : nat;
  executor : gmap string (AgentTool W)
}.

Definition generate (a : Agent) (messages : list message) : M W completion :=
  fun st =>
    let '(response, w) := llm_generate a messages (world st) in
    (Return response,
     {| memory := memory st; tool_history := tool_history st;
        world := w; log := log st ++ [Generate messages] |}).

(** [self.memory.add_message(m)] *)
Definition add_message (m : message) : M W unit :=
  fun st =>
    (Return tt,
     {| memory := memory st ++ [m]; tool_history := tool_history st;
        world := world st; log := log st |}).

(** [self.tool_history.append(m)] *)
Definition tool_history_append (m : message) : M W unit :=
  fun st =>
    (Return tt,
     {| memory := memory st; tool_history := tool_history st ++ [m];
        world := world st; log := log st |}).

(** [self.tool_history = []] *)
Definition tool_history_clear : M W unit :=
  fun st =>
    (Return tt,
     {| memory := memory st; tool_history := [];
        world := world st; log := log st |}).

(** The loop [for tool in response.tool_calls] of [parse_response]. *)
Fixpoint execute_tool_calls (a : Agent) (calls : list tool_call) : M W unit :=
  match calls with
  | [] => ret tt
  | tool :: calls' =>
      let tool_name := function_name tool in
      let tool_args := function_arguments tool in
      do _ <- try_except
             (do execution_results <- execute (executor a) tool_name tool_args ;;
              tool_history_append (ToolMessage (id tool) tool_name execution_results))
             (fun e =>
                raise (Exn ValueError
                         ("Execution error in tool '" +:+ tool_name +:+ "': " +:+ exn_str e)
                         (Some e))) ;;
      execute_tool_calls a calls'
  end.

(** [Agent.parse_response] *)
Definition parse_response (a : Agent) (response : completion) : M W bool :=
  match tool_calls response with
  | [] => ret false
  | calls =>
      do _ <- tool_history_append (Assistant response) ;;
      do _ <- execute_tool_calls a calls ;;
      ret true
  end.

(** The loop [for _ in range(self.max_iterations)] of [run], with
    [n] iterations left.  When the range is used up the function
    ends without a [return] statement: the caller receives [None]. *)
Fixpoint run_loop (a : Agent) (n : nat) : M W (option completion) :=
  match n with
  | O => ret None
  | S n' =>
      fun st =>
        let chat_history : list message :=
          ([system_message a] ++ memory st ++ tool_history st)%list in
        (do response <- generate a chat_history ;;
         do requested <- parse_response a response ;;
         if requested : bool then run_loop a n'
         else
           do _ <- add_message (Assistant response) ;;
           do _ <- tool_history_clear ;;
           ret (Some response))
          st
  end.

(** [Agent.run] *)
Definition run (a : Agent) (user_message : message) : M W (option completion) :=
  do _ <- add_message user_message ;;
  run_loop a (max_iterations a).

(** [Agent.__init__]: the tools are registered one by one into a new
    executor; memory and tool history start empty. *)
Definition Agent_init (llm : list message -> W -> completion * W)
    (sys : message) (n : nat) (tools : list (AgentTool W)) : result Agent :=
  match register_tools tools ∅ with
  | (Return _, registry) =>
      Return {| llm_generate := llm; system_message := sys;
                max_iterations := n; executor := registry |}
  | (Raise e, _) => Raise e
  end.

Definition initial_state (w : W) : state W :=
  {| memory := []; tool_history := []; world := w; log := [] |}.

End WithWorld.

Arguments Agent : clear implicits.

End Loop.

(** ** The text-prompt protocol (lessons 13 and 15) *)

Module ReAct.
Import PyStr Json Tools.

(** The two rewriting steps that open [parse_nested_json] and
    [parse_response]: backslash escapes, then doubled braces. *)
Definition unescape_backslashes (text : string) : string :=
  replace (bs +:+ bs) bs
    (replace (bs +:+ "'") "'"
       (replace (bs +:+ "n") nl
          (replace (bs +:+ bs +:+ "n") (bs +:+ "n") text))).

Definition single_braces (text : string) : string :=
  replace "}}" "}" (replace "{{" "{" text).

Definition normalize (text : string) : string :=
  single_braces (unescape_backslashes text).

(** [parse_nested_json] of lesson 13: [json.JSONDecodeError] is passed
    over and the function answers [None]; another exception of
    [json.loads] leaves the function. *)
Definition parse_nested_json (text : string) : result (option json) :=
  match Regex.search (normalize text) with
  | Some group =>
      match json_loads group with
      | Return v => Return (Some v)
      | Raise e =>
          match exn_cls e with
          | JSONDecodeError => Return None
          | _ => Raise e
          end
      end
  | None => Return None
  end.

(** [s.capitalize()]: the first character in title case, the others
    in lower case.  The small letters a-z and those of the Latin-1
    block have their capital 32 places below, the sharp s becomes
    [Ss].  The capitals of the code points 181 and 255 lie beyond the
    code points of this development: the two are left as they are,
    which is not what [capitalize] does to them. *)
Definition title_char (c : ascii) : string :=
  let n := nat_of_ascii c in
  if (((97 <=? n) && (n <=? 122))
      || ((224 <=? n) && (n <=? 254) && negb (n =? 247)))%nat
  then String (ascii_of_nat (n - 32)) ""
  else if (n =? 223)%nat then "Ss"
  else String c "".

Definition capitalize (s : string) : string :=
  match s with
  | "" => ""
  | String c s' => title_char c +:+ lower s'
  end.

(** [message["role"]] and [str(message["content"])] of a turn in
    memory; a message object is first dumped to a [dict]. *)
Definition role_of (m : message) : string :=
  match m with
  | Dict role _ => role
  | Assistant _ => "assistant"
  | ToolMessage _ _ _ => "tool"
  end.

Definition content_of (m : message) : string :=
  match m with
  | Dict _ text => text
  | Assistant response => default "None" (content response)
  | ToolMessage _ _ text => text
  end.

Section WithWorld.
Context {W : Type}.

(** The parts of the ReAct [Agent] fixed by [__init__].
    [llm_generate] is [self.llm_client.generate(messages=..,
    stop=..)]; [format_prompt] is the filled prompt template as a
    function of [chat_history], [user_input] and [react_loop]. *)
Record Agent : Type := {
  llm_generate : list message -> W -> completion * W;
  format_prompt : string -> string -> string -> string;
  max_iterations : nat;
  executor : gmap string (AgentTool W)
}.

Definition generate (a : Agent) (messages : list message) : M W completion :=
  fun st =>
    let '(response, w) := llm_generate a messages (world st) in
    (Return response,
     {| memory := memory st; tool_history := tool_history st;
        world := w; log := log st ++ [Generate messages] |}).

(** [self.memory.add_messages(ms)] *)
Definition add_messages (ms : list message) : M W unit :=
  fun st =>
    (Return tt,
     {| memory := memory st ++ ms; tool_history := tool_history st;
        world := world st; log := log st |}).

(** [Agent.messages_to_string] *)
Definition messages_to_string (st : state W) : string :=
  join nl (map (fun m => capitalize (role_of m) +:+ ": " +:+ content_of m) (memory st)).

(** [Agent.parse_response]: the action dictionary, [None], or an
    exception. *)
Definition parse_response (response : completion)
  : result (option (list (string * json))) :=
  match content response with
  | None => Raise (Exn AttributeError "'NoneType' object has no attribute 'replace'" None)
  | Some message_content =>
      match Regex.search (normalize message_content) with
      | Some action_content =>
          match json_loads (strip action_content) with
          | Return (JObj action_dict) =>
              match dict_get "arguments" action_dict with
              | Some arguments =>
                  Return (Some (dict_set "args_json" (JStr (dumps arguments)) action_dict))
              | None => Raise (Exn KeyError "'arguments'" None)
              end
          | Return _ => Raise (Exn TypeError "indices must be integers" None)
          | Raise e =>
              match exn_cls e with
              | JSONDecodeError => Raise (Exn ValueError "Invalid JSON in action content" None)
              | _ => Raise e
              end
          end
      | None => Return None
      end
  end.

(** [self.executor.execute(action_name, action_arguments)] with the
    values read from the action dictionary: a name that is not a
    text is no key of the registry. *)
Definition execute_action (a : Agent) (action_name action_arguments : json) : M W string :=
  match action_name, action_arguments with
  | JStr tool_name, JStr tool_args => execute (executor a) tool_name tool_args
  | (JArr _ | JObj _), _ => raise (Exn TypeError "unhashable type" None)
  | _, _ =>
      raise (Exn ValueError ("Tool '" +:+ py_str action_name +:+ "' not found.") None)
  end.

(** The branch of [run] taken when no action was parsed. *)
Definition final_response (response : completion) : message :=
  let message_content := default "None" (content response) in
  if contains "final answer" (lower message_content)
  then Dict "assistant" (strip (split_last "final answer:" (lower message_content)))
  else Assistant response.

(** The loop of [run], with [n] iterations left; [react_loop] is the
    text of the thoughts and observations so far. *)
Fixpoint run_loop (a : Agent) (task chat_history : string) (n : nat)
    (react_loop : string) : M W (option message) :=
  match n with
  | O => ret None
  | S n' =>
      let formatted_message := format_prompt a chat_history task react_loop in
      do response <- generate a [Dict "user" formatted_message] ;;
      match parse_response response with
      | Raise e => raise e
      | Return (Some action_dict) =>
          let current_thought := default "None" (content response) in
          match dict_get "name" action_dict, dict_get "args_json" action_dict with
          | Some action_name, Some action_arguments =>
              do execution_results <- execute_action a action_name action_arguments ;;
              let current_observation := "Observation: " +:+ execution_results in
              run_loop a task chat_history n'
                (react_loop +:+ (current_thought +:+ current_observation))
          | None, _ => raise (Exn KeyError "'name'" None)
          | _, None => raise (Exn KeyError "'args_json'" None)
          end
      | Return None =>
          let response' := final_response response in
          do _ <- add_messages [Dict "user" task; response'] ;;
          ret (Some response')
      end
  end.

(** [Agent.run] *)
Definition run (a : Agent) (task : string) : M W (option message) :=
  fun st => run_loop a task (messages_to_string st) (max_iterations a) "" st.

End WithWorld.

Arguments Agent : clear implicits.

End ReAct.

(** ** What the properties speak about *)

Module Observe.
Import PyStr Json Regex Tools.
Local Open Scope list_scope.

(** Number of calls to the LM client recorded in a log. *)
Definition lm_calls (l : list event) : nat := length (List.filter is_generate l).

(** The calls to wrapped functions recorded in a log. *)
Definition invocations (l : list event) : list event := List.filter is_invoke l.

(** [no_open s]: no opening brace occurs in [s]. *)
Fixpoint no_open (s : string) : bool :=
  match s with
  | "" => true
  | String c s' => negb (Ascii.eqb c "{") && no_open s'
  end.

(** A scan result that did not use up its budget and, when it is a
    value, left less text than it was given. *)
Definition consumes (res : scan json) (s : string) : Prop :=
  res <> OutOfFuel
  /\ forall v r, res = Scanned v r -> String.length r < String.length s.

(** [closes d p]: [p] is the text read after an opening brace, with [d]
    more braces open, up to the brace that closes the first one. *)
Fixpoint closes (d : nat) (p : string) : Prop :=
  match d with
  | O => exists b, inside b /\ p = b +:+ "}"
  | S k => exists b p', inside b /\ closes k p' /\ p = b +:+ String "}" p'
  end.

Section WithWorld.
Context {W : Type}.
Implicit Types (st : state W).

(** The state after the LM call of one iteration. *)
Definition after_generate st (messages : list message) (w' : W) : state W :=
  {| memory := memory st; tool_history := tool_history st;
     world := w'; log := log st ++ [Generate messages] |}.

(** [frame st st']: memory and tool history are the same in both
    states and no LM call lies between them. *)
Definition frame st st' : Prop :=
  memory st' = memory st
  /\ tool_history st' = tool_history st
  /\ lm_calls (log st') = lm_calls (log st).

(** [grows st st']: memory is the same, the tool history of [st] is
    a prefix of that of [st'], and no LM call lies between them. *)
Definition grows st st' : Prop :=
  memory st' = memory st
  /\ (exists added, tool_history st' = tool_history st ++ added)
  /\ lm_calls (log st') = lm_calls (log st).

(** The tool-result turns appended for a list of calls: one per call,
    in the order of the calls, carrying its identifier and name. *)
Definition answers (calls : list tool_call) (turns : list message) : Prop :=
  Forall2 (fun c m => exists text, m = ToolMessage (id c) (function_name c) text)
          calls turns.

(** One tool iteration of a run: the reply that requested the calls,
    with the tool-result turns of its calls. *)
Definition tool_iteration (it : completion * list message) : Prop :=
  tool_calls it.1 <> [] /\ answers (tool_calls it.1) it.2.

(** The turns a list of iterations leaves in the tool history: for
    each iteration in order its reply, then its tool results. *)
Fixpoint tool_turns (its : list (completion * list message)) : list message :=
  match its with
  | [] => []
  | it :: its' => (Assistant it.1 :: it.2) ++ tool_turns its'
  end.

(** The requests of the iterations of a run: each iteration sends the
    turns [sent] so far and adds its own to them for the next;
    [closing] tells whether one more request follows the last of the
    iterations. *)
Fixpoint iteration_requests (sent : list message)
    (its : list (completion * list message)) (closing : bool) : list (list message) :=
  match its with
  | [] => if closing then [sent] else []
  | it :: its' =>
      sent :: iteration_requests (sent ++ Assistant it.1 :: it.2) its' closing
  end.

(** The backend of [a] requests a tool on every turn. *)
Definition always_requests (a : Loop.Agent W) : Prop :=
  forall messages w, tool_calls (Loop.llm_generate a messages w).1 <> [].

End WithWorld.

End Observe.

(** ** The stubs of the test scenarios *)

Module Scenario.
Import PyStr Json Tools Observe.

(** The collaborators' state in the scenarios is the number of replies
    the stubbed backend has given; the stubbed random generator always
    draws 70. *)
Definition randint70 (a b : Z) (w : nat) : Z * nat := (70%Z, w).

Definition weather_tool : AgentTool nat :=
  AgentTool_init (get_weather_func randint70) GetWeatherSchema.

Definition registry : gmap string (AgentTool nat) := {[ "get_weather" := weather_tool ]}.

Definition system_message : message := Dict "system" "You are a weather assistant.".
Definition user_message : message := Dict "user" "What is the weather in Virginia?".

(** The two replies of the weather scenario. *)
Definition request_virginia : completion :=
  Completion None [ToolCall "call_1" "get_weather" (q "{'location':'Virginia'}")].
Definition final_virginia : completion :=
  Completion (Some "It is 70F in Virginia.") [].

(** A backend that first requests the tool, then answers. *)
Definition weather_llm (messages : list message) (n : nat) : completion * nat :=
  (if (n =? 0)%nat then request_virginia else final_virginia, S n).

(** A backend that requests the tool on every turn. *)
Definition requesting_llm (messages : list message) (n : nat) : completion * nat :=
  (request_virginia, S n).

Definition weather_agent : Loop.Agent nat :=
  {| Loop.llm_generate := weather_llm;
     Loop.system_message := system_message;
     Loop.max_iterations := 10;
     Loop.executor := registry |}.

Definition requesting_agent : Loop.Agent nat :=
  {| Loop.llm_generate := requesting_llm;
     Loop.system_message := system_message;
     Loop.max_iterations := 3;
     Loop.executor := registry |}.

(** A ReAct reply that carries both the final-answer marker and an
    action object, followed by a plain final answer. *)
Definition marked_action : completion :=
  Completion
    (Some (q "Final Answer: {'name': 'get_weather', 'arguments': {'location': 'Paris'} }"))
    [].
Definition plain_final : completion :=
  Completion (Some "Thought: done. Final Answer: It is 70F in Paris.") [].

Definition react_llm (messages : list message) (n : nat) : completion * nat :=
  (if (n =? 0)%nat then marked_action else plain_final, S n).

Definition react_prompt (chat_history user_input react_loop : string) : string :=
  chat_history +:+ nl +:+ "Question: " +:+ user_input +:+ nl +:+ react_loop.

Definition react_agent : ReAct.Agent nat :=
  {| ReAct.llm_generate := react_llm;
     ReAct.format_prompt := react_prompt;
     ReAct.max_iterations := 10;
     ReAct.executor := registry |}.

(** A function without documentation string. *)
Definition undocumented_func : PyFunc nat :=
  {| fn_name := "jump";
     fn_doc := None;
     fn_params := ["distance"];
     fn_call := fun kwargs w => (Return "I jumped", w) |}.

(** The argument model of [jump] in the lessons. *)
Definition JumpSchema : BaseModel := str_model "Jump a specific distance" ["distance"].

(** A documented function whose parameter is named [self], and the
    tool the decorator builds from it. *)
Definition self_func : PyFunc nat :=
  {| fn_name := "describe";
     fn_doc := Some "Describes the subject.";
     fn_params := ["self"];
     fn_call := fun kwargs w => (Return "described", w) |}.

Definition self_tool : AgentTool nat :=
  AgentTool_init self_func (str_model "Describe a subject" ["self"]).


End Scenario.

(** ** [ChatMessageMemory] *)

Module Memory.
Import PyStr Json Tools.

Section WithWorld.
Context {W : Type}.

(** [add_messages]: the loop [for message in messages:
    self.add_message(message)]. *)
Fixpoint add_messages (messages : list message) : M W unit :=
  match messages with
  | [] => ret tt
  | message :: messages' =>
      do _ <- Loop.add_message message ;;
      add_messages messages'
  end.

(** [get_messages]: a copy of the list. *)
Definition get_messages : M W (list message) :=
  fun st => (Return (memory st), st).

(** [reset_memory]: [self.messages = []] *)
Definition reset_memory : M W unit :=
  fun st =>
    (Return tt,
     {| memory := []; tool_history := tool_history st;
        world := world st; log := log st |}).

(** The agent of lessons 6 and 7: an LM client, a system message and
    a memory.  [llm_generate] is [self.llm_client.generate(chat_history)],
    called with [tools=self.tools] besides in lesson 7. *)
Record Agent : Type := {
  llm_generate : list message -> W -> completion * W;
  system_message : message
}.

Definition generate (a : Agent) (messages : list message) : M W completion :=
  fun st =>
    let '(response, w) := llm_generate a messages (world st) in
    (Return response,
     {| memory := memory st; tool_history := tool_history st;
        world := w; log := log st ++ [Generate messages] |}).

(** [Agent.run] *)
Definition run (a : Agent) (user_message : message) : M W completion :=
  do _ <- Loop.add_message user_message ;;
  fun st =>
    let chat_history : list message := ([system_message a] ++ memory st)%list in
    (do response <- generate a chat_history ;;
     do _ <- Loop.add_message (Assistant response) ;;
     ret response) st.

End WithWorld.

Arguments Agent : clear implicits.

End Memory.

(** ** The single-step agent (lesson 11, and the first [Agent] of lesson 12) *)

Module Single.
Import PyStr Json Tools.

(** What [run] hands back: [self.tool_history] after tool calls, the
    message object of the client otherwise. *)
Inductive outcome : Type :=
| ToolHistory (turns : list message)
| Response (response : completion).

Section WithWorld.
Context {W : Type}.

(** The parts of the [Agent] fixed by [__init__].
    [has_function_calls] tells whether the attribute
    [self.function_calls] exists: [__init__] assigns it only under
    [if tools:]. *)
Record Agent : Type := {
  llm_generate : list message -> W -> completion * W;
  system_message : message;
  executor : gmap string (AgentTool W);
  has_function_calls : bool
}.

(** [Agent.__init__]: [tools] is the list given, [None] being the
    empty list (both are false in the condition). *)
Definition Agent_init (llm : list message -> W -> completion * W)
    (sys : message) (tools : list (AgentTool W)) : result Agent :=
  match tools with
  | [] =>
      Return {| llm_generate := llm; system_message := sys;
                executor := ∅; has_function_calls := false |}
  | _ =>
      match register_tools tools ∅ with
      | (Return _, registry) =>
          Return {| llm_generate := llm; system_message := sys;
                    executor := registry; has_function_calls := true |}
      | (Raise e, _) => Raise e
      end
  end.

Definition generate (a : Agent) (messages : list message) : M W completion :=
  fun st =>
    let '(response, w) := llm_generate a messages (world st) in
    (Return response,
     {| memory := memory st; tool_history := tool_history st;
        world := w; log := log st ++ [Generate messages] |}).

(** The loop [for tool in response.tool_calls] of [run]. *)
Fixpoint execute_tool_calls (tools : gmap string (AgentTool W)) (calls : list tool_call)
  : M W unit :=
  match calls with
  | [] => ret tt
  | tool :: calls' =>
      let tool_name := function_name tool in
      let tool_args := function_arguments tool in
      do _ <- try_except
             (do execution_results <- execute tools tool_name tool_args ;;
              Loop.tool_history_append (ToolMessage (id tool) tool_name execution_results))
             (fun e =>
                raise (Exn ValueError
                         ("Execution error in tool '" +:+ tool_name +:+ "': " +:+ exn_str e)
                         (Some e))) ;;
      execute_tool_calls tools calls'
  end.

(** [Agent.run], the second definition of the class body (it replaces
    the first).  The list handed back after tool calls is
    [self.tool_history] itself, as it is at that moment. *)
Definition run (a : Agent) (user_message : message) : M W outcome :=
  do _ <- Loop.add_message user_message ;;
  fun st =>
    let chat_history : list message :=
      ([system_message a] ++ memory st ++ tool_history st)%list in
    if has_function_calls a then
      (do response <- generate a chat_history ;;
       match tool_calls response with
       | [] =>
           do _ <- Loop.add_message (Assistant response) ;;
           do _ <- Loop.tool_history_clear ;;
           ret (Response response)
       | calls =>
           do _ <- execute_tool_calls (executor a) calls ;;
           fun st' => (Return (ToolHistory (tool_history st')), st')
       end) st
    else
      (Raise (Exn AttributeError "'Agent' object has no attribute 'function_calls'" None), st).

End WithWorld.

Arguments Agent : clear implicits.

End Single.

(** ** The prompt-driven agent of lesson 14 *)

Module Prompted.
Import PyStr Json Tools.

Section WithWorld.
Context {W : Type}.

(** The parts of the [Agent] fixed by [__init__]; [format_prompt] is
    the filled prompt template as a function of [chat_history] and
    [user_input]. *)
Record Agent : Type := {
  llm_generate : list message -> W -> completion * W;
  format_prompt : string -> string -> string;
  max_iterations : nat;
  executor : gmap string (AgentTool W)
}.

Definition generate (a : Agent) (messages : list message) : M W completion :=
  fun st =>
    let '(response, w) := llm_generate a messages (world st) in
    (Return response,
     {| memory := memory st; tool_history := tool_history st;
        world := w; log := log st ++ [Generate messages] |}).

(** The lines of [messages_to_string]: a turn is subscripted as it
    is, which a message object of the client does not support. *)
Fixpoint format_messages (messages : list message) : result (list string) :=
  match messages with
  | [] => Return []
  | Assistant _ :: _ =>
      Raise (Exn TypeError "'ChatCompletionMessage' object is not subscriptable" None)
  | message :: messages' =>
      match format_messages messages' with
      | Return lines =>
          Return ((ReAct.capitalize (ReAct.role_of message) +:+ ": "
                     +:+ ReAct.content_of message) :: lines)
      | Raise e => Raise e
      end
  end.

(** [Agent.messages_to_string] *)
Definition messages_to_string (st : state W) : result string :=
  match format_messages (memory st) with
  | Return lines => Return (join nl lines)
  | Raise e => Raise e
  end.

(** [self.executor.execute(action_name, action_arguments)] with the
    values read from the action dictionary. *)
Definition execute_action (tools : gmap string (AgentTool W))
    (action_name action_arguments : json) : M W string :=
  match action_name, action_arguments with
  | JStr tool_name, JStr tool_args => execute tools tool_name tool_args
  | (JArr _ | JObj _), _ => raise (Exn TypeError "unhashable type" None)
  | _, _ =>
      raise (Exn ValueError ("Tool '" +:+ py_str action_name +:+ "' not found.") None)
  end.

(** The body of the loop [for _ in range(self.max_iterations)] of
    [run]: both branches leave the function, so the body runs at most
    once.  [parse_response] is the method of the ReAct agent, word for
    word.  Without action the code calls [self.memory.add_messages]
    with the keywords [user_message] and [assistant_message], which
    the method does not take. *)
Definition run_body (a : Agent) (task : string) : M W (option string) :=
  fun st =>
    match messages_to_string st with
    | Raise e => (Raise e, st)
    | Return chat_history =>
        let formatted_message := format_prompt a chat_history task in
        (do response <- generate a [Dict "user" formatted_message] ;;
         match ReAct.parse_response response with
         | Raise e => raise e
         | Return (Some action_dict) =>
             match dict_get "name" action_dict, dict_get "args_json" action_dict with
             | Some action_name, Some action_arguments =>
                 do execution_results <-
                   execute_action (executor a) action_name action_arguments ;;
                 ret (Some execution_results)
             | None, _ => raise (Exn KeyError "'name'" None)
             | _, None => raise (Exn KeyError "'args_json'" None)
             end
         | Return None =>
             raise (Exn TypeError
                      "add_messages() got an unexpected keyword argument 'user_message'"
                      None)
         end) st
    end.

(** [Agent.run]; an empty range ends the function without [return]. *)
Definition run (a : Agent) (task : string) : M W (option string) :=
  do _ <- Loop.add_message (Dict "user" task) ;;
  match max_iterations a with
  | O => ret None
  | S _ => run_body a task
  end.

End WithWorld.

Arguments Agent : clear implicits.

End Prompted.

(** ** The function-calling definition of a tool *)

Module Schema.
Import PyStr Json Tools.

(** [d.pop(k, default)]: the dictionary without the key. *)
Fixpoint dict_pop {V} (k : string) (d : list (string * V)) : list (string * V) :=
  match d with
  | [] => []
  | (k', v) :: d' =>
      if String.eqb k k' then d' else (k', v) :: dict_pop k d'
  end.

(** [AgentTool.args_schema]; [model_json_schema] is the dictionary
    [self.args_model.model_json_schema()] builds. *)
Definition args_schema (model_json_schema : list (string * json)) : list (string * json) :=
  dict_pop "title" model_json_schema.

(** [AgentTool.to_openai_function_call_definition] *)
Definition to_openai_function_call_definition {W} (t : AgentTool W)
    (model_json_schema : list (string * json)) : json :=
  let schema_dict := args_schema model_json_schema in
  let description := default (JStr "") (dict_get "description" schema_dict) in
  let schema_dict := dict_pop "description" schema_dict in
  JObj [("type", JStr "function");
        ("function",
         JObj [("name", JStr (name t));
               ("description", description);
               ("parameters", JObj schema_dict)])].

(** The stand-alone [to_openai_function_call_definition(name, model)]
    of lesson 9. *)
Definition to_openai_function_call_definition_9 (name : string)
    (model_json_schema : list (string * json)) : json :=
  let schema_dict := model_json_schema in
  let description :=
    default (JStr "No description provided") (dict_get "description" schema_dict) in
  let schema_dict := dict_pop "description" schema_dict in
  let schema_dict := dict_pop "title" schema_dict in
  JObj [("type", JStr "function");
        ("function",
         JObj [("name", JStr name);
               ("description", description);
               ("parameters", JObj schema_dict)])].

End Schema.

(** ** What the further properties speak about *)

Module Trace.
Import PyStr Json Regex Tools.
Local Open Scope list_scope.

(** The message lists sent to the LM client, in the order of a log. *)
Definition requests (l : list event) : list (list message) :=
  omap (fun e => match e with Generate messages => Some messages | Invoke _ _ => None end) l.

(** Every element of the list is a prefix of those after it. *)
Fixpoint increasing {A} (l : list (list A)) : Prop :=
  match l with
  | [] => True
  | x :: l' => Forall (fun y => x `prefix_of` y) l' /\ increasing l'
  end.

(** A conversation: [run] called once per user turn, the replies
    collected. *)
Fixpoint converse {W} (a : Memory.Agent W) (users : list message) : M W (list completion) :=
  match users with
  | [] => ret []
  | user_message :: users' =>
      do response <- Memory.run a user_message ;;
      do responses <- converse a users' ;;
      ret (response :: responses)
  end.

(** The turns of a conversation, and the requests it makes from a
    memory [mem]: the system message, what memory held, and the new
    user turn. *)
Fixpoint dialogue (users : list message) (responses : list completion) : list message :=
  match users, responses with
  | user_message :: users', response :: responses' =>
      user_message :: Assistant response :: dialogue users' responses'
  | _, _ => []
  end.

Fixpoint prompts (sys : message) (mem : list message) (users : list message)
    (responses : list completion) : list (list message) :=
  match users, responses with
  | user_message :: users', response :: responses' =>
      ([sys] ++ mem ++ [user_message])
        :: prompts sys (mem ++ [user_message; Assistant response]) users' responses'
  | _, _ => []
  end.

(** Values without [float], and values whose dictionaries hold each
    key once. *)
Fixpoint float_free (v : json) : bool :=
  match v with
  | JFloat _ => false
  | JArr items => forallb float_free items
  | JObj members => forallb (fun kv => float_free (snd kv)) members
  | _ => true
  end.

Fixpoint unique_keys (v : json) : bool :=
  match v with
  | JArr items => forallb unique_keys items
  | JObj members =>
      bool_decide (NoDup (map fst members))
      && forallb (fun kv => unique_keys (snd kv)) members
  | _ => true
  end.

(** Values the scanner reads with [depth] objects and arrays left to
    enter: the objects and arrays lie at most [depth] deep one inside
    the other, and no integer has more digits than [int] accepts. *)
Fixpoint readable (depth : nat) (v : json) {struct v} : bool :=
  match v with
  | JInt z => negb (exceeds_digits z)
  | JArr items =>
      match depth with
      | O => false
      | S depth' => forallb (fun x => readable depth' x) items
      end
  | JObj members =>
      match depth with
      | O => false
      | S depth' => forallb (fun kv => readable depth' (snd kv)) members
      end
  | _ => true
  end.

(** A text of decimal digits only. *)
Fixpoint all_digits (d : string) : bool :=
  match d with
  | "" => true
  | String c d' => is_digit c && all_digits d'
  end.

(** The text [dumps] writes for one member of a dictionary. *)
Definition member_text (kv : string * json) : string :=
  encode_basestring_ascii (fst kv) +:+ ": " +:+ dumps (snd kv).

(** The recursion budget the scanner needs to read [dumps v] back. *)
Fixpoint weight (v : json) : nat :=
  match v with
  | JArr items => 2 + list_sum (map weight items)
  | JObj members => 2 + list_sum (map (fun kv => weight (snd kv)) members)
  | _ => 1
  end.

(** A text that may follow a JSON value: it does not go on as a
    number would. *)
Definition ends_token (rest : string) : bool :=
  match rest with
  | "" => true
  | String c _ =>
      negb (is_digit c || Ascii.eqb c "." || Ascii.eqb c "e" || Ascii.eqb c "E")
  end.

(** Every text of the list extends the ones before it. *)
Fixpoint extending (l : list string) : Prop :=
  match l with
  | [] => True
  | x :: l' => Forall (fun y => exists z, y = x +:+ z) l' /\ extending l'
  end.

(** The exception [execute] raises for the tool name [nm]: the name
    is not registered, or the failure [e0] met behind a registered
    name is wrapped. *)
Definition executor_failure {W} (tools : gmap string (AgentTool W)) (nm : string) (e : exn)
  : Prop :=
  match tools !! nm with
  | None => e = Exn ValueError ("Tool '" +:+ nm +:+ "' not found.") None
  | Some _ =>
      exists e0,
        e = Exn ValueError ("Error executing tool '" +:+ nm +:+ "': " +:+ exn_str e0) (Some e0)
  end.

(** The exception of the agent for a failed tool call [c]: a
    [ValueError] raised from the executor's. *)
Definition tool_failure {W} (tools : gmap string (AgentTool W)) (c : tool_call) (e : exn)
  : Prop :=
  exists e1,
    e = Exn ValueError
          ("Execution error in tool '" +:+ function_name c +:+ "': " +:+ exn_str e1)
          (Some e1)
    /\ executor_failure tools (function_name c) e1.

(** [ev] is the call of the function wrapped by the tool registered
    under [nm], made for the JSON text [args]: the model of the tool
    accepted the text, and the function received the arguments the
    model validated. *)
Definition validated_call {W} (tools : gmap string (AgentTool W)) (nm args : string)
    (ev : event) : Prop :=
  exists tool d validated,
    tools !! nm = Some tool
    /\ validate_json_args tool args = true
    /\ loads args = Some (JObj d)
    /\ model_construct (args_model tool) (py_dict d) = inr validated
    /\ ev = Invoke (fn_name (func tool)) validated.

(** [ev] is the validated call made for the requested call [c]. *)
Definition invoked_for {W} (tools : gmap string (AgentTool W)) (c : tool_call) (ev : event)
  : Prop :=
  validated_call tools (function_name c) (function_arguments c) ev.

(** An event of a run: a request to the LM client, or a validated
    call of a registered tool. *)
Definition well_called {W} (tools : gmap string (AgentTool W)) (ev : event) : Prop :=
  is_generate ev = true \/ exists nm args, validated_call tools nm args ev.

End Trace.

(** ** Further stubs *)

Module Stubs.
Import PyStr Json Tools Scenario.

(** An agent whose backend requests the weather tool while no tool is
    registered. *)
Definition unequipped_agent : Loop.Agent nat :=
  {| Loop.llm_generate := requesting_llm;
     Loop.system_message := system_message;
     Loop.max_iterations := 3;
     Loop.executor := ∅ |}.

(** The single-step agent with the weather tool, and the same agent
    built without tools. *)
Definition single_agent : Single.Agent nat :=
  {| Single.llm_generate := weather_llm;
     Single.system_message := system_message;
     Single.executor := registry;
     Single.has_function_calls := true |}.

(** The prompt-driven agent of lesson 14 over the backend of the text
    protocol. *)
Definition prompted_prompt (chat_history user_input : string) : string :=
  chat_history +:+ nl +:+ "Question: " +:+ user_input.

Definition direct_llm (messages : list message) (n : nat) : completion * nat :=
  (plain_final, S n).

Definition prompted_agent : Prompted.Agent nat :=
  {| Prompted.llm_generate := direct_llm;
     Prompted.format_prompt := prompted_prompt;
     Prompted.max_iterations := 10;
     Prompted.executor := registry |}.

(** The schema dictionary pydantic builds for [GetWeatherSchema], as
    the notebook prints it. *)
Definition weather_schema : list (string * json) :=
  [("description", JStr "Get weather information based on location.");
   ("properties",
    JObj [("location",
           JObj [("description", JStr "Location to get weather for");
                 ("title", JStr "Location");
                 ("type", JStr "string")])]);
   ("required", JArr [JStr "location"]);
   ("title", JStr "GetWeatherSchema");
   ("type", JStr "object")].

End Stubs.

(** * Properties *)

Import PyStr Json Regex Tools Observe Scenario.
Local Open Scope list_scope.

(** ** The search finds what the pattern matches *)

Lemma string_app_cons x (a b : string) : String x a +:+ b = String x (a +:+ b).
Proof. reflexivity. Qed.

Lemma string_app_assoc (a b c : string) : (a +:+ b) +:+ c = a +:+ (b +:+ c).
Proof. induction a as [| x a IH]; [done |]. rewrite !string_app_cons. by f_equal. Qed.

Lemma string_app_length (a b : string) :
  String.length (a +:+ b) = String.length a + String.length b.
Proof.
  induction a as [| x a IH]; [done |]. rewrite string_app_cons. simpl. by f_equal.
Qed.

Lemma substring_prefix (m rest : string) :
  substring 0 (String.length m) (m +:+ rest) = m.
Proof.
  induction m as [| x m IH]; [by destruct rest |].
  rewrite string_app_cons. simpl. by f_equal.
Qed.

Lemma closes_char d c p :
  c <> "{"%char -> c <> "}"%char -> closes d p -> closes d (String c p).
Proof.
  intros Ho Hc. destruct d as [| d]; simpl.
  - intros (b & Hb & ->). exists (String c b). split; [by constructor | done].
  - intros (b & p' & Hb & Hp' & ->). exists (String c b), p'.
    split; [by constructor | done].
Qed.

Lemma closes_group d g p : balanced g -> closes d p -> closes d (g +:+ p).
Proof.
  intros Hg. destruct d as [| d]; simpl.
  - intros (b & Hb & ->). exists (g +:+ b).
    split; [by constructor | by rewrite string_app_assoc].
  - intros (b & p' & Hb & Hp' & ->). exists (g +:+ b), p'.
    split; [by constructor |]. split; [done | by rewrite string_app_assoc].
Qed.

Lemma span_end_sound s : forall d n,
  span_end d s = Some n ->
  exists p rest, s = p +:+ rest /\ String.length p = n /\ closes d p.
Proof.
  induction s as [| c s IH]; intros d n; [discriminate |]. cbn [span_end].
  destruct (Ascii.eqb c "{") eqn:Ho; [| destruct (Ascii.eqb c "}") eqn:Hc].
  - apply Ascii.eqb_eq in Ho. subst c.
    destruct (span_end (S d) s) as [n' |] eqn:Hs; [| discriminate].
    intros [= <-]. destruct (IH _ _ Hs) as (p & rest & -> & Hlen & b & p' & Hb & Hp' & ->).
    exists (String "{" (b +:+ String "}" p')), rest. split; [done |].
    split; [simpl; by rewrite Hlen |].
    change (String "{" (b +:+ String "}" p')) with (String "{" (b +:+ ("}" +:+ p'))).
    rewrite <- string_app_assoc.
    apply (closes_group d (String "{" (b +:+ "}")) p'); [by constructor | done].
  - apply Ascii.eqb_eq in Hc. subst c. destruct d as [| d].
    + intros [= <-]. exists "}", s. split; [done |]. split; [done |].
      exists "". split; [constructor | done].
    + destruct (span_end d s) as [n' |] eqn:Hs; [| discriminate].
      intros [= <-]. destruct (IH _ _ Hs) as (p & rest & -> & Hlen & Hp).
      exists (String "}" p), rest. split; [done |]. split; [simpl; by rewrite Hlen |].
      exists "", p. split; [constructor | by split].
  - apply Ascii.eqb_neq in Ho, Hc.
    destruct (span_end d s) as [n' |] eqn:Hs; [| discriminate].
    intros [= <-]. destruct (IH _ _ Hs) as (p & rest & -> & Hlen & Hp).
    exists (String c p), rest. split; [done |]. split; [simpl; by rewrite Hlen |].
    by apply closes_char.
Qed.

Lemma span_end_skips :
  (forall g, balanced g -> forall d tail,
     span_end d (g +:+ tail) = (fun n => String.length g + n) <$> span_end d tail)
  /\ (forall b, inside b -> forall d tail,
        span_end d (b +:+ tail) = (fun n => String.length b + n) <$> span_end d tail).
Proof.
  apply balanced_inside_mut.
  - intros body _ IH d tail. rewrite string_app_cons. cbn [span_end].
    rewrite Ascii.eqb_refl, string_app_assoc, IH.
    change ("}" +:+ tail) with (String "}" tail). cbn [span_end].
    change (Ascii.eqb "}" "{") with false. rewrite Ascii.eqb_refl.
    destruct (span_end d tail) as [n |]; simpl; [| done].
    f_equal. rewrite string_app_length. simpl. lia.
  - intros d tail. change ("" +:+ tail) with tail. by destruct (span_end d tail).
  - intros c rest Ho Hc _ IH d tail. rewrite string_app_cons. cbn [span_end].
    apply Ascii.eqb_neq in Ho, Hc. rewrite Ho, Hc, IH.
    by destruct (span_end d tail).
  - intros g rest _ IHg _ IHrest d tail.
    rewrite string_app_assoc, IHg, IHrest, string_app_length.
    destruct (span_end d tail) as [n |]; simpl; [| done]. f_equal. lia.
Qed.

Lemma match_here_sound s m :
  match_here s = Some m -> balanced m /\ exists rest, s = m +:+ rest.
Proof.
  unfold match_here. destruct s as [| c s']; [discriminate |].
  destruct (Ascii.eqb c "{") eqn:Ho; [| discriminate].
  apply Ascii.eqb_eq in Ho. subst c.
  destruct (span_end 0 s') as [n |] eqn:Hs; [| discriminate].
  intros [= <-]. destruct (span_end_sound _ _ _ Hs) as (p & rest & -> & <- & b & Hb & ->).
  change (S (String.length (b +:+ "}"))) with (String.length (String "{" (b +:+ "}"))).
  change (String "{" ((b +:+ "}") +:+ rest)) with (String "{" (b +:+ "}") +:+ rest).
  rewrite substring_prefix. split; [by constructor | by exists rest].
Qed.

Lemma match_here_complete m rest : balanced m -> match_here (m +:+ rest) = Some m.
Proof.
  intros Hm. destruct Hm as [body Hbody]. unfold match_here.
  rewrite string_app_cons, Ascii.eqb_refl, string_app_assoc.
  rewrite (proj2 span_end_skips body Hbody).
  change ("}" +:+ rest) with (String "}" rest). cbn [span_end].
  change (Ascii.eqb "}" "{") with false. rewrite Ascii.eqb_refl. simpl fmap.
  do 2 f_equal.
  replace (String.length body + 1) with (String.length (body +:+ "}"))
    by (rewrite string_app_length; simpl; lia).
  change (String "}" rest) with ("}" +:+ rest).
  rewrite <- string_app_assoc. apply substring_prefix.
Qed.

(** [search] answers the leftmost text of the input that the pattern
    matches, and [None] exactly when no part of the input matches. *)
Lemma search_leftmost s :
  match search s with
  | Some m =>
      exists pre post,
        s = pre +:+ m +:+ post /\ balanced m
        /\ forall pre' m' post',
             s = pre' +:+ m' +:+ post' -> balanced m' ->
             String.length pre <= String.length pre'
  | None => forall pre m post, s = pre +:+ m +:+ post -> ~ balanced m
  end.
Proof.
  induction s as [| c s IH].
  - simpl. intros pre m post Hs Hm. destruct Hm. by destruct pre.
  - cbn [search]. destruct (match_here (String c s)) as [m |] eqn:Hhere.
    + destruct (match_here_sound _ _ Hhere) as [Hm [rest Hrest]].
      exists "", rest. split; [done |]. split; [done |]. intros; simpl; lia.
    + assert (Hpre : forall pre' m' post',
                String c s = pre' +:+ m' +:+ post' -> balanced m' ->
                exists pre'', pre' = String c pre'' /\ s = pre'' +:+ m' +:+ post').
      { intros pre' m' post' Hs Hm'. destruct pre' as [| x pre''].
        - change ("" +:+ (m' +:+ post')) with (m' +:+ post') in Hs.
          rewrite Hs, match_here_complete in Hhere by done. discriminate.
        - injection Hs as -> ->. by exists pre''. }
      destruct (search s) as [m |].
      * destruct IH as (pre & post & -> & Hm & Hmin).
        exists (String c pre), post. split; [done |]. split; [done |].
        intros pre' m' post' Hs Hm'.
        destruct (Hpre _ _ _ Hs Hm') as (pre'' & -> & Hs'').
        specialize (Hmin _ _ _ Hs'' Hm'). simpl. lia.
      * intros pre' m' post' Hs Hm'.
        destruct (Hpre _ _ _ Hs Hm') as (pre'' & -> & Hs'').
        by apply (IH _ _ _ Hs'').
Qed.

Lemma search_found s span : search s = Some span -> balanced span.
Proof.
  intros H. pose proof (search_leftmost s) as Hs. rewrite H in Hs.
  by destruct Hs as (_ & _ & _ & Hb & _).
Qed.


Lemma search_nothing s :
  (forall pre m post, s = pre +:+ m +:+ post -> ~ balanced m) -> search s = None.
Proof.
  intros Hno. pose proof (search_leftmost s) as Hs.
  destruct (search s) as [m |]; [| done].
  destruct Hs as (pre & post & Heq & Hb & _). by destruct (Hno _ _ _ Heq).
Qed.

(** ** The JSON scanner always answers

    The budget [fuel_for] is never used up: [json_loads] returns the
    value or raises one of the exceptions of [json.loads], or the
    text leaves the code points of the development. *)

Lemma skip_ws_length s : String.length (skip_ws s) <= String.length s.
Proof. induction s as [| c s IH]; simpl; [lia |]. destruct (is_ws c); simpl; lia. Qed.

Lemma scanstring_length_bounded n s k r :
  String.length s < n -> scanstring s = Scanned k r -> String.length r < String.length s.
Proof.
  revert s k r. induction n as [| n IH]; intros s k r Hn; [lia |].
  destruct s as [| c s']; [discriminate |]. cbn [scanstring]. simpl in Hn.
  destruct (Ascii.eqb c dquote); [intros [= <- <-]; simpl; lia |].
  destruct (nat_of_ascii c <? 32)%nat; [discriminate |].
  destruct (Ascii.eqb c backslash).
  - destruct s' as [| e s'']; [discriminate |].
    destruct (Ascii.eqb e "u").
    + destruct s'' as [| h1 [| h2 [| h3 [| h4 s3]]]]; try discriminate.
      destruct (hex4 h1 h2 h3 h4) as [x |]; [| discriminate].
      destruct (x <? 256)%nat; [| discriminate].
      destruct (scanstring s3) as [r0 rest | | | | |] eqn:Hs3; try discriminate.
      intros [= <- <-]. apply IH in Hs3; simpl in *; lia.
    + destruct (unescape e); [| discriminate].
      destruct (scanstring s'') as [r0 rest | | | | |] eqn:Hs; try discriminate.
      intros [= <- <-]. apply IH in Hs; simpl in *; lia.
  - destruct (scanstring s') as [r0 rest | | | | |] eqn:Hs; try discriminate.
    intros [= <- <-]. apply IH in Hs; simpl in *; lia.
Qed.

Lemma scanstring_length s k r :
  scanstring s = Scanned k r -> String.length r < String.length s.
Proof. apply (scanstring_length_bounded (S (String.length s))). lia. Qed.

Lemma scanstring_fuel s : scanstring s <> OutOfFuel.
Proof.
  remember (S (String.length s)) as n eqn:Hn.
  assert (Hlt : String.length s < n) by lia. clear Hn.
  revert s Hlt. induction n as [| n IH]; intros s Hlt; [lia |].
  destruct s as [| c s']; [discriminate |]. cbn [scanstring]. simpl in Hlt.
  destruct (Ascii.eqb c dquote); [discriminate |].
  destruct (nat_of_ascii c <? 32)%nat; [discriminate |].
  destruct (Ascii.eqb c backslash).
  - destruct s' as [| e s'']; [discriminate |].
    destruct (Ascii.eqb e "u").
    + destruct s'' as [| h1 [| h2 [| h3 [| h4 s3]]]]; try discriminate.
      destruct (hex4 h1 h2 h3 h4) as [x |]; [| discriminate].
      destruct (x <? 256)%nat; [| discriminate].
      specialize (IH s3). destruct (scanstring s3); try discriminate.
      apply IH. simpl in *; lia.
    + destruct (unescape e); [| discriminate].
      specialize (IH s''). destruct (scanstring s''); try discriminate.
      apply IH. simpl in *; lia.
  - specialize (IH s'). destruct (scanstring s'); try discriminate. apply IH. lia.
Qed.

Lemma startswith_drop p s :
  startswith p s = true ->
  String.length (drop (String.length p) s) + String.length p = String.length s.
Proof.
  revert s. induction p as [| a p IH]; intros s H; simpl in *; [lia |].
  destruct s as [| b s]; [discriminate |]. apply andb_true_iff in H as [_ H].
  apply IH in H. simpl. lia.
Qed.

Lemma span_digits_length s d r :
  span_digits s = (d, r) -> String.length d + String.length r = String.length s.
Proof.
  revert d r. induction s as [| c s IH]; intros d r; simpl.
  - intros [= <- <-]. reflexivity.
  - destruct (is_digit c).
    + destruct (span_digits s) as [d0 r0]. intros [= <- <-].
      specialize (IH _ _ eq_refl). simpl. lia.
    + intros [= <- <-]. simpl. lia.
Qed.

Lemma scan_int_part_length s i r :
  scan_int_part s = Some (i, r) -> String.length r < String.length s.
Proof.
  destruct s as [| c s']; [discriminate |]. unfold scan_int_part.
  destruct (Ascii.eqb c "0"); [intros [= <- <-]; simpl; lia |].
  destruct (is_digit c) eqn:Hd; [| discriminate].
  intros H. cbn [span_digits] in H. rewrite Hd in H.
  destruct (span_digits s') as [d0 r0] eqn:Hs. injection H as <- <-.
  apply span_digits_length in Hs. simpl. lia.
Qed.

Lemma scan_frac_length s f r :
  scan_frac s = (f, r) -> String.length r <= String.length s.
Proof.
  destruct s as [| c s']; [intros [= <- <-]; simpl; lia |]. unfold scan_frac.
  destruct (Ascii.eqb c "."); [| intros [= <- <-]; lia].
  destruct (span_digits s') as [d0 r0] eqn:Hs. apply span_digits_length in Hs.
  destruct d0; intros [= <- <-]; simpl in *; lia.
Qed.

Lemma scan_exp_length s e r :
  scan_exp s = (e, r) -> String.length r <= String.length s.
Proof.
  destruct s as [| c s']; [intros [= <- <-]; simpl; lia |]. unfold scan_exp.
  destruct (Ascii.eqb c "e" || Ascii.eqb c "E"); [| intros [= <- <-]; lia].
  assert (Hsign : forall sign s1,
            match s' with
            | String g s'' =>
                if Ascii.eqb g "-" || Ascii.eqb g "+" then (String g "", s'') else ("", s')
            | "" => ("", "")
            end = (sign, s1) -> String.length s1 <= String.length s').
  { intros sign s1. destruct s' as [| g s'']; [intros [= <- <-]; simpl; lia |].
    destruct (Ascii.eqb g "-" || Ascii.eqb g "+"); intros [= <- <-]; simpl; lia. }
  destruct (match s' with "" => _ | String _ _ => _ end) as [sign s1].
  specialize (Hsign _ _ eq_refl).
  destruct (span_digits s1) as [d0 r0] eqn:Hs. apply span_digits_length in Hs.
  destruct d0; intros [= <- <-]; simpl in *; lia.
Qed.

Lemma match_number_length s v r :
  match_number s = Some (v, r) -> String.length r < String.length s.
Proof.
  unfold match_number.
  assert (Hneg : forall neg s0,
            match s with
            | String c s' => if Ascii.eqb c "-" then (true, s') else (false, s)
            | "" => (false, "")
            end = (neg, s0) -> String.length s0 <= String.length s).
  { intros neg s0. destruct s as [| c s']; [intros [= <- <-]; simpl; lia |].
    destruct (Ascii.eqb c "-"); intros [= <- <-]; simpl; lia. }
  destruct (match s with "" => _ | String _ _ => _ end) as [neg s0].
  specialize (Hneg _ _ eq_refl).
  destruct (scan_int_part s0) as [[i s1] |] eqn:Hi; [| discriminate].
  apply scan_int_part_length in Hi.
  destruct (scan_frac s1) as [f s2] eqn:Hf. apply scan_frac_length in Hf.
  destruct (scan_exp s2) as [e s3] eqn:He. apply scan_exp_length in He.
  destruct f, e; intros [= <- <-]; lia.
Qed.

Lemma consumes_error s : consumes DecodeError s.
Proof. split; [discriminate | intros ? ? [=]]. Qed.

(** A scan that ended without value and with budget left. *)
Ltac scanned_none := solve [split; [discriminate | intros ? ? ?; discriminate]].

Lemma consumes_scanned v r s : String.length r < String.length s -> consumes (Scanned v r) s.
Proof. intros H. split; [discriminate | intros ? ? [= <- <-]; exact H]. Qed.

Lemma consumes_weaken res s1 s :
  consumes res s1 -> String.length s1 <= String.length s -> consumes res s.
Proof. intros [H1 H2] Hle. split; [exact H1 |]. intros v r Hr. apply H2 in Hr. lia. Qed.

Lemma consumes_literal p v s :
  p <> "" -> startswith p s = true -> consumes (Scanned v (drop (String.length p) s)) s.
Proof.
  intros Hp Hs. apply consumes_scanned. apply startswith_drop in Hs.
  destruct p; [done | simpl in *; lia].
Qed.

Lemma scan_fuel_enough f :
  (forall depth s, 2 * String.length s < f -> consumes (scan_once f depth s) s)
  /\ (forall depth acc s,
        2 * String.length s < f -> consumes (parse_members f depth acc s) s)
  /\ (forall depth acc s,
        2 * String.length s + 1 < f -> consumes (parse_items f depth acc s) s).
Proof.
  induction f as [| f (IHs & IHm & IHi)]; [repeat split; intros; lia |].
  split; [| split].
  - intros depth s Hf. destruct s as [| c s']; [apply consumes_error |].
    cbn [scan_once]. simpl String.length in Hf.
    destruct (Ascii.eqb c dquote).
    { destruct (scanstring s') as [k r | | | | |] eqn:Hk; try scanned_none.
      - apply scanstring_length in Hk. apply consumes_scanned. simpl; lia.
      - by apply scanstring_fuel in Hk. }
    destruct (Ascii.eqb c "{").
    { destruct depth as [| depth]; [scanned_none |].
      pose proof (skip_ws_length s') as Hws.
      destruct (skip_ws s') as [| c1 s1]; [apply consumes_error |]. simpl in Hws.
      destruct (Ascii.eqb c1 "}"); [apply consumes_scanned; simpl; lia |].
      destruct (Ascii.eqb c1 dquote); [| apply consumes_error].
      apply (consumes_weaken _ s1); [apply IHm; lia | simpl; lia]. }
    destruct (Ascii.eqb c "[").
    { destruct depth as [| depth]; [scanned_none |].
      pose proof (skip_ws_length s') as Hws.
      destruct (skip_ws s') as [| c1 s1]; [apply consumes_error |]. simpl in Hws.
      destruct (Ascii.eqb c1 "]"); [apply consumes_scanned; simpl; lia |].
      apply (consumes_weaken _ (String c1 s1)); [apply IHi; simpl; lia | simpl; lia]. }
    destruct (startswith "null" (String c s')) eqn:Hnull;
      [by apply (consumes_literal "null") |].
    destruct (startswith "true" (String c s')) eqn:Htrue;
      [by apply (consumes_literal "true") |].
    destruct (startswith "false" (String c s')) eqn:Hfalse;
      [by apply (consumes_literal "false") |].
    destruct (match_number (String c s')) as [[v rest] |] eqn:Hnum.
    { apply match_number_length in Hnum.
      destruct v; try (by apply consumes_scanned).
      destruct (exceeds_digits z); [scanned_none | by apply consumes_scanned]. }
    destruct (startswith "NaN" (String c s')) eqn:Hnan;
      [by apply (consumes_literal "NaN") |].
    destruct (startswith "Infinity" (String c s')) eqn:Hinf;
      [by apply (consumes_literal "Infinity") |].
    destruct (startswith "-Infinity" (String c s')) eqn:Hninf;
      [by apply (consumes_literal "-Infinity") |].
    apply consumes_error.
  - intros depth acc s Hf. cbn [parse_members].
    destruct (scanstring s) as [key s1 | | | | |] eqn:Hkey; try scanned_none;
      [| by apply scanstring_fuel in Hkey].
    apply scanstring_length in Hkey.
    pose proof (skip_ws_length s1) as Hws1.
    destruct (skip_ws s1) as [| c s2]; [apply consumes_error |]. simpl in Hws1.
    destruct (Ascii.eqb c ":"); [| apply consumes_error].
    pose proof (skip_ws_length s2) as Hws2.
    destruct (IHs depth (skip_ws s2)) as [Hfuel Hlen]; [lia |].
    destruct (scan_once f depth (skip_ws s2)) as [v s3 | | | | |]; try scanned_none;
      [| done].
    specialize (Hlen v s3 eq_refl).
    pose proof (skip_ws_length s3) as Hws3.
    destruct (skip_ws s3) as [| c4 s4]; [apply consumes_error |]. simpl in Hws3.
    destruct (Ascii.eqb c4 "}"); [apply consumes_scanned; lia |].
    destruct (Ascii.eqb c4 ","); [| apply consumes_error].
    pose proof (skip_ws_length s4) as Hws4.
    destruct (skip_ws s4) as [| c5 s5]; [apply consumes_error |]. simpl in Hws4.
    destruct (Ascii.eqb c5 dquote); [| apply consumes_error].
    apply (consumes_weaken _ s5); [apply IHm; lia | lia].
  - intros depth acc s Hf. cbn [parse_items].
    destruct (IHs depth s) as [Hfuel Hlen]; [lia |].
    destruct (scan_once f depth s) as [v s1 | | | | |]; try scanned_none; [| done].
    specialize (Hlen v s1 eq_refl).
    pose proof (skip_ws_length s1) as Hws1.
    destruct (skip_ws s1) as [| c s2]; [apply consumes_error |]. simpl in Hws1.
    destruct (Ascii.eqb c "]"); [apply consumes_scanned; lia |].
    destruct (Ascii.eqb c ","); [| apply consumes_error].
    pose proof (skip_ws_length s2) as Hws2.
    apply (consumes_weaken _ (skip_ws s2)); [apply IHi; lia | lia].
Qed.

Lemma decode_fuel s : decode s <> OutOfFuel.
Proof.
  unfold decode.
  destruct (proj1 (scan_fuel_enough (fuel_for s)) max_nesting (skip_ws s)) as [Hfuel _].
  { pose proof (skip_ws_length s). unfold fuel_for. lia. }
  destruct (scan_once (fuel_for s) max_nesting (skip_ws s)) as [v rest | | | | |];
    try discriminate; [| done].
  destruct (skip_ws rest); discriminate.
Qed.

(** [json_loads] returns exactly the values of [loads], and raises
    [JSONDecodeError] exactly on a decoding error. *)
Lemma json_loads_Return s v : json_loads s = Return v <-> loads s = Some v.
Proof.
  unfold json_loads, loads.
  destruct (decode s); split; intros H; try discriminate; by injection H as <-.
Qed.

Lemma json_loads_decode_error s e :
  json_loads s = Raise e ->
  (exn_cls e = JSONDecodeError <-> decode s = DecodeError).
Proof.
  unfold json_loads.
  destruct (decode s); intros [= <-]; split; intros H; try discriminate; reflexivity.
Qed.

(** ** The registry *)

Section Registry.
Context {W : Type}.
Implicit Types (tool : AgentTool W) (tools : gmap string (AgentTool W)).

Lemma register_tool_taken tool tools :
  is_Some (tools !! name tool) ->
  register_tool tool tools
  = (Raise (Exn ValueError ("Tool '" +:+ name tool +:+ "' is already registered.") None),
     tools).
Proof. intros [old Hold]. unfold register_tool. by rewrite Hold. Qed.

Lemma register_tool_fresh tool tools :
  tools !! name tool = None ->
  register_tool tool tools = (Return tt, <[name tool := tool]> tools).
Proof. intros Hnone. unfold register_tool. by rewrite Hnone. Qed.

(** C7.  Registering a descriptor whose name is present raises the
    duplicate-tool [ValueError] and leaves the mapping as it was;
    under a fresh name the descriptor is inserted, the other entries
    are kept, and a second registration under that name then fails
    without changing the mapping. *)
Theorem register_tool_duplicate_or_insert tool tools :
  (is_Some (tools !! name tool) ->
     exists e, register_tool tool tools = (Raise e, tools)
               /\ exn_cls e = ValueError)
  /\ (tools !! name tool = None ->
        exists tools',
          register_tool tool tools = (Return tt, tools')
          /\ tools' !! name tool = Some tool
          /\ (forall k, k <> name tool -> tools' !! k = tools !! k)
          /\ forall tool2, name tool2 = name tool ->
               exists e, register_tool tool2 tools' = (Raise e, tools')
                         /\ exn_cls e = ValueError).
Proof.
  split.
  - intros Htaken. eexists. split; [by apply register_tool_taken | reflexivity].
  - intros Hfresh. exists (<[name tool := tool]> tools).
    split; [by apply register_tool_fresh |].
    split; [apply lookup_insert_eq |].
    split; [intros k Hk; by apply lookup_insert_ne |].
    intros tool2 Hname. eexists.
    split; [ apply register_tool_taken; rewrite Hname, lookup_insert_eq; by eexists
           | reflexivity ].
Qed.

End Registry.

Lemma register_tool_duplicate_or_insert_witness :
  (exists e, register_tool weather_tool registry = (Raise e, registry)
             /\ exn_cls e = ValueError)
  /\ exists tools',
       register_tool weather_tool ∅ = (Return tt, tools')
       /\ tools' !! "get_weather" = Some weather_tool.
Proof.
  split.
  - apply (proj1 (register_tool_duplicate_or_insert weather_tool registry)).
    exists weather_tool. reflexivity.
  - destruct (proj2 (register_tool_duplicate_or_insert weather_tool ∅))
      as (tools' & Hreg & Hget & _); [reflexivity |].
    exists tools'. split; [exact Hreg | exact Hget].
Defined.

(** ** Tool descriptors *)

Section Descriptors.
Context {W : Type}.
Implicit Types (f : PyFunc W) (t : AgentTool W).

Lemma has_doc_false f : fn_doc f = None \/ fn_doc f = Some "" -> has_doc f = false.
Proof. unfold has_doc. by intros [-> | ->]. Qed.

Lemma has_doc_true f d : fn_doc f = Some d -> d <> "" -> has_doc f = true.
Proof. unfold has_doc. intros -> Hd. by destruct d. Qed.

(** C9, as the code has it.  The decorator [Tool] refuses a callable
    without documentation text ([__doc__] absent or empty) with a
    [ValueError] and builds no descriptor; with a documentation text
    it yields the descriptor that wraps the callable, named after it
    and described by that text.  The constructor of [AgentTool] itself
    asks for no documentation: from an undocumented callable it builds
    the descriptor all the same, described by the text of the argument
    model, or by the empty text when the model has none. *)
Theorem Tool_requires_docstring (m : BaseModel) f :
  (fn_doc f = None \/ fn_doc f = Some "" ->
     Tool m f
     = Raise (Exn ValueError
                ("Function '" +:+ fn_name f +:+ "' must have a docstring.") None))
  /\ (forall d, fn_doc f = Some d -> d <> "" ->
        exists t, Tool m f = Return t
                  /\ func t = f /\ args_model t = m
                  /\ name t = fn_name f /\ description t = d)
  /\ (fn_doc f = None \/ fn_doc f = Some "" ->
        let t := AgentTool_init f m in
        func t = f /\ args_model t = m /\ name t = fn_name f
        /\ description t = match model_doc m with Some text => text | None => "" end).
Proof.
  unfold Tool, check_docstring, AgentTool_init. split; [| split].
  - intros Hno. by rewrite (has_doc_false f Hno).
  - intros d Hdoc Hd. rewrite (has_doc_true f d Hdoc Hd). simpl.
    eexists. split; [reflexivity |]. simpl. by rewrite Hdoc.
  - intros Hno. simpl. rewrite (has_doc_false f Hno). by destruct (model_doc m).
Qed.

(** *** Positional arguments of [run] *)

Lemma py_dict_from_notin (pairs : list (string * json)) (acc : gmap string json) k :
  k ∉ pairs.*1 ->
  foldl (fun m kv => <[kv.1 := kv.2]> m) acc pairs !! k = acc !! k.
Proof.
  revert acc. induction pairs as [| [k' v'] pairs IH]; intros acc Hk; [done |].
  simpl in *. apply not_elem_of_cons in Hk as [Hne Hk].
  rewrite IH by done. by apply lookup_insert_ne.
Qed.

Lemma py_dict_from_in (pairs : list (string * json)) (acc : gmap string json) k v :
  NoDup pairs.*1 -> (k, v) ∈ pairs ->
  foldl (fun m kv => <[kv.1 := kv.2]> m) acc pairs !! k = Some v.
Proof.
  revert acc. induction pairs as [| [k' v'] pairs IH]; intros acc Hnd Hin.
  - by apply elem_of_nil in Hin.
  - simpl in *. apply NoDup_cons in Hnd as [Hk' Hnd].
    apply elem_of_cons in Hin as [Heq | Hin].
    + inversion Heq; subst k' v'.
      rewrite py_dict_from_notin by done. apply lookup_insert_eq.
    + by apply IH.
Qed.

Lemma zip_fst_elem {A B} (l : list A) (k : list B) x :
  x ∈ (zip l k).*1 -> x ∈ l.
Proof.
  revert k. induction l as [| a l IH]; intros [| b k] Hx; simpl in *;
    try by apply elem_of_nil in Hx.
  apply elem_of_cons in Hx as [-> | Hx]; [left | right; eauto].
Qed.

Lemma zip_fst_NoDup {A B} (l : list A) (k : list B) :
  NoDup l -> NoDup (zip l k).*1.
Proof.
  revert k. induction l as [| a l IH]; intros [| b k] Hnd; simpl;
    try apply NoDup_nil_2.
  apply NoDup_cons in Hnd as [Ha Hnd]. apply NoDup_cons. split; [| by apply IH].
  intros Hin. apply Ha. by eapply zip_fst_elem.
Qed.

Lemma zip_lookup {A B} (l : list A) (k : list B) i a b :
  l !! i = Some a -> k !! i = Some b -> (a, b) ∈ zip l k.
Proof.
  revert k i. induction l as [| x l IH]; intros [| y k] [| i] Ha Hb;
    simplify_eq/=; [left | right; eauto].
Qed.

Lemma zip_fst_bound {A B} (l : list A) (k : list B) x :
  x ∈ (zip l k).*1 -> exists j y, l !! j = Some x /\ k !! j = Some y.
Proof.
  revert k. induction l as [| a l IH]; intros [| b k] Hx; simpl in *;
    try by apply elem_of_nil in Hx.
  apply elem_of_cons in Hx as [-> | Hx]; [by exists 0, b |].
  destruct (IH _ Hx) as (j & y & Hj & Hy). by exists (S j), y.
Qed.

(** The mapping [run] validates when positional values are given:
    the keyword mapping with the positional bindings written over
    it. *)
Lemma merged_lookup (params : list string) (args : list json) (kwargs : gmap string json) :
  NoDup params ->
  let merged := update kwargs (py_dict (zip params args)) in
  (forall j q x, params !! j = Some q -> args !! j = Some x -> merged !! q = Some x)
  /\ (forall k, (forall j, params !! j = Some k -> args !! j = None) ->
        merged !! k = kwargs !! k).
Proof.
  intros Hnd merged. unfold merged, update, py_dict. split.
  - intros j q x Hq Hx. apply lookup_union_Some_l. apply py_dict_from_in.
    + by apply zip_fst_NoDup.
    + by eapply zip_lookup.
  - intros k Hfree. apply lookup_union_r. rewrite py_dict_from_notin; [done |].
    intros Hin. destruct (zip_fst_bound _ _ _ Hin) as (j & y & Hj & Hy).
    by rewrite (Hfree j Hj) in Hy.
Qed.

(** What [run] does with the mapping it validates. *)
Lemma run_outcome t args kwargs st :
  kwargs !! "self" = None ->
  let merged :=
    match args with
    | [] => kwargs
    | _ => update kwargs (py_dict (zip (fn_params (func t)) args))
    end in
  match model_construct (args_model t) merged with
  | inl msg =>
      run t args kwargs st
      = (Raise (Exn ValueError
                  ("Argument validation failed for tool '" +:+ name t +:+ "': " +:+ msg)
                  None),
         st)
  | inr validated =>
      let called := fn_call (func t) validated (world st) in
      run t args kwargs st
      = (match called.1 with
         | Return text => Return text
         | Raise e0 =>
             Raise (Exn ValueError
                      ((match exn_cls e0 with
                        | ValidationError => "Argument validation failed for tool '"
                        | _ => "An error occurred during the execution of tool '"
                        end) +:+ name t +:+ "': " +:+ exn_str e0) None)
         end,
         {| memory := memory st; tool_history := tool_history st;
            world := called.2;
            log := log st ++ [Invoke (fn_name (func t)) validated] |})
  end.
Proof.
  intros Hself merged. unfold run. rewrite Hself. fold merged.
  destruct (model_construct (args_model t) merged) as [msg | validated]; [done |].
  unfold try_except, call.
  destruct (fn_call (func t) validated (world st)) as [[text | e0] w']; [done |].
  simpl. by destruct (exn_cls e0).
Qed.

(** C10, as the code has it.  [run] is called with a positional
    value and a keyword value for the same parameter.  When the
    keyword mapping holds the name [self], the call itself is refused
    with the [TypeError] for multiple values of [self] and nothing is
    validated or called.  Otherwise the positional values are written
    over the keyword mapping: the mapping that is validated binds the
    parameter, and every parameter given by position, to the
    positional value, and keeps the keyword values of the names not
    given by position; validation and the wrapped function see this
    mapping, and [run] returns the result of the function or raises
    one of its two [ValueError]s, of validation or of execution. *)
Theorem run_positional_overrides_keyword t args kwargs i p v w st :
  NoDup (fn_params (func t)) ->
  fn_params (func t) !! i = Some p ->
  args !! i = Some v ->
  kwargs !! p = Some w ->
  let merged := update kwargs (py_dict (zip (fn_params (func t)) args)) in
  match kwargs !! "self" with
  | Some _ =>
      run t args kwargs st
      = (Raise (Exn TypeError "AgentTool.run() got multiple values for argument 'self'" None),
         st)
  | None =>
      merged !! p = Some v
      /\ (forall j q x,
            fn_params (func t) !! j = Some q -> args !! j = Some x -> merged !! q = Some x)
      /\ (forall k,
            (forall j, fn_params (func t) !! j = Some k -> args !! j = None) ->
            merged !! k = kwargs !! k)
      /\ match model_construct (args_model t) merged with
         | inl msg =>
             run t args kwargs st
             = (Raise (Exn ValueError
                         ("Argument validation failed for tool '"
                            +:+ name t +:+ "': " +:+ msg) None),
                st)
         | inr validated =>
             let called := fn_call (func t) validated (world st) in
             run t args kwargs st
             = (match called.1 with
                | Return text => Return text
                | Raise e0 =>
                    Raise (Exn ValueError
                             ((match exn_cls e0 with
                               | ValidationError => "Argument validation failed for tool '"
                               | _ => "An error occurred during the execution of tool '"
                               end) +:+ name t +:+ "': " +:+ exn_str e0) None)
                end,
                {| memory := memory st; tool_history := tool_history st;
                   world := called.2;
                   log := log st ++ [Invoke (fn_name (func t)) validated] |})
         end
  end.
Proof.
  intros Hnd Hp Hv Hw merged.
  destruct (kwargs !! "self") as [x |] eqn:Hself.
  { unfold run. by rewrite Hself. }
  destruct (merged_lookup (fn_params (func t)) args kwargs Hnd) as [Hbound Hfree].
  split; [by eapply Hbound |]. split; [exact Hbound |]. split; [exact Hfree |].
  pose proof (run_outcome t args kwargs st Hself) as Hrun.
  destruct args as [| x args]; [by rewrite lookup_nil in Hv |]. exact Hrun.
Qed.

End Descriptors.

Lemma Tool_requires_docstring_witness :
  (exists e, Tool GetWeatherSchema undocumented_func = Raise e)
  /\ (exists t, Tool GetWeatherSchema (get_weather_func randint70) = Return t
                /\ description t = "Gets weather information.")
  /\ description (AgentTool_init undocumented_func JumpSchema) = "Jump a specific distance".
Proof.
  split; [| split].
  - eexists.
    apply (proj1 (Tool_requires_docstring GetWeatherSchema undocumented_func)).
    left. reflexivity.
  - destruct (proj1 (proj2 (Tool_requires_docstring GetWeatherSchema
                              (get_weather_func randint70)))
                "Gets weather information." eq_refl)
      as (t & Ht & _ & _ & _ & Hd); [discriminate |].
    exists t. split; [exact Ht | exact Hd].
  - apply (proj2 (proj2 (Tool_requires_docstring JumpSchema undocumented_func))).
    left. reflexivity.
Defined.

(** C9, the claim as stated, fails: [jump] without documentation
    text is given to the constructor of [AgentTool] with the argument
    model of the lessons.  No error is raised; the descriptor is
    described by the text of the model, is registered, and executes
    the function. *)
Lemma undocumented_callable_gets_descriptor :
  let t := AgentTool_init undocumented_func JumpSchema in
  fn_doc undocumented_func = None
  /\ func t = undocumented_func
  /\ description t = "Jump a specific distance"
  /\ register_tool t ∅ = (Return tt, {[ "jump" := t ]})
  /\ execute {[ "jump" := t ]} "jump" (q "{'distance': '2 m'}") (Loop.initial_state 0)
     = (Return "I jumped",
        {| memory := []; tool_history := []; world := 0;
           log := [Invoke "jump" {[ "distance" := JStr "2 m" ]}] |}).
Proof. repeat split; vm_compute; reflexivity. Qed.

Lemma run_positional_overrides_keyword_witness :
  let kwargs := py_dict [("location", JStr "London"); ("unit", JStr "F")] in
  let merged := update kwargs (py_dict (zip ["location"] [JStr "Paris"])) in
  merged !! "location" = Some (JStr "Paris")
  /\ merged !! "unit" = Some (JStr "F")
  /\ run weather_tool [JStr "Paris"] kwargs (Loop.initial_state 0)
     = (Return "Paris: 70F.",
        {| memory := []; tool_history := []; world := 0;
           log := [Invoke "get_weather" {[ "location" := JStr "Paris" ]}] |}).
Proof.
  intros kwargs merged.
  assert (Hnd : NoDup (fn_params (func weather_tool))).
  { apply (bool_decide_unpack (NoDup ["location"])). vm_compute. exact I. }
  pose proof (run_positional_overrides_keyword weather_tool [JStr "Paris"]
                kwargs 0 "location" (JStr "Paris") (JStr "London") (Loop.initial_state 0)
                Hnd eq_refl eq_refl eq_refl) as H.
  change (kwargs !! "self") with (@None json) in H. cbv zeta in H.
  destruct H as (Hlookup & _ & Hkept & Hrun).
  split; [exact Hlookup |]. split.
  - transitivity (kwargs !! "unit"); [| reflexivity]. apply (Hkept "unit").
    intros [| j] Hj; [discriminate | reflexivity].
  - exact Hrun.
Defined.

(** C10, the claim as stated, fails for a parameter named [self]:
    the positional and the keyword value for it do raise the error
    for a doubled argument, and the function is not called. *)
Lemma keyword_self_is_refused :
  let kwargs : gmap string json := {[ "self" := JStr "keyword" ]} in
  fn_params (func self_tool) !! 0 = Some "self"
  /\ kwargs !! "self" = Some (JStr "keyword")
  /\ run self_tool [JStr "positional"] kwargs (Loop.initial_state 0)
     = (Raise (Exn TypeError "AgentTool.run() got multiple values for argument 'self'" None),
        Loop.initial_state 0).
Proof. repeat split. Qed.

(** ** Execution through the registry *)

Section Execution.
Context {W : Type} (randint : Z -> Z -> W -> Z * W).

(** C8.  With [get_weather] registered, executing it on the arguments
    [{"location": "Paris"}] returns a text that contains [Paris] after
    one call of the wrapped function with that location; on
    [{"loc": "Paris"}] it raises the execution [ValueError] whose
    cause is the validation [ValueError], and the state, log of calls
    included, is unchanged: the wrapped function was not called. *)
Theorem execute_get_weather (tools : gmap string (AgentTool W)) (st : state W) :
  tools !! "get_weather"
  = Some (AgentTool_init (get_weather_func randint) GetWeatherSchema) ->
  (exists r st',
     execute tools "get_weather" (q "{'location': 'Paris'}") st = (Return r, st')
     /\ contains "Paris" r = true
     /\ log st' = log st ++ [Invoke "get_weather" {[ "location" := JStr "Paris" ]}])
  /\ execute tools "get_weather" (q "{'loc': 'Paris'}") st
     = (Raise (Exn ValueError
                 "Error executing tool 'get_weather': Error validating tool 'get_weather' arguments."
                 (Some (Exn ValueError
                          "Error validating tool 'get_weather' arguments." None))),
        st).
Proof.
  intros Hreg. unfold execute. rewrite Hreg.
  destruct st as [mem history w events]. split.
  - destruct (randint 60 80 w) as [temperature w'] eqn:Hdraw.
    exists ("Paris: " +:+ pretty temperature +:+ "F."),
           {| memory := mem; tool_history := history; world := w';
              log := events ++ [Invoke "get_weather" {[ "location" := JStr "Paris" ]}] |}.
    split; [| split; reflexivity].
    vm_compute. rewrite Hdraw. reflexivity.
  - vm_compute. reflexivity.
Qed.

(** A name that is not registered raises the not-found [ValueError]
    and leaves the state as it was. *)
Lemma execute_unknown_tool (tools : gmap string (AgentTool W)) nm args (st : state W) :
  tools !! nm = None ->
  execute tools nm args st
  = (Raise (Exn ValueError ("Tool '" +:+ nm +:+ "' not found.") None), st).
Proof. intros Hnone. unfold execute. by rewrite Hnone. Qed.

End Execution.

Lemma execute_get_weather_witness :
  (exists r st',
     execute registry "get_weather" (q "{'location': 'Paris'}") (Loop.initial_state 0)
     = (Return r, st')
     /\ contains "Paris" r = true
     /\ log st' = [Invoke "get_weather" {[ "location" := JStr "Paris" ]}])
  /\ exists e,
       execute registry "get_weather" (q "{'loc': 'Paris'}") (Loop.initial_state 0)
       = (Raise e, Loop.initial_state 0)
       /\ exn_cause e
          = Some (Exn ValueError "Error validating tool 'get_weather' arguments." None).
Proof.
  destruct (execute_get_weather randint70 registry (Loop.initial_state 0) eq_refl)
    as [Hok Hbad].
  split; [exact Hok |].
  eexists. split; [exact Hbad | reflexivity].
Defined.

(** ** The text-prompt protocol *)

Lemma dict_get_set {V} (k : string) (v : V) d : dict_get k (dict_set k v d) = Some v.
Proof.
  induction d as [| [k' v'] d IH]; simpl.
  - by rewrite String.eqb_refl.
  - destruct (String.eqb k k') eqn:Hk; simpl; rewrite ?String.eqb_refl, ?Hk; done.
Qed.

Lemma dict_get_set_ne {V} (k k' : string) (v : V) d :
  k <> k' -> dict_get k' (dict_set k v d) = dict_get k' d.
Proof.
  intros Hne. induction d as [| [k0 v0] d IH]; simpl.
  - destruct (String.eqb k' k) eqn:Hk; [| done].
    apply String.eqb_eq in Hk. congruence.
  - destruct (String.eqb k k0) eqn:Hk; simpl.
    + apply String.eqb_eq in Hk. subst k0.
      destruct (String.eqb k' k) eqn:Hk'; [| done].
      apply String.eqb_eq in Hk'. congruence.
    + by rewrite IH.
Qed.

Lemma startswith_lower p s :
  startswith p s = true -> startswith (lower p) (lower s) = true.
Proof.
  revert s. induction p as [| a p IH]; intros [| b s] H; simpl in *; try done.
  apply andb_true_iff in H as [Hab H]. apply Ascii.eqb_eq in Hab. subst b.
  rewrite Ascii.eqb_refl. by apply IH.
Qed.

Lemma contains_lower p s : contains p s = true -> contains (lower p) (lower s) = true.
Proof.
  induction s as [| c s IH]; simpl.
  - rewrite orb_false_r. intros H. apply startswith_lower in H. simpl in H.
    by rewrite H.
  - intros H. apply orb_true_iff in H as [H | H].
    + apply startswith_lower in H. simpl in H. by rewrite H.
    + rewrite (IH H). apply orb_true_r.
Qed.

Lemma startswith_app p r s : startswith (p +:+ r) s = true -> startswith p s = true.
Proof.
  revert s. induction p as [| a p IH]; intros s H; [by destruct s |].
  destruct s as [| b s]; simpl in *; [done |].
  apply andb_true_iff in H as [-> H]. by rewrite (IH _ H).
Qed.

Lemma contains_app p r s : contains (p +:+ r) s = true -> contains p s = true.
Proof.
  induction s as [| c s IH]; simpl.
  - rewrite !orb_false_r. apply startswith_app.
  - intros H. apply orb_true_iff in H as [H | H].
    + by rewrite (startswith_app _ _ _ H).
    + rewrite (IH H). apply orb_true_r.
Qed.

(** A reply that carries the marker [Final Answer:] passes the test
    ['final answer' in str(message_content).lower()]. *)
Lemma final_marker_detected text :
  contains "Final Answer:" text = true -> contains "final answer" (lower text) = true.
Proof.
  intros H. apply contains_lower in H.
  by apply (contains_app "final answer" ":").
Qed.

(** C6.  On the compact text with a nested object the two closing
    braces are first rewritten to one, the outer object is no longer
    balanced, and the extractor answers the inner object
    [{"person": "Roberto"}], not the whole action; on the doubled-brace
    text with escaped line feeds it answers the object with name [greet]
    and arguments [Roberto]; on a text without braces it answers
    [None]. *)
Theorem parse_nested_json_examples :
  ReAct.parse_nested_json
    (q "Here is the result: {'name':'greet','arguments':{'person':'Roberto'}} Thanks")
  = Return (Some (JObj [("person", JStr "Roberto")]))
  /\ ReAct.parse_nested_json (q "{{\n 'name': 'greet',\n 'arguments': 'Roberto'\n}}")
     = Return (Some (JObj [("name", JStr "greet"); ("arguments", JStr "Roberto")]))
  /\ ReAct.parse_nested_json "There is no action to take." = Return None.
Proof. repeat split; vm_compute; reflexivity. Qed.

(** With a blank between the closing braces the whole action is found. *)
Lemma parse_nested_json_spaced :
  ReAct.parse_nested_json
    (q "Here is the result: {'name':'greet','arguments':{'person':'Roberto'} } Thanks")
  = Return (Some (JObj [("name", JStr "greet");
                        ("arguments", JObj [("person", JStr "Roberto")])])).
Proof. vm_compute. reflexivity. Qed.

Lemma no_open_app a b : no_open a = true -> no_open b = true -> no_open (a +:+ b) = true.
Proof.
  intros Ha Hb. induction a as [| c a IH]; [done |].
  rewrite string_app_cons. simpl in *. apply andb_true_iff in Ha as [-> Ha]. by apply IH.
Qed.

Lemma replace_from_no_open old new k s :
  no_open new = true -> no_open s = true -> no_open (replace_from old new k s) = true.
Proof.
  intros Hnew. revert k. induction s as [| c s IH]; intros k Hs; [done |].
  simpl in Hs. apply andb_true_iff in Hs as [Hc Hs]. cbn [replace_from].
  destruct k as [| k]; [| by apply IH].
  destruct (startswith old (String c s)).
  - apply no_open_app; [done | by apply IH].
  - simpl. rewrite Hc. by apply IH.
Qed.

Lemma replace_open_id p new s :
  no_open s = true -> replace (String "{" p) new s = s.
Proof.
  unfold replace. induction s as [| c s IH]; [done |].
  cbn [no_open replace_from startswith].
  intros H. apply andb_true_iff in H as [Hc H]. apply negb_true_iff in Hc.
  rewrite Ascii.eqb_sym, Hc. cbn [andb]. by rewrite IH.
Qed.

Lemma normalize_no_open text : no_open text = true -> no_open (ReAct.normalize text) = true.
Proof.
  intros H. unfold ReAct.normalize, ReAct.single_braces, ReAct.unescape_backslashes.
  assert (Hunescaped :
            no_open (replace (bs +:+ bs) bs
                       (replace (bs +:+ "'") "'"
                          (replace (bs +:+ "n") nl
                             (replace (bs +:+ bs +:+ "n") (bs +:+ "n") text)))) = true).
  { unfold replace. repeat (apply replace_from_no_open; [reflexivity |]). exact H. }
  rewrite (replace_open_id "{" "{") by exact Hunescaped.
  unfold replace at 1. by apply replace_from_no_open.
Qed.

Lemma search_no_open s : no_open s = true -> search s = None.
Proof.
  induction s as [| c s IH]; [done |]. simpl. intros H.
  apply andb_true_iff in H as [Hc H]. apply negb_true_iff in Hc.
  rewrite Hc. by apply IH.
Qed.

(** A text without an opening brace holds no action. *)
Lemma parse_nested_json_no_brace text :
  no_open text = true -> ReAct.parse_nested_json text = Return None.
Proof.
  intros H. unfold ReAct.parse_nested_json.
  by rewrite (search_no_open _ (normalize_no_open _ H)).
Qed.



Section TextProtocol.
Context {W : Type}.
Implicit Types (a : ReAct.Agent W) (st : state W) (response : completion).

Lemma react_generate a st messages response w' :
  ReAct.llm_generate a messages (world st) = (response, w') ->
  ReAct.generate a messages st = (Return response, after_generate st messages w').
Proof. unfold ReAct.generate. by intros ->. Qed.

(** One iteration that ends the run: no action was parsed. *)
Lemma react_step_final a task chat_history n react_loop st response w' :
  let messages := [Dict "user" (ReAct.format_prompt a chat_history task react_loop)] in
  ReAct.llm_generate a messages (world st) = (response, w') ->
  ReAct.parse_response response = Return None ->
  ReAct.run_loop a task chat_history (S n) react_loop st
  = (Return (Some (ReAct.final_response response)),
     {| memory := memory st ++ [Dict "user" task; ReAct.final_response response];
        tool_history := tool_history st;
        world := w';
        log := log st ++ [Generate messages] |}).
Proof.
  intros messages Hgen Hparse. cbn [ReAct.run_loop]. unfold bind.
  fold messages. rewrite (react_generate _ _ _ _ _ Hgen), Hparse. reflexivity.
Qed.


(** One iteration with an action: the executor runs, then the loop
    goes on with the observation. *)
Lemma react_step_action a task chat_history n react_loop st response w' d nm args :
  let messages := [Dict "user" (ReAct.format_prompt a chat_history task react_loop)] in
  ReAct.llm_generate a messages (world st) = (response, w') ->
  ReAct.parse_response response = Return (Some d) ->
  dict_get "name" d = Some (JStr nm) ->
  dict_get "args_json" d = Some (JStr args) ->
  ReAct.run_loop a task chat_history (S n) react_loop st
  = bind (execute (ReAct.executor a) nm args)
      (fun execution_results =>
         ReAct.run_loop a task chat_history n
           (react_loop +:+ (default "None" (content response)
                              +:+ ("Observation: " +:+ execution_results))))
      (after_generate st messages w').
Proof.
  intros messages Hgen Hparse Hname Hargs. cbn [ReAct.run_loop]. unfold bind at 1.
  fold messages. rewrite (react_generate _ _ _ _ _ Hgen), Hparse, Hname, Hargs.
  reflexivity.
Qed.

(** What a parsed action holds. *)
Lemma parse_response_action response d :
  ReAct.parse_response response = Return (Some d) ->
  exists arguments,
    dict_get "args_json" d = Some (JStr (dumps arguments))
    /\ dict_get "arguments" d = Some arguments.
Proof.
  unfold ReAct.parse_response.
  destruct (content response) as [text |]; [| discriminate].
  destruct (Regex.search _) as [span |]; [| discriminate].
  destruct (json_loads _) as [[| | | | | | members] | e];
    try discriminate; [| by destruct (exn_cls e)].
  destruct (dict_get "arguments" members) as [arguments |] eqn:Hargs; [| discriminate].
  intros [= <-]. exists arguments. split; [apply dict_get_set |].
  by rewrite dict_get_set_ne.
Qed.


(** C3, as the code has it.  For a reply that holds the marker
    [Final Answer:], the scan for an action comes first: when an
    action with a tool name is parsed, the executor is run on it and
    the loop continues with the observation; when the search finds no
    span, the reply ends the run and the answer is the lower-cased text
    after the last [final answer:], stripped; when the search finds a
    span, the interpreter never answers [None], so the reply is not
    taken as a final answer. *)
Theorem react_action_before_final_marker a response text task chat_history n react_loop st w' :
  let messages := [Dict "user" (ReAct.format_prompt a chat_history task react_loop)] in
  content response = Some text ->
  contains "Final Answer:" text = true ->
  ReAct.llm_generate a messages (world st) = (response, w') ->
  (forall d nm,
     ReAct.parse_response response = Return (Some d) ->
     dict_get "name" d = Some (JStr nm) ->
     exists arguments,
       dict_get "arguments" d = Some arguments
       /\ ReAct.run_loop a task chat_history (S n) react_loop st
          = bind (execute (ReAct.executor a) nm (dumps arguments))
              (fun execution_results =>
                 ReAct.run_loop a task chat_history n
                   (react_loop +:+ (text +:+ ("Observation: " +:+ execution_results))))
              (after_generate st messages w'))
  /\ (Regex.search (ReAct.normalize text) = None ->
        let answer :=
          Dict "assistant" (strip (split_last "final answer:" (lower text))) in
        ReAct.run_loop a task chat_history (S n) react_loop st
        = (Return (Some answer),
           {| memory := memory st ++ [Dict "user" task; answer];
              tool_history := tool_history st;
              world := w';
              log := log st ++ [Generate messages] |}))
  /\ (forall span,
        Regex.search (ReAct.normalize text) = Some span ->
        ReAct.parse_response response <> Return None).
Proof.
  intros messages Htext Hmarker Hgen. split; [| split]; cycle 2.
  { intros span Hspan. unfold ReAct.parse_response. rewrite Htext, Hspan.
    destruct (json_loads (strip span)) as [[| | | | | | members] | e0];
      try discriminate; [| by destruct (exn_cls e0)].
    by destruct (dict_get "arguments" members). }
  - intros d nm Hparse Hname.
    destruct (parse_response_action _ _ Hparse) as (arguments & Hjson & Harguments).
    exists arguments. split; [exact Harguments |].
    rewrite (react_step_action a task chat_history n react_loop st response w' d nm
               (dumps arguments) Hgen Hparse Hname Hjson).
    by rewrite Htext.
  - intros Hnone answer.
    assert (Hparse : ReAct.parse_response response = Return None).
    { unfold ReAct.parse_response. by rewrite Htext, Hnone. }
    rewrite (react_step_final a task chat_history n react_loop st response w' Hgen Hparse).
    assert (Hfinal : ReAct.final_response response = answer).
    { unfold ReAct.final_response. rewrite Htext. simpl.
      by rewrite (final_marker_detected _ Hmarker). }
    by rewrite Hfinal.
Qed.

End TextProtocol.



(** C3, the claim as stated, fails: the first reply of [react_llm]
    holds the marker [Final Answer:] together with an action object;
    the tool is executed on that turn and the loop asks the backend a
    second time. *)
Lemma final_marker_does_not_stop_action :
  let text := q "Final Answer: {'name': 'get_weather', 'arguments': {'location': 'Paris'} }" in
  let st' := (ReAct.run react_agent "What is the weather in Paris?" (Loop.initial_state 0)).2 in
  content (react_llm [] 0).1 = Some text
  /\ contains "Final Answer:" text = true
  /\ ~ (invocations (log st') = [] /\ lm_calls (log st') = 1).
Proof.
  split; [reflexivity |]. split; [vm_compute; reflexivity |].
  intros [Hnone _]. vm_compute in Hnone. discriminate.
Qed.

Lemma react_action_before_final_marker_witness :
  exists arguments,
    arguments = JObj [("location", JStr "Paris")]
    /\ ReAct.run_loop react_agent "What is the weather in Paris?" "" 10 "" (Loop.initial_state 0)
       = bind (execute registry "get_weather" (dumps arguments))
           (fun execution_results =>
              ReAct.run_loop react_agent "What is the weather in Paris?" "" 9
                ("" +:+ (q "Final Answer: {'name': 'get_weather', 'arguments': {'location': 'Paris'} }"
                           +:+ ("Observation: " +:+ execution_results))))
           (after_generate (Loop.initial_state 0)
              [Dict "user" (react_prompt "" "What is the weather in Paris?" "")] 1).
Proof.
  destruct (proj1 (react_action_before_final_marker react_agent marked_action
                     (q "Final Answer: {'name': 'get_weather', 'arguments': {'location': 'Paris'} }")
                     "What is the weather in Paris?" "" 9 "" (Loop.initial_state 0) 1
                     eq_refl eq_refl eq_refl)
              [("name", JStr "get_weather");
               ("arguments", JObj [("location", JStr "Paris")]);
               ("args_json", JStr (q "{'location': 'Paris'}"))]
              "get_weather")
    as (arguments & Harguments & Hrun).
  - vm_compute. reflexivity.
  - reflexivity.
  - exists arguments. split; [| exact Hrun].
    vm_compute in Harguments. by injection Harguments as <-.
Defined.

(** ** The function-calling loop *)

Lemma lm_calls_app l1 l2 : lm_calls (l1 ++ l2) = lm_calls l1 + lm_calls l2.
Proof. unfold lm_calls. by rewrite List.filter_app, length_app. Qed.

Section LoopProps.
Context {W : Type}.
Implicit Types (a : Loop.Agent W) (st : state W) (response : completion).

Lemma frame_refl st : frame st st.
Proof. by repeat split. Qed.

Lemma frame_trans st1 st2 st3 : frame st1 st2 -> frame st2 st3 -> frame st1 st3.
Proof. intros (? & ? & ?) (? & ? & ?). repeat split; congruence. Qed.

Lemma grows_refl st : grows st st.
Proof. repeat split. exists []. by rewrite app_nil_r. Qed.

Lemma grows_trans st1 st2 st3 : grows st1 st2 -> grows st2 st3 -> grows st1 st3.
Proof.
  intros (Hm1 & [x1 Hx1] & Hc1) (Hm2 & [x2 Hx2] & Hc2).
  repeat split; [congruence | | congruence].
  exists (x1 ++ x2). by rewrite Hx2, Hx1, app_assoc.
Qed.

Lemma frame_grows st st' : frame st st' -> grows st st'.
Proof.
  intros (? & Hh & ?). repeat split; [done | | done].
  exists []. by rewrite app_nil_r.
Qed.

Lemma call_frame (f : PyFunc W) kwargs st r st' :
  call f kwargs st = (r, st') -> frame st st'.
Proof.
  unfold call. destruct (fn_call f kwargs (world st)) as [r0 w0].
  intros [= <- <-]. repeat split; simpl.
  rewrite lm_calls_app. change (lm_calls [Invoke (fn_name f) kwargs]) with 0. lia.
Qed.

Lemma run_frame (t : AgentTool W) args kwargs st r st' :
  run t args kwargs st = (r, st') -> frame st st'.
Proof.
  unfold run. destruct (kwargs !! "self"); [intros [= <- <-]; apply frame_refl |].
  destruct (model_construct _ _) as [msg | validated].
  - intros [= <- <-]. apply frame_refl.
  - unfold try_except.
    destruct (call (func t) validated st) as [[x | e] st1] eqn:Hcall;
      apply call_frame in Hcall; [| destruct (exn_cls e)];
      intros [= <- <-]; exact Hcall.
Qed.

Lemma execute_frame (tools : gmap string (AgentTool W)) nm args st r st' :
  execute tools nm args st = (r, st') -> frame st st'.
Proof.
  unfold execute. destruct (tools !! nm) as [tool |]; [| intros [= <- <-]; apply frame_refl].
  unfold try_except.
  assert (Hbody : forall r1 st1,
            (if validate_json_args tool args
             then match json_loads args with
                  | Return (JObj tool_args_dict) => run tool [] (py_dict tool_args_dict)
                  | Return _ => raise (Exn TypeError "argument after ** must be a mapping" None)
                  | Raise e => raise e
                  end
             else raise (Exn ValueError
                           ("Error validating tool '" +:+ nm +:+ "' arguments.") None)) st
            = (r1, st1) -> frame st st1).
  { intros r1 st1. destruct (validate_json_args tool args).
    - destruct (json_loads args) as [[| | | | | | d] | e];
        try (intros [= <- <-]; apply frame_refl).
      apply run_frame.
    - intros [= <- <-]. apply frame_refl. }
  destruct (_ st) as [[x | e] st1]; specialize (Hbody _ _ eq_refl);
    intros [= <- <-]; exact Hbody.
Qed.

Lemma execute_tool_calls_spec a calls st r st' :
  Loop.execute_tool_calls a calls st = (r, st') ->
  grows st st'
  /\ match r with
     | Return _ =>
         exists turns, tool_history st' = tool_history st ++ turns /\ answers calls turns
     | Raise e => exn_cls e = ValueError
     end.
Proof.
  revert st. induction calls as [| tool calls IH]; intros st.
  - intros [= <- <-]. split; [apply grows_refl |].
    exists []. split; [by rewrite app_nil_r | constructor].
  - cbn [Loop.execute_tool_calls]. unfold bind, try_except.
    destruct (execute _ _ _ st) as [[text | e] st1] eqn:Hexec;
      apply execute_frame in Hexec as (Hm & Hh & Hc).
    + unfold Loop.tool_history_append at 1.
      set (st2 := {| memory := memory st1; tool_history := _;
                     world := world st1; log := log st1 |}).
      intros Hrest. destruct (IH _ Hrest) as [Hgrow Hres].
      assert (Hstep : grows st st2).
      { repeat split; simpl; [done | | done].
        eexists. by rewrite Hh. }
      split; [by eapply grows_trans |].
      destruct r as [[] | e]; [| done].
      destruct Hres as (turns & Hturns & Hans).
      exists (ToolMessage (id tool) (function_name tool) text :: turns). split.
      * rewrite Hturns. simpl. rewrite Hh. by rewrite <- app_assoc.
      * constructor; [by eexists | done].
    + intros [= <- <-]. split; [| done]. by apply frame_grows.
Qed.

(** One tool iteration: [parse_response] answers [False] on a reply
    without tool calls and changes nothing; otherwise the reply and
    one tool-result turn per call are appended to the tool history,
    after what was already there. *)
Lemma parse_response_spec a response st r st' :
  Loop.parse_response a response st = (r, st') ->
  grows st st'
  /\ match r with
     | Return false => tool_calls response = [] /\ st' = st
     | Return true =>
         tool_calls response <> []
         /\ exists turns,
              tool_history st' = tool_history st ++ Assistant response :: turns
              /\ answers (tool_calls response) turns
     | Raise e => tool_calls response <> [] /\ exn_cls e = ValueError
     end.
Proof.
  unfold Loop.parse_response.
  destruct (tool_calls response) as [| c calls] eqn:Hcalls.
  - intros [= <- <-]. split; [apply grows_refl | done].
  - unfold bind at 1, Loop.tool_history_append at 1.
    set (st1 := {| memory := memory st; tool_history := _;
                   world := world st; log := log st |}).
    unfold bind.
    destruct (Loop.execute_tool_calls a (c :: calls) st1) as [[[] | e] st2] eqn:Hexec;
      apply execute_tool_calls_spec in Hexec as [Hgrow Hres];
      intros [= <- <-].
    + split.
      * eapply grows_trans; [| exact Hgrow]. repeat split. by eexists.
      * split; [done |]. destruct Hres as (turns & Hturns & Hans).
        exists turns. split; [| done]. rewrite Hturns. simpl. by rewrite <- app_assoc.
    + split; [| done].
      eapply grows_trans; [| exact Hgrow]. repeat split. by eexists.
Qed.

(** The loop of [run], from any state. *)
Lemma run_loop_spec a n st r st' :
  Loop.run_loop a n st = (r, st') ->
  lm_calls (log st') <= lm_calls (log st) + n
  /\ match r with
     | Return (Some response) =>
         memory st' = memory st ++ [Assistant response]
         /\ tool_history st' = []
         /\ tool_calls response = []
         /\ exists messages w, response = (Loop.llm_generate a messages w).1
     | Return None =>
         memory st' = memory st
         /\ (exists added, tool_history st' = tool_history st ++ added)
         /\ lm_calls (log st') = lm_calls (log st) + n
     | Raise e =>
         memory st' = memory st
         /\ (exists added, tool_history st' = tool_history st ++ added)
         /\ exn_cls e = ValueError
     end.
Proof.
  revert st. induction n as [| n IH]; intros st.
  - intros [= <- <-]. split; [lia |]. split; [done |]. split; [| lia].
    exists []. by rewrite app_nil_r.
  - cbn [Loop.run_loop]. unfold bind at 1, Loop.generate.
    set (chat_history := [Loop.system_message a] ++ memory st ++ tool_history st).
    destruct (Loop.llm_generate a chat_history (world st)) as [response w1] eqn:Hgen.
    set (st1 := {| memory := memory st; tool_history := tool_history st;
                   world := w1; log := log st ++ [Generate chat_history] |}).
    assert (Hcalls1 : lm_calls (log st1) = lm_calls (log st) + 1).
    { simpl. rewrite lm_calls_app. reflexivity. }
    unfold bind at 1.
    destruct (Loop.parse_response a response st1) as [[[] | e] st2] eqn:Hparse;
      apply parse_response_spec in Hparse as [(Hm & [added Hadded] & Hc) Hres];
      rewrite Hcalls1 in Hc; change (memory st1) with (memory st) in Hm;
      change (tool_history st1) with (tool_history st) in Hadded.
    + intros Hloop. destruct (IH _ Hloop) as [Hle Hrest].
      split; [lia |].
      destruct r as [[final |] | e].
      * destruct Hrest as (Hmem & Hhist & Hfinal). split; [congruence | done].
      * destruct Hrest as (Hmem & [added' Hadded'] & Hcount).
        split; [congruence |]. split; [| lia].
        exists (added ++ added'). rewrite Hadded', Hadded. simpl. by rewrite app_assoc.
      * destruct Hrest as (Hmem & [added' Hadded'] & Hcls).
        split; [congruence |]. split; [| done].
        exists (added ++ added'). rewrite Hadded', Hadded. simpl. by rewrite app_assoc.
    + destruct Hres as [Hnone ->].
      unfold bind, Loop.add_message, Loop.tool_history_clear. simpl.
      intros [= <- <-]. simpl.
      split; [rewrite lm_calls_app; change (lm_calls [Generate chat_history]) with 1; lia |].
      split; [done |]. split; [done |]. split; [done |].
      exists chat_history, (world st). by rewrite Hgen.
    + intros [= <- <-]. split; [lia |].
      split; [congruence |]. split; [| by destruct Hres].
      exists added. rewrite Hadded. reflexivity.
Qed.

End LoopProps.

(** ** The scenarios *)

(** The stubs are built the way the lessons build their tools and
    agents. *)
Lemma weather_tool_decorated : get_weather randint70 = Return weather_tool.
Proof. reflexivity. Qed.

Lemma weather_agent_init :
  Loop.Agent_init weather_llm system_message 10 [weather_tool] = Return weather_agent.
Proof. reflexivity. Qed.

Lemma requesting_llm_always_requests : always_requests requesting_agent.
Proof. intros messages w. discriminate. Qed.

(** C1, the claim as stated, fails: with three iterations and a backend
    that requests the tool on every turn, [run] asks three times and
    then returns [None]; it raises nothing and returns no value that
    could report the exhausted budget. *)
Lemma budget_exhaustion_is_silent :
  let r := (Loop.run requesting_agent user_message (Loop.initial_state 0)).1 in
  let st' := (Loop.run requesting_agent user_message (Loop.initial_state 0)).2 in
  lm_calls (log st') = 3
  /\ r = Return None
  /\ ~ ((exists e, r = Raise e) \/ (exists report, r = Return (Some report))).
Proof.
  split; [vm_compute; reflexivity |]. split; [vm_compute; reflexivity |].
  intros [[e He] | [report He]]; vm_compute in He; discriminate.
Qed.

(** C2, the claim as stated, fails: after the weather scenario memory
    does not hold the four turns. *)
Lemma weather_memory_is_not_four_turns :
  let st' := (Loop.run weather_agent user_message (Loop.initial_state 0)).2 in
  (Loop.run weather_agent user_message (Loop.initial_state 0)).1
  = Return (Some final_virginia)
  /\ memory st'
     <> [user_message;
         Assistant request_virginia;
         ToolMessage "call_1" "get_weather" "Virginia: 70F.";
         Assistant final_virginia].
Proof.
  split; [vm_compute; reflexivity |].
  intros H. vm_compute in H. discriminate.
Qed.

(** C2, as the code has it.  In the weather scenario [run] returns the
    final reply; memory then holds two turns, the user turn and the
    final assistant turn.  The tool-request turn and the tool-result
    turn [Virginia: 70F.] were kept in the tool history, sent to the
    backend with the second call, and dropped with the final answer. *)
Theorem weather_scenario :
  Loop.run weather_agent user_message (Loop.initial_state 0)
  = (Return (Some final_virginia),
     {| memory := [user_message; Assistant final_virginia];
        tool_history := [];
        world := 2;
        log :=
          [Generate [system_message; user_message];
           Invoke "get_weather" {[ "location" := JStr "Virginia" ]};
           Generate [system_message; user_message;
                     Assistant request_virginia;
                     ToolMessage "call_1" "get_weather" "Virginia: 70F."]] |}).
Proof. vm_compute. reflexivity. Qed.

(** * Further properties *)

Import Trace.

(** ** The brace search and the texts it is given *)

Lemma string_app_inj_length (a a' b b' : string) :
  String.length a = String.length a' -> a +:+ b = a' +:+ b' -> a = a' /\ b = b'.
Proof.
  revert a'. induction a as [| x a IH]; intros [| x' a'] Hlen Heq; try discriminate.
  - done.
  - rewrite !string_app_cons in Heq. injection Heq as -> Heq. injection Hlen as Hlen.
    destruct (IH _ Hlen Heq) as [-> ->]. done.
Qed.

(** X1. [pattern.search] answers a text [m] exactly when [m] is the
    brace-balanced part of the input that starts leftmost: among the
    parts the pattern matches there is one, and only one, the search
    can answer. *)
Theorem search_iff_leftmost_balanced s m :
  search s = Some m <->
  exists pre post,
    s = pre +:+ m +:+ post /\ balanced m
    /\ forall pre' m' post',
         s = pre' +:+ m' +:+ post' -> balanced m' ->
         String.length pre <= String.length pre'.
Proof.
  pose proof (search_leftmost s) as Hs. split.
  - intros H. by rewrite H in Hs.
  - intros (pre & post & Heq & Hb & Hmin).
    destruct (search s) as [m0 |]; [| by destruct (Hs _ _ _ Heq)].
    destruct Hs as (pre0 & post0 & Heq0 & Hb0 & Hmin0).
    pose proof (Hmin _ _ _ Heq0 Hb0) as H1. pose proof (Hmin0 _ _ _ Heq Hb) as H2.
    assert (Hlen : String.length pre = String.length pre0) by lia.
    rewrite Heq0 in Heq. symmetry in Heq.
    destruct (string_app_inj_length _ _ _ _ Hlen Heq) as [_ Hrest].
    pose proof (match_here_complete m post Hb) as Hm.
    rewrite Hrest, (match_here_complete m0 post0 Hb0) in Hm. done.
Qed.

Lemma contains_cons sub c s :
  contains sub (String c s) = false ->
  startswith sub (String c s) = false /\ contains sub s = false.
Proof. cbn [contains]. intros H. by apply orb_false_elim in H. Qed.

Lemma replace_absent old new s : contains old s = false -> replace old new s = s.
Proof.
  unfold replace. induction s as [| c s IH]; [done |]. intros H.
  destruct (contains_cons _ _ _ H) as [Hs Hc]. cbn [replace_from]. rewrite Hs.
  f_equal. by apply IH.
Qed.

Lemma startswith_head c p s :
  contains (String c "") s = false -> startswith (String c p) s = false.
Proof.
  destruct s as [| x s]; [done |]. intros H. apply contains_cons in H as [H _].
  cbn [startswith] in *. rewrite andb_true_r in H. by rewrite H.
Qed.

Lemma contains_head c p s :
  contains (String c "") s = false -> contains (String c p) s = false.
Proof.
  induction s as [| x s IH]; [done |]. intros H.
  cbn [contains]. rewrite (startswith_head _ _ _ H). apply contains_cons in H as [_ H].
  by apply IH.
Qed.

Lemma unescape_backslashes_clean text :
  contains bs text = false -> ReAct.unescape_backslashes text = text.
Proof.
  intros H. unfold ReAct.unescape_backslashes.
  rewrite (replace_absent (bs +:+ bs +:+ "n")) by (by apply contains_head).
  rewrite (replace_absent (bs +:+ "n")) by (by apply contains_head).
  rewrite (replace_absent (bs +:+ "'")) by (by apply contains_head).
  by rewrite (replace_absent (bs +:+ bs)) by (by apply contains_head).
Qed.

Lemma normalize_clean text :
  contains bs text = false ->
  contains "{{" text = false ->
  contains "}}" text = false ->
  ReAct.normalize text = text.
Proof.
  intros Hb Ho Hc. unfold ReAct.normalize, ReAct.single_braces.
  rewrite (unescape_backslashes_clean _ Hb).
  rewrite (replace_absent "{{" _ _ Ho). by apply replace_absent.
Qed.

(** X3. A reply without any opening brace carries no action: the
    search finds nothing after the rewriting steps, and both
    [parse_nested_json] and [parse_response] answer [None]. *)
Theorem brace_free_reply_has_no_action response text :
  content response = Some text ->
  no_open text = true ->
  search (ReAct.normalize text) = None
  /\ ReAct.parse_nested_json text = Return None
  /\ ReAct.parse_response response = Return None.
Proof.
  intros Hc Hno.
  assert (Hs : search (ReAct.normalize text) = None)
    by (apply search_no_open, normalize_no_open, Hno).
  split; [done |]. split.
  - unfold ReAct.parse_nested_json. by rewrite Hs.
  - unfold ReAct.parse_response. by rewrite Hc, Hs.
Qed.

Lemma brace_free_reply_has_no_action_witness :
  search (ReAct.normalize "It is sunny. }") = None
  /\ ReAct.parse_nested_json "It is sunny. }" = Return None
  /\ ReAct.parse_response (Completion (Some "It is sunny. }") []) = Return None.
Proof.
  apply (brace_free_reply_has_no_action (Completion (Some "It is sunny. }") []));
    reflexivity.
Defined.

(** ** The final answer of the text protocol *)

Lemma split_last_from_absent sep cur s :
  contains sep s = false -> split_last_from sep 0 cur s = cur.
Proof.
  induction s as [| c s IH]; [done |]. intros H.
  destruct (contains_cons _ _ _ H) as [Hs Hc]. cbn [split_last_from]. rewrite Hs.
  by apply IH.
Qed.

Lemma split_last_from_suffix sep s : forall skip cur,
  split_last_from sep skip cur s = cur
  \/ exists k, split_last_from sep skip cur s = drop k s.
Proof.
  induction s as [| c s IH]; intros skip cur; [by left |].
  cbn [split_last_from]. destruct skip as [| k].
  - destruct (startswith sep (String c s)).
    + right. destruct (IH (String.length sep - 1) (drop (String.length sep) (String c s)))
        as [-> | [k ->]]; [by eexists | by exists (S k)].
    + destruct (IH 0 cur) as [-> | [k ->]]; [by left | right; by exists (S k)].
  - destruct (IH k cur) as [-> | [j ->]]; [by left | right; by exists (S j)].
Qed.

Lemma split_last_suffix sep s : exists k, split_last sep s = drop k s.
Proof.
  unfold split_last. destruct (split_last_from_suffix sep s 0 s) as [-> | H]; [| done].
  by exists 0; destruct s.
Qed.

Lemma lower_char_idemp c : lower_char (lower_char c) = lower_char c.
Proof. by destruct c as [[] [] [] [] [] [] [] []]. Qed.

Lemma is_space_lower_char c : is_space (lower_char c) = is_space c.
Proof. by destruct c as [[] [] [] [] [] [] [] []]. Qed.

Lemma lower_idemp s : lower (lower s) = lower s.
Proof. induction s as [| c s IH]; [done |]. simpl. by rewrite lower_char_idemp, IH. Qed.

Lemma lower_drop k s : lower (drop k s) = drop k (lower s).
Proof. revert s. induction k as [| k IH]; intros [| c s]; simpl; auto. Qed.

Lemma lower_lstrip s : lower (lstrip s) = lstrip (lower s).
Proof.
  induction s as [| c s IH]; [done |]. simpl. rewrite is_space_lower_char.
  by destruct (is_space c).
Qed.

Lemma lower_rstrip s : lower (rstrip s) = rstrip (lower s).
Proof.
  induction s as [| c s IH]; [done |]. cbn [rstrip lower]. rewrite <- IH, is_space_lower_char.
  destruct (rstrip s) as [| x r]; [by destruct (is_space c) | done].
Qed.

Lemma lower_strip s : lower (strip s) = strip (lower s).
Proof. unfold strip. by rewrite lower_rstrip, lower_lstrip. Qed.

Lemma rstrip_idemp s : rstrip (rstrip s) = rstrip s.
Proof.
  induction s as [| c s IH]; [done |]. cbn [rstrip].
  destruct (rstrip s) as [| x r] eqn:Hr.
  - destruct (is_space c) eqn:Hc; [done |]. cbn [rstrip]. by rewrite Hc.
  - cbn [rstrip] in *. by rewrite IH.
Qed.

Lemma lstrip_head s : match lstrip s with "" => True | String c _ => is_space c = false end.
Proof.
  induction s as [| c s IH]; [done |]. simpl. by destruct (is_space c) eqn:Hc; [| simpl].
Qed.

Lemma lstrip_rstrip_head c s : is_space c = false -> lstrip (rstrip (String c s)) = rstrip (String c s).
Proof.
  intros Hc. cbn [rstrip]. destruct (rstrip s); [rewrite Hc |]; simpl; by rewrite Hc.
Qed.

Lemma strip_idemp s : strip (strip s) = strip s.
Proof.
  unfold strip. pose proof (lstrip_head s) as H. destruct (lstrip s) as [| c t]; [done |].
  by rewrite (lstrip_rstrip_head c t H), rstrip_idemp.
Qed.

(** X4. When the reply holds the words "final answer" in any case, the
    answer of the ReAct agent is lower-cased text without white space
    at either end, whatever case the model wrote; when the words are
    not followed by a colon anywhere, it is the whole reply, lower-cased
    and stripped. *)
Theorem final_response_is_lowered response :
  let message_content := default "None" (content response) in
  contains "final answer" (lower message_content) = true ->
  exists answer,
    ReAct.final_response response = Dict "assistant" answer
    /\ lower answer = answer
    /\ strip answer = answer
    /\ (exists k, answer = strip (drop k (lower message_content)))
    /\ (contains "final answer:" (lower message_content) = false ->
          answer = strip (lower message_content)).
Proof.
  intros message_content Hf. unfold ReAct.final_response.
  fold message_content. rewrite Hf. eexists. split; [reflexivity |].
  destruct (split_last_suffix "final answer:" (lower message_content)) as [k Hk].
  repeat split.
  - by rewrite lower_strip, Hk, lower_drop, lower_idemp.
  - apply strip_idemp.
  - exists k. by rewrite Hk.
  - intros Hno. unfold split_last. by rewrite split_last_from_absent.
Qed.

Lemma final_response_is_lowered_witness :
  exists answer,
    ReAct.final_response (Completion (Some "FINAL ANSWER - New York: 60F ") [])
    = Dict "assistant" answer
    /\ answer = "final answer - new york: 60f".
Proof.
  destruct (final_response_is_lowered (Completion (Some "FINAL ANSWER - New York: 60F ") []))
    as (answer & H1 & _ & _ & _ & H5); [reflexivity |].
  exists answer. split; [exact H1 |]. rewrite H5; reflexivity.
Defined.

(** ** The registry of an agent *)

Section RegistryLoop.
Context {W : Type}.
Implicit Types (tool : AgentTool W) (tools : gmap string (AgentTool W)).

Lemma register_tools_app l1 l2 tools :
  register_tools (l1 ++ l2) tools
  = match register_tools l1 tools with
    | (Return _, tools') => register_tools l2 tools'
    | r => r
    end.
Proof.
  revert tools. induction l1 as [| t l1 IH]; intros tools; [done |].
  cbn [app register_tools]. destruct (register_tool t tools) as [[[] | e] tools']; [apply IH | done].
Qed.

Lemma register_tools_spec (l : list (AgentTool W)) tools :
  match register_tools l tools with
  | (Return _, tools') =>
      NoDup (name <$> l)
      /\ (forall t, t ∈ l -> tools !! name t = None /\ tools' !! name t = Some t)
      /\ (forall k, k ∉ name <$> l -> tools' !! k = tools !! k)
  | (Raise e, tools') =>
      exists done t rest,
        l = done ++ t :: rest
        /\ register_tools done tools = (Return tt, tools')
        /\ (name t ∈ name <$> done \/ is_Some (tools !! name t))
        /\ e = Exn ValueError ("Tool '" +:+ name t +:+ "' is already registered.") None
  end.
Proof.
  revert tools. induction l as [| t l IH]; intros tools.
  - simpl. split; [constructor |]. split; [intros t Ht; by apply elem_of_nil in Ht | done].
  - cbn [register_tools]. unfold register_tool at 1.
    destruct (tools !! name t) as [t0 |] eqn:Hlook.
    + exists [], t, l. repeat split; try done. by right.
    + specialize (IH (<[name t := t]> tools)).
      destruct (register_tools l (<[name t := t]> tools)) as [[[] | e] tools'].
      * destruct IH as (Hnd & Hin & Hout).
        assert (Hfresh : name t ∉ name <$> l).
        { intros Hel. apply list_elem_of_fmap in Hel as (t' & Heq & Ht').
          destruct (Hin _ Ht') as [Hnone _]. rewrite <- Heq, lookup_insert_eq in Hnone.
          discriminate. }
        split; [by constructor |]. split.
        -- intros t' Ht'. apply elem_of_cons in Ht' as [-> | Ht'].
           ++ split; [done |]. by rewrite (Hout _ Hfresh), lookup_insert_eq.
           ++ destruct (Hin _ Ht') as [Hnone Hsome]. split; [| done].
              destruct (decide (name t' = name t)) as [Heq | Hne].
              ** rewrite Heq, lookup_insert_eq in Hnone. discriminate.
              ** by rewrite lookup_insert_ne in Hnone.
        -- intros k Hk. rewrite fmap_cons in Hk. apply not_elem_of_cons in Hk as [Hne Hk].
           rewrite (Hout _ Hk). by rewrite lookup_insert_ne.
      * destruct IH as (done & t' & rest & -> & Hdone & Hwhy & ->).
        exists (t :: done), t', rest. repeat split; try done.
        -- cbn [register_tools]. unfold register_tool at 1. by rewrite Hlook.
        -- destruct Hwhy as [Hel | Hsome].
           ++ left. rewrite fmap_cons. by apply elem_of_cons; right.
           ++ destruct (decide (name t' = name t)) as [Heq | Hne].
              ** left. rewrite fmap_cons, Heq. by apply elem_of_cons; left.
              ** right. by rewrite lookup_insert_ne in Hsome.
Qed.

(** X5. An agent can be built from a list of tools exactly when the
    names of the tools are pairwise distinct; its executor then finds
    every tool under its name.  The registration loop of [__init__],
    run on any registry, ends without error exactly when the names
    are distinct and none is taken, keeping the earlier entries;
    otherwise it stops at the first tool whose name is taken, with the
    tools before it registered. *)
Theorem agent_needs_distinct_tool_names (l : list (AgentTool W)) tools :
  match register_tools l tools with
  | (Return _, tools') =>
      NoDup (name <$> l)
      /\ (forall t, t ∈ l -> tools !! name t = None /\ tools' !! name t = Some t)
      /\ (forall k, k ∉ name <$> l -> tools' !! k = tools !! k)
  | (Raise e, tools') =>
      exists done t rest,
        l = done ++ t :: rest
        /\ register_tools done tools = (Return tt, tools')
        /\ (name t ∈ name <$> done \/ is_Some (tools !! name t))
        /\ e = Exn ValueError ("Tool '" +:+ name t +:+ "' is already registered.") None
  end
  /\ forall llm sys n,
       NoDup (name <$> l)
       <-> exists a,
             Loop.Agent_init llm sys n l = Return a
             /\ forall t, t ∈ l -> Loop.executor a !! name t = Some t.
Proof.
  split; [apply register_tools_spec |].
  intros llm sys n. unfold Loop.Agent_init.
  pose proof (register_tools_spec l ∅) as Hspec.
  destruct (register_tools l ∅) as [[[] | e] registry]; split.
  - intros _. eexists. split; [done |]. intros t Ht. simpl.
    by destruct Hspec as (_ & Hin & _), (Hin _ Ht).
  - intros _. by destruct Hspec.
  - intros Hnd. destruct Hspec as (done & t & rest & -> & _ & [Hdup | Hsome] & _).
    + rewrite fmap_app, fmap_cons in Hnd. apply NoDup_app in Hnd as (_ & Hdis & _).
      destruct (Hdis _ Hdup). apply list_elem_of_here.
    + rewrite lookup_empty in Hsome. by destruct Hsome.
  - by intros (a & [=] & _).
Qed.

End RegistryLoop.

(** ** What one execution does *)

Lemma requests_app l1 l2 : requests (l1 ++ l2) = requests l1 ++ requests l2.
Proof. unfold requests. apply omap_app. Qed.

Ltac wrapped_cause :=
  match goal with
  | |- exists e0, Exn _ _ (Some ?x) = _ => by exists x
  end.

Section Traces.
Context {W : Type}.
Implicit Types (tools : gmap string (AgentTool W)) (st : state W).

Lemma well_called_invoked tools calls evs :
  Forall2 (invoked_for tools) calls evs -> Forall (well_called tools) evs.
Proof.
  induction 1 as [| c ev calls evs Hinv _ IH]; constructor; [| done].
  right. by eexists _, _.
Qed.

Lemma requests_invoked tools calls evs :
  Forall2 (invoked_for tools) calls evs -> requests evs = [].
Proof.
  induction 1 as [| c ev calls evs Hinv _ IH]; [done |].
  destruct Hinv as (tool & d & validated & _ & _ & _ & _ & ->). exact IH.
Qed.

(** [execute] either raises and leaves the state as it was, or calls
    the wrapped function once, with the validated arguments. *)
Lemma execute_trace tools nm args st r st' :
  execute tools nm args st = (r, st') ->
  (st' = st /\ exists e, r = Raise e /\ executor_failure tools nm e)
  \/ exists tool d validated,
       tools !! nm = Some tool
       /\ validate_json_args tool args = true
       /\ loads args = Some (JObj d)
       /\ model_construct (args_model tool) (py_dict d) = inr validated
       /\ st' = {| memory := memory st; tool_history := tool_history st;
                   world := (fn_call (func tool) validated (world st)).2;
                   log := log st ++ [Invoke (fn_name (func tool)) validated] |}
       /\ match (fn_call (func tool) validated (world st)).1 with
          | Return v => r = Return v
          | Raise e0 =>
              exists e, r = Raise e /\ executor_failure tools nm e
          end.
Proof.
  unfold execute, executor_failure. destruct (tools !! nm) as [tool |] eqn:Hlook.
  2: { intros [= <- <-]. left. split; [done |]. by eexists. }
  unfold try_except. destruct (validate_json_args tool args) eqn:Hval.
  2: { intros [= <- <-]. left. split; [done |]. eexists. split; [done |]. wrapped_cause. }
  destruct (json_loads args) as [[| | | | | | d] | e1] eqn:Hloads;
    try (intros [= <- <-]; left; split; [done |]; eexists; split; [done |]; wrapped_cause).
  apply json_loads_Return in Hloads.
  unfold run. destruct (py_dict d !! "self").
  { intros [= <- <-]. left. split; [done |]. eexists. split; [done |]. wrapped_cause. }
  destruct (model_construct (args_model tool) (py_dict d)) as [msg | validated] eqn:Hc.
  { intros [= <- <-]. left. split; [done |]. eexists. split; [done |]. wrapped_cause. }
  unfold try_except, call.
  destruct (fn_call (func tool) validated (world st)) as [[v | e0] w0] eqn:Hcall.
  - intros [= <- <-]. right. exists tool, d, validated. rewrite Hcall. by repeat split.
  - intros H. right. exists tool, d, validated. rewrite Hcall.
    destruct (exn_cls e0); injection H as <- <-;
      (repeat split; try done; eexists; split; [done |]; wrapped_cause).
Qed.

Lemma execute_raises tools nm args st e st' :
  execute tools nm args st = (Raise e, st') -> executor_failure tools nm e.
Proof.
  intros H. destruct (execute_trace _ _ _ _ _ _ H) as [(_ & e' & [= <-] & He) | H'];
    [done |].
  destruct H' as (tool & d & validated & _ & _ & _ & _ & _ & Hres).
  destruct (fn_call _ _ _).1; [done |]. by destruct Hres as (e' & [= <-] & He).
Qed.

(** The events one [execute] adds to the log. *)
Lemma execute_log tools nm args st r st' :
  execute tools nm args st = (r, st') ->
  memory st' = memory st /\ tool_history st' = tool_history st
  /\ (log st' = log st
      \/ exists ev, validated_call tools nm args ev /\ log st' = log st ++ [ev])
  /\ forall v, r = Return v ->
       exists ev, validated_call tools nm args ev /\ log st' = log st ++ [ev].
Proof.
  intros H. destruct (execute_trace _ _ _ _ _ _ H) as [(Hst & e & Hr & _) | H'].
  - subst st' r. repeat split; [by left | done].
  - destruct H' as (tool & d & validated & Hlook & Hval & Hloads & Hc & Hst & _). subst st'.
    assert (Hcall : validated_call tools nm args (Invoke (fn_name (func tool)) validated))
      by (by exists tool, d, validated).
    repeat split; [right | intros v _]; by eexists.
Qed.

(** The loop over the requested calls: the calls are executed in
    order, each appends its result turn, and the first failure ends
    the loop. *)
Lemma execute_tool_calls_trace tools calls : forall st r st',
  Single.execute_tool_calls tools calls st = (r, st') ->
  memory st' = memory st
  /\ match r with
     | Return _ =>
         exists turns evs,
           tool_history st' = tool_history st ++ turns /\ answers calls turns
           /\ log st' = log st ++ evs /\ Forall2 (invoked_for tools) calls evs
     | Raise e =>
         exists done c rest turns evs,
           calls = done ++ c :: rest
           /\ tool_history st' = tool_history st ++ turns /\ answers done turns
           /\ log st' = log st ++ evs
           /\ (Forall2 (invoked_for tools) done evs
               \/ Forall2 (invoked_for tools) (done ++ [c]) evs)
           /\ tool_failure tools c e
     end.
Proof.
  induction calls as [| c calls IH]; intros st r st'.
  - intros [= <- <-]. split; [done |]. exists [], []. rewrite !app_nil_r.
    repeat split; constructor.
  - cbn [Single.execute_tool_calls]. unfold bind, try_except.
    destruct (execute tools (function_name c) (function_arguments c) st)
      as [[text | e1] st1] eqn:Hexec.
    + destruct (execute_log _ _ _ _ _ _ Hexec) as (Hm & Hh & _ & Hlog).
      destruct (Hlog _ eq_refl) as (ev & Hinv & Hlog1).
      unfold Loop.tool_history_append at 1.
      set (st2 := {| memory := memory st1; tool_history := _;
                     world := world st1; log := log st1 |}).
      intros Hrest. destruct (IH _ _ _ Hrest) as [Hmem Hres].
      split; [by rewrite Hmem |].
      destruct r as [[] | e].
      * destruct Hres as (turns & evs & Hturns & Hans & Hevs & Hall).
        exists (ToolMessage (id c) (function_name c) text :: turns),
               (ev :: evs).
        repeat split.
        -- rewrite Hturns. simpl. rewrite Hh. by rewrite <- app_assoc.
        -- constructor; [by eexists | done].
        -- rewrite Hevs. simpl. rewrite Hlog1. by rewrite <- app_assoc.
        -- by constructor.
      * destruct Hres as (done & c' & rest & turns & evs & -> & Hturns & Hans & Hevs & Hall & Hfail).
        exists (c :: done), c', rest,
               (ToolMessage (id c) (function_name c) text :: turns),
               (ev :: evs).
        repeat split; try done.
        -- rewrite Hturns. simpl. rewrite Hh. by rewrite <- app_assoc.
        -- constructor; [by eexists | done].
        -- rewrite Hevs. simpl. rewrite Hlog1. by rewrite <- app_assoc.
        -- destruct Hall as [Hall | Hall]; [left | right]; by constructor.
    + intros [= <- <-].
      destruct (execute_log _ _ _ _ _ _ Hexec) as (Hm & Hh & Hlog & _).
      split; [done |]. exists [], c, calls, [].
      assert (Hfail : tool_failure tools c
                (Exn ValueError
                   ("Execution error in tool '" +:+ function_name c +:+ "': " +:+ exn_str e1)
                   (Some e1))).
      { exists e1. split; [done |]. by eapply execute_raises. }
      destruct Hlog as [Hlog | (ev & Hinv & Hlog)].
      * exists []. rewrite !app_nil_r. repeat split; try done; [constructor | left; constructor].
      * exists [ev]. rewrite app_nil_r.
        repeat split; try done; [constructor |].
        right. constructor; [done | constructor].
Qed.

Lemma loop_execute_tool_calls (a : Loop.Agent W) calls :
  Loop.execute_tool_calls a calls = Single.execute_tool_calls (Loop.executor a) calls.
Proof. induction calls as [| c calls IH]; [done |]. simpl. by rewrite IH. Qed.

End Traces.

Section ExecutionExtras.
Context {W : Type}.
Implicit Types (tools : gmap string (AgentTool W)) (st : state W) (a : Loop.Agent W).

Lemma executor_failure_cls tools nm e : executor_failure tools nm e -> exn_cls e = ValueError.
Proof.
  unfold executor_failure. destruct (tools !! nm); [intros [e0 ->] | intros ->]; done.
Qed.

(** X6. [AgentToolExecutor.execute] does all or nothing.  Either it
    raises a [ValueError] and no state has changed: the name is not
    registered, or the JSON text was refused before the function was
    called.  Or it calls the wrapped function exactly once, with the
    arguments the model validated, after the text was accepted and
    decoded to an object; the function's result is returned as it is,
    and its exception comes back wrapped. *)
Theorem execute_all_or_nothing tools nm args st :
  let r := (execute tools nm args st).1 in
  let st' := (execute tools nm args st).2 in
  (st' = st
   /\ exists e, r = Raise e /\ exn_cls e = ValueError /\ executor_failure tools nm e)
  \/ exists tool d validated,
       tools !! nm = Some tool
       /\ validate_json_args tool args = true
       /\ loads args = Some (JObj d)
       /\ model_construct (args_model tool) (py_dict d) = inr validated
       /\ st' = {| memory := memory st; tool_history := tool_history st;
                   world := (fn_call (func tool) validated (world st)).2;
                   log := log st ++ [Invoke (fn_name (func tool)) validated] |}
       /\ match (fn_call (func tool) validated (world st)).1 with
          | Return v => r = Return v
          | Raise e0 =>
              exists e, r = Raise e /\ exn_cls e = ValueError /\ executor_failure tools nm e
          end.
Proof.
  intros r st'. subst r st'.
  destruct (execute tools nm args st) as [r st'] eqn:H. simpl.
  destruct (execute_trace _ _ _ _ _ _ H) as [(Hst & e & Hr & He) | H'].
  - left. split; [done |]. exists e. repeat split; try done. by eapply executor_failure_cls.
  - right. destruct H' as (tool & d & validated & H1 & H2 & H3 & H4 & H5 & H6).
    exists tool, d, validated. repeat split; try done.
    destruct (fn_call _ _ _).1 as [v | e0]; [done |]. destruct H6 as (e1 & Hr & He).
    exists e1. repeat split; try done. by eapply executor_failure_cls.
Qed.

(** X7. The loop over the tool calls of one reply executes the calls
    in their order and stops at the first that fails: the calls after
    it are not executed, the result turns of the calls before it stay
    in the tool history, and the exception names the failed call and
    carries the executor's exception as its cause.  Without failure
    every call has invoked the function registered under its name
    once and has appended one result turn. *)
Theorem execute_tool_calls_stops_at_first_failure a calls st :
  let r := (Loop.execute_tool_calls a calls st).1 in
  let st' := (Loop.execute_tool_calls a calls st).2 in
  memory st' = memory st
  /\ match r with
     | Return _ =>
         exists turns evs,
           tool_history st' = tool_history st ++ turns /\ answers calls turns
           /\ log st' = log st ++ evs
           /\ Forall2 (invoked_for (Loop.executor a)) calls evs
     | Raise e =>
         exists done c rest turns evs,
           calls = done ++ c :: rest
           /\ tool_history st' = tool_history st ++ turns /\ answers done turns
           /\ log st' = log st ++ evs
           /\ (Forall2 (invoked_for (Loop.executor a)) done evs
               \/ Forall2 (invoked_for (Loop.executor a)) (done ++ [c]) evs)
           /\ tool_failure (Loop.executor a) c e
     end.
Proof.
  intros r st'. subst r st'. rewrite loop_execute_tool_calls.
  destruct (Single.execute_tool_calls _ calls st) as [r st'] eqn:H.
  exact (execute_tool_calls_trace _ _ _ _ _ H).
Qed.

(** One tool iteration of the function-calling agent, on the log. *)
Lemma loop_parse_response_trace a response st r st' :
  Loop.parse_response a response st = (r, st') ->
  exists evs,
    log st' = log st ++ evs /\ requests evs = []
    /\ Forall (well_called (Loop.executor a)) evs
    /\ forall e, r = Raise e ->
         exists c, c ∈ tool_calls response /\ tool_failure (Loop.executor a) c e.
Proof.
  unfold Loop.parse_response.
  destruct (tool_calls response) as [| c0 calls] eqn:Hcalls.
  - intros [= <- <-]. exists []. rewrite app_nil_r. repeat split; [constructor | done].
  - unfold bind at 1, Loop.tool_history_append at 1.
    set (st1 := {| memory := memory st; tool_history := _;
                   world := world st; log := log st |}).
    unfold bind. rewrite loop_execute_tool_calls.
    destruct (Single.execute_tool_calls _ (c0 :: calls) st1) as [[[] | e] st2] eqn:Hexec;
      apply execute_tool_calls_trace in Hexec as [_ Hres]; intros [= <- <-].
    + destruct Hres as (turns & evs & _ & _ & Hlog & Hall).
      exists evs. split; [done |]. split; [by eapply requests_invoked |].
      split; [by eapply well_called_invoked | done].
    + destruct Hres as (done & c & rest & turns & evs & Heq & _ & _ & Hlog & Hall & Hfail).
      exists evs. split; [done |]. split; [| split].
      * destruct Hall as [Hall | Hall]; by eapply requests_invoked.
      * destruct Hall as [Hall | Hall]; by eapply well_called_invoked.
      * intros e' [= <-]. exists c. split; [| done].
        rewrite Heq. apply elem_of_app. right. apply list_elem_of_here.
Qed.

(** The requests of the loop of [run], from any state. *)
Lemma run_loop_requests a n : forall st r st',
  Loop.run_loop a n st = (r, st') ->
  exists evs,
    log st' = log st ++ evs
    /\ Forall (fun messages =>
                 exists added,
                   messages
                   = [Loop.system_message a] ++ memory st ++ tool_history st ++ added)
              (requests evs)
    /\ increasing (requests evs)
    /\ Forall (well_called (Loop.executor a)) evs
    /\ forall e, r = Raise e ->
         exists messages w c,
           c ∈ tool_calls (Loop.llm_generate a messages w).1
           /\ tool_failure (Loop.executor a) c e.
Proof.
  induction n as [| n IH]; intros st r st'.
  - intros [= <- <-]. exists []. rewrite app_nil_r.
    repeat split; [constructor | constructor | done].
  - cbn [Loop.run_loop]. unfold bind at 1, Loop.generate.
    set (chat_history := [Loop.system_message a] ++ memory st ++ tool_history st).
    destruct (Loop.llm_generate a chat_history (world st)) as [response w1] eqn:Hgen.
    set (st1 := {| memory := memory st; tool_history := tool_history st;
                   world := w1; log := log st ++ [Generate chat_history] |}).
    assert (Hfirst : exists added,
              chat_history
              = [Loop.system_message a] ++ memory st ++ tool_history st ++ added).
    { exists []. by rewrite app_nil_r. }
    unfold bind at 1.
    destruct (Loop.parse_response a response st1) as [[[] | e] st2] eqn:Hparse;
      pose proof (loop_parse_response_trace _ _ _ _ _ Hparse)
        as (evs1 & Hlog1 & Hreq1 & Hwell1 & Herr1);
      apply parse_response_spec in Hparse as [(Hm & [added Hadded] & _) Hres];
      change (memory st1) with (memory st) in Hm;
      change (tool_history st1) with (tool_history st) in Hadded;
      change (log st1) with (log st ++ [Generate chat_history]) in Hlog1.
    + intros Hloop.
      destruct (IH _ _ _ Hloop) as (evs2 & Hlog2 & Hall2 & Hinc2 & Hwell2 & Herr2).
      exists ([Generate chat_history] ++ evs1 ++ evs2).
      assert (Hreqs : requests ([Generate chat_history] ++ evs1 ++ evs2)
                      = chat_history :: requests evs2).
      { rewrite !requests_app, Hreq1. reflexivity. }
      rewrite Hreqs.
      assert (Hshape : Forall (fun messages =>
                 exists added',
                   messages = chat_history ++ added ++ added') (requests evs2)).
      { eapply Forall_impl; [exact Hall2 |]. intros messages [added' ->].
        exists added'. rewrite Hm, Hadded. unfold chat_history.
        by rewrite <- !app_assoc. }
      repeat split.
      * rewrite Hlog2, Hlog1. by rewrite <- !app_assoc.
      * constructor; [done |]. eapply Forall_impl; [exact Hshape |].
        intros messages [added' ->]. exists (added ++ added'). unfold chat_history.
        by rewrite <- !app_assoc.
      * eapply Forall_impl; [exact Hshape |]. intros messages [added' ->]. by eexists.
      * done.
      * apply Forall_app. split; [by repeat constructor | by apply Forall_app].
      * done.
    + destruct Hres as [Hnone ->].
      unfold bind, Loop.add_message, Loop.tool_history_clear. simpl.
      intros [= <- <-]. simpl. exists [Generate chat_history].
      repeat split; [by constructor | constructor | by repeat constructor | done].
    + intros [= <- <-]. exists ([Generate chat_history] ++ evs1).
      rewrite requests_app, Hreq1. repeat split.
      * rewrite Hlog1. by rewrite <- app_assoc.
      * by constructor.
      * constructor.
      * apply Forall_app. split; [by repeat constructor | done].
      * intros e' [= <-]. destruct (Herr1 _ eq_refl) as (c & Hc & Hfail).
        exists chat_history, (world st), c. by rewrite Hgen.
Qed.

(** X8. Within one [run] of the function-calling agent, every request
    to the LM client starts with the system message, followed by the
    whole memory with the new user turn, followed by the tool history;
    and each request extends the one before it: no turn sent earlier
    is dropped or rewritten. *)
Theorem run_requests_only_grow a user_message st :
  let st' := (Loop.run a user_message st).2 in
  exists evs,
    log st' = log st ++ evs
    /\ Forall (fun messages =>
                 exists added,
                   messages
                   = [Loop.system_message a] ++ (memory st ++ [user_message])
                       ++ tool_history st ++ added)
              (requests evs)
    /\ increasing (requests evs).
Proof.
  intros st'. subst st'. unfold Loop.run, bind, Loop.add_message.
  set (st1 := {| memory := memory st ++ [user_message]; tool_history := tool_history st;
                 world := world st; log := log st |}).
  destruct (Loop.run_loop a (Loop.max_iterations a) st1) as [r st'] eqn:Hloop.
  destruct (run_loop_requests _ _ _ _ _ Hloop) as (evs & Hlog & Hall & Hinc & _).
  exists evs. by repeat split.
Qed.

(** X9. The function-calling agent never calls a function it was not
    given, and never with arguments that were not validated: every
    event of a [run] is a request to the LM client or the call of the
    function wrapped by a registered tool, made after the model of
    the tool accepted the JSON text, with the arguments the model
    validated. *)
Theorem run_calls_only_validated_tools a user_message st :
  let st' := (Loop.run a user_message st).2 in
  exists evs,
    log st' = log st ++ evs /\ Forall (well_called (Loop.executor a)) evs.
Proof.
  intros st'. subst st'. unfold Loop.run, bind, Loop.add_message.
  set (st1 := {| memory := memory st ++ [user_message]; tool_history := tool_history st;
                 world := world st; log := log st |}).
  destruct (Loop.run_loop a (Loop.max_iterations a) st1) as [r st'] eqn:Hloop.
  destruct (run_loop_requests _ _ _ _ _ Hloop) as (evs & Hlog & _ & _ & Hwell & _).
  by exists evs.
Qed.

(** X10. The only exception [run] of the function-calling agent ends
    with is the [ValueError] of a failed tool call: its text names a
    tool the backend requested, and its cause is the executor's
    exception, which says that the name is not registered or carries
    the failure met behind the name as its own cause. *)
Theorem run_raises_only_tool_failures a user_message st e :
  (Loop.run a user_message st).1 = Raise e ->
  exists messages w c,
    c ∈ tool_calls (Loop.llm_generate a messages w).1
    /\ tool_failure (Loop.executor a) c e.
Proof.
  unfold Loop.run, bind, Loop.add_message.
  set (st1 := {| memory := memory st ++ [user_message]; tool_history := tool_history st;
                 world := world st; log := log st |}).
  destruct (Loop.run_loop a (Loop.max_iterations a) st1) as [r st'] eqn:Hloop.
  destruct (run_loop_requests _ _ _ _ _ Hloop) as (evs & _ & _ & _ & _ & Herr).
  simpl. intros ->. by apply Herr.
Qed.

End ExecutionExtras.

(** ** The single-step agent *)

Section SingleProps.
Context {W : Type}.
Implicit Types (a : Single.Agent W) (st : state W).

Lemma single_run_spec a user_message st r st' :
  Single.run a user_message st = (r, st') ->
  let chat_history :=
    [Single.system_message a] ++ (memory st ++ [user_message]) ++ tool_history st in
  if Single.has_function_calls a then
    exists evs,
      log st' = log st ++ Generate chat_history :: evs /\ requests evs = []
      /\ match r with
         | Return (Single.Response response) =>
             tool_calls response = []
             /\ memory st' = memory st ++ [user_message; Assistant response]
             /\ tool_history st' = []
         | Return (Single.ToolHistory turns) =>
             exists new,
               answers (tool_calls (Single.llm_generate a chat_history (world st)).1) new
               /\ new <> []
               /\ turns = tool_history st ++ new
               /\ tool_history st' = turns
               /\ memory st' = memory st ++ [user_message]
         | Raise e =>
             memory st' = memory st ++ [user_message]
             /\ exists c, tool_failure (Single.executor a) c e
         end
  else
    exn_cls <$> (match r with Raise e => Some e | Return _ => None end) = Some AttributeError
    /\ memory st' = memory st ++ [user_message]
    /\ tool_history st' = tool_history st
    /\ log st' = log st.
Proof.
  intros Hrun chat_history. revert Hrun.
  unfold Single.run, bind at 1, Loop.add_message at 1.
  set (st1 := {| memory := memory st ++ [user_message]; tool_history := tool_history st;
                 world := world st; log := log st |}).
  destruct (Single.has_function_calls a); [| intros [= <- <-]; by repeat split].
  unfold bind at 1, Single.generate. change (world st1) with (world st).
  change ([Single.system_message a] ++ memory st1 ++ tool_history st1) with chat_history.
  destruct (Single.llm_generate a chat_history (world st)) as [response w1] eqn:Hgen.
  set (st2 := {| memory := memory st1; tool_history := tool_history st1;
                 world := w1; log := log st1 ++ [Generate chat_history] |}).
  cbn [fst].
  destruct (tool_calls response) as [| c calls] eqn:Hcalls.
  - intros [= <- <-]. exists []. simpl. repeat split; [done |].
    by rewrite <- app_assoc.
  - unfold bind.
    destruct (Single.execute_tool_calls (Single.executor a) (c :: calls) st2)
      as [[[] | e] st3] eqn:Hexec;
      apply execute_tool_calls_trace in Hexec as [Hmem Hres]; intros [= <- <-].
    + destruct Hres as (turns & evs & Hturns & Hans & Hlog & Hall).
      exists evs. split; [rewrite Hlog; simpl; by rewrite <- app_assoc |].
      split; [by eapply requests_invoked |].
      exists turns. repeat split; try done.
      intros ->. inversion Hans.
    + destruct Hres as (done & c' & rest & turns & evs & _ & _ & _ & Hlog & Hall & Hfail).
      exists evs. split; [rewrite Hlog; simpl; by rewrite <- app_assoc |].
      split; [destruct Hall as [Hall | Hall]; by eapply requests_invoked |].
      split; [done | by exists c'].
Qed.

(** X11. One [run] of the single-step agent asks the backend once,
    with the system message, the memory with the new user turn, and
    the tool history.  On a reply with tool calls it hands back its
    whole tool history: the result turns left by earlier runs, then
    one result turn per call; the reply itself is recorded neither in
    memory nor in the tool history.  On a reply without tool calls,
    memory gains the user turn and the reply and the tool history is
    emptied.  An agent built without tools records the user turn and
    fails with [AttributeError] before any request. *)
Theorem single_run_outcomes a user_message st :
  let r := (Single.run a user_message st).1 in
  let st' := (Single.run a user_message st).2 in
  let chat_history :=
    [Single.system_message a] ++ (memory st ++ [user_message]) ++ tool_history st in
  if Single.has_function_calls a then
    exists evs,
      log st' = log st ++ Generate chat_history :: evs /\ requests evs = []
      /\ match r with
         | Return (Single.Response response) =>
             tool_calls response = []
             /\ memory st' = memory st ++ [user_message; Assistant response]
             /\ tool_history st' = []
         | Return (Single.ToolHistory turns) =>
             exists new,
               answers (tool_calls (Single.llm_generate a chat_history (world st)).1) new
               /\ new <> []
               /\ turns = tool_history st ++ new
               /\ tool_history st' = turns
               /\ memory st' = memory st ++ [user_message]
         | Raise e =>
             memory st' = memory st ++ [user_message]
             /\ exists c, tool_failure (Single.executor a) c e
         end
  else
    exn_cls <$> (match r with Raise e => Some e | Return _ => None end) = Some AttributeError
    /\ memory st' = memory st ++ [user_message]
    /\ tool_history st' = tool_history st
    /\ log st' = log st.
Proof.
  intros r st'. subst r st'.
  destruct (Single.run a user_message st) as [r st'] eqn:Hrun.
  exact (single_run_spec _ _ _ _ _ Hrun).
Qed.

End SingleProps.

(** ** The prompt-driven agent of lesson 14 *)

Section PromptedProps.
Context {W : Type}.
Implicit Types (a : Prompted.Agent W) (st : state W).

Lemma prompted_run_spec a task st r st' :
  Prompted.run a task st = (r, st') ->
  let st1 := {| memory := memory st ++ [Dict "user" task]; tool_history := tool_history st;
                world := world st; log := log st |} in
  memory st' = memory st ++ [Dict "user" task]
  /\ tool_history st' = tool_history st
  /\ lm_calls (log st') <= lm_calls (log st) + 1
  /\ (Prompted.max_iterations a = 0 -> r = Return None /\ st' = st1)
  /\ forall chat_history,
       Prompted.max_iterations a <> 0 ->
       Prompted.messages_to_string st1 = Return chat_history ->
       let messages := [Dict "user" (Prompted.format_prompt a chat_history task)] in
       let response := (Prompted.llm_generate a messages (world st)).1 in
       lm_calls (log st') = lm_calls (log st) + 1
       /\ (ReAct.parse_response response = Return None ->
             exists msg, r = Raise (Exn TypeError msg None)
                         /\ st' = after_generate st1 messages
                                    (Prompted.llm_generate a messages (world st)).2).
Proof.
  intros Hrun st1. revert Hrun.
  unfold Prompted.run, bind at 1, Loop.add_message at 1. fold st1.
  destruct (Prompted.max_iterations a) as [| n] eqn:Hmax.
  { intros [= <- <-]. repeat split; try done. simpl. lia. }
  unfold Prompted.run_body.
  destruct (Prompted.messages_to_string st1) as [chat_history | e] eqn:Hstr.
  2: { intros [= <- <-]. repeat split; try done. simpl. lia. }
  unfold bind at 1, Prompted.generate. change (world st1) with (world st).
  set (messages := [Dict "user" (Prompted.format_prompt a chat_history task)]).
  destruct (Prompted.llm_generate a messages (world st)) as [response w1] eqn:Hgen.
  set (st2 := {| memory := memory st1; tool_history := tool_history st1;
                 world := w1; log := log st1 ++ [Generate messages] |}).
  assert (Hcalls : lm_calls (log st2) = lm_calls (log st) + 1).
  { simpl. rewrite lm_calls_app. reflexivity. }
  intros Hrun.
  assert (Hgoal : frame st2 st'
            /\ (ReAct.parse_response response = Return None ->
                  exists msg, r = Raise (Exn TypeError msg None) /\ st' = st2)).
  { revert Hrun. destruct (ReAct.parse_response response) as [[d |] | e].
    - destruct (dict_get "name" d) as [nm |], (dict_get "args_json" d) as [args |];
        try (intros [= <- <-]; split; [apply frame_refl | done]).
      unfold bind, Prompted.execute_action.
      destruct nm, args;
        try (intros [= <- <-]; split; [apply frame_refl | done]).
      destruct (execute _ _ _ st2) as [[v | e] st3] eqn:Hexec;
        apply execute_frame in Hexec; intros [= <- <-]; by split.
    - intros [= <- <-]. split; [apply frame_refl |]. intros _. by eexists.
    - intros [= <- <-]. split; [apply frame_refl | done]. }
  destruct Hgoal as [(Hm & Hh & Hc) Hnone].
  split; [exact Hm |]. split; [exact Hh |]. split; [lia |]. split; [done |].
  intros ch _ [= <-]. fold messages. rewrite Hgen. split; [lia | exact Hnone].
Qed.

(** X12. [run] of the agent of lesson 14 records the user task in
    memory and asks the backend at most once, whatever
    [max_iterations] is: nothing is recorded besides the task, and the
    tool history is untouched.  A reply that carries no action never
    reaches the caller: the call of [add_messages] with keywords the
    method does not take ends [run] with a [TypeError]. *)
Theorem prompted_run_one_request a task st :
  let r := (Prompted.run a task st).1 in
  let st' := (Prompted.run a task st).2 in
  let st1 := {| memory := memory st ++ [Dict "user" task]; tool_history := tool_history st;
                world := world st; log := log st |} in
  memory st' = memory st ++ [Dict "user" task]
  /\ tool_history st' = tool_history st
  /\ lm_calls (log st') <= lm_calls (log st) + 1
  /\ (Prompted.max_iterations a = 0 -> r = Return None /\ st' = st1)
  /\ forall chat_history,
       Prompted.max_iterations a <> 0 ->
       Prompted.messages_to_string st1 = Return chat_history ->
       let messages := [Dict "user" (Prompted.format_prompt a chat_history task)] in
       let response := (Prompted.llm_generate a messages (world st)).1 in
       lm_calls (log st') = lm_calls (log st) + 1
       /\ (ReAct.parse_response response = Return None ->
             exists msg, r = Raise (Exn TypeError msg None)
                         /\ st' = after_generate st1 messages
                                    (Prompted.llm_generate a messages (world st)).2).
Proof.
  intros r st'. subst r st'.
  destruct (Prompted.run a task st) as [r st'] eqn:Hrun.
  exact (prompted_run_spec _ _ _ _ _ Hrun).
Qed.

End PromptedProps.

(** ** The tool history over the iterations of a run *)

Lemma lm_calls_requests l : lm_calls l = length (requests l).
Proof.
  unfold lm_calls, requests. induction l as [| [ms | fn kw] l IH]; simpl; [done | | done].
  by rewrite IH.
Qed.

Lemma iteration_requests_length sent its closing :
  length (iteration_requests sent its closing)
  = length its + (if closing then 1 else 0).
Proof.
  revert sent. induction its as [| it its IH]; intros sent; simpl.
  - by destruct closing.
  - by rewrite IH.
Qed.

Section LoopHistory.
Context {W : Type}.
Implicit Types (a : Loop.Agent W) (st : state W) (response : completion).

(** One call of [parse_response]: without tool calls nothing changes;
    otherwise the reply and the results of its calls are appended to
    the tool history, up to the first call that fails. *)
Lemma loop_parse_response_turns a response st r st' :
  Loop.parse_response a response st = (r, st') ->
  memory st' = memory st
  /\ requests (log st') = requests (log st)
  /\ match r with
     | Return false => tool_calls response = [] /\ tool_history st' = tool_history st
     | Return true =>
         exists turns,
           tool_iteration (response, turns)
           /\ tool_history st' = tool_history st ++ Assistant response :: turns
     | Raise e =>
         exists done c rest turns,
           tool_calls response = done ++ c :: rest /\ answers done turns
           /\ tool_history st' = tool_history st ++ Assistant response :: turns
           /\ tool_failure (Loop.executor a) c e
     end.
Proof.
  unfold Loop.parse_response.
  destruct (tool_calls response) as [| c0 calls] eqn:Hcalls.
  - by intros [= <- <-].
  - unfold bind at 1, Loop.tool_history_append at 1.
    set (st1 := {| memory := memory st; tool_history := _;
                   world := world st; log := log st |}).
    unfold bind. rewrite loop_execute_tool_calls.
    destruct (Single.execute_tool_calls _ (c0 :: calls) st1) as [[[] | e] st2] eqn:Hexec;
      apply execute_tool_calls_trace in Hexec as [Hmem Hres]; intros [= <- <-].
    + destruct Hres as (turns & evs & Hturns & Hans & Hlog & Hall).
      split; [done |]. split.
      { rewrite Hlog, requests_app, (requests_invoked _ _ _ Hall). by rewrite app_nil_r. }
      exists turns. split.
      * unfold tool_iteration. cbn [fst snd]. by rewrite Hcalls.
      * rewrite Hturns. simpl. by rewrite <- app_assoc.
    + destruct Hres as (done & c & rest & turns & evs & Heq & Hturns & Hans & Hlog & Hall
                        & Hfail).
      split; [done |]. split.
      { rewrite Hlog, requests_app.
        destruct Hall as [Hall | Hall]; rewrite (requests_invoked _ _ _ Hall);
          by rewrite app_nil_r. }
      exists done, c, rest, turns. repeat split; try done.
      rewrite Hturns. simpl. by rewrite <- app_assoc.
Qed.

(** The loop of [run], from any state: the tool iterations made, what
    each request carried, and memory and tool history at the end. *)
Lemma run_loop_history a n : forall st r st',
  Loop.run_loop a n st = (r, st') ->
  let sent := [Loop.system_message a] ++ memory st ++ tool_history st in
  exists its,
    Forall tool_iteration its
    /\ match r with
       | Return (Some final) =>
           length its < n
           /\ (exists messages w, final = (Loop.llm_generate a messages w).1)
           /\ tool_calls final = []
           /\ requests (log st') = requests (log st) ++ iteration_requests sent its true
           /\ memory st' = memory st ++ [Assistant final]
           /\ tool_history st' = []
       | Return None =>
           length its = n
           /\ requests (log st') = requests (log st) ++ iteration_requests sent its false
           /\ memory st' = memory st
           /\ tool_history st' = tool_history st ++ tool_turns its
       | Raise e =>
           length its < n
           /\ requests (log st') = requests (log st) ++ iteration_requests sent its true
           /\ memory st' = memory st
           /\ exists response done c rest turns,
                tool_calls response = done ++ c :: rest /\ answers done turns
                /\ tool_history st'
                   = tool_history st ++ tool_turns its ++ Assistant response :: turns
                /\ tool_failure (Loop.executor a) c e
       end.
Proof.
  induction n as [| n IH]; intros st r st'.
  - intros [= <- <-] sent. exists []. split; [constructor |].
    simpl. by rewrite !app_nil_r.
  - cbn [Loop.run_loop]. unfold bind at 1, Loop.generate.
    set (chat_history := [Loop.system_message a] ++ memory st ++ tool_history st).
    destruct (Loop.llm_generate a chat_history (world st)) as [response w1] eqn:Hgen.
    set (st1 := {| memory := memory st; tool_history := tool_history st;
                   world := w1; log := log st ++ [Generate chat_history] |}).
    assert (Hreq1 : requests (log st1) = requests (log st) ++ [chat_history]).
    { simpl. by rewrite requests_app. }
    unfold bind at 1.
    destruct (Loop.parse_response a response st1) as [[[] | e] st2] eqn:Hparse;
      apply loop_parse_response_turns in Hparse as (Hm & Hreq & Hres);
      rewrite Hreq1 in Hreq; change (memory st1) with (memory st) in Hm;
      change (tool_history st1) with (tool_history st) in Hres.
    + destruct Hres as (turns & Hit & Hhist).
      intros Hloop. destruct (IH _ _ _ Hloop) as (its & Hall & Hrest).
      exists ((response, turns) :: its). split; [by constructor |].
      assert (Hsent : [Loop.system_message a] ++ memory st2 ++ tool_history st2
                      = chat_history ++ Assistant response :: turns).
      { rewrite Hm, Hhist. unfold chat_history. by rewrite <- !app_assoc. }
      rewrite Hsent, Hreq, Hm, Hhist in Hrest. cbn [iteration_requests tool_turns fst snd].
      destruct r as [[final |] | e].
      * destruct Hrest as (Hlen & Hfrom & Hnone & Hreqs & Hmem & Hclear).
        split_and!; [simpl; lia | exact Hfrom | exact Hnone | | exact Hmem | exact Hclear].
        rewrite Hreqs. by rewrite <- app_assoc.
      * destruct Hrest as (Hlen & Hreqs & Hmem & Hturns).
        split_and!; [simpl; lia | | exact Hmem |].
        -- rewrite Hreqs. by rewrite <- app_assoc.
        -- rewrite Hturns. by rewrite <- !app_assoc.
      * destruct Hrest as (Hlen & Hreqs & Hmem & response' & done & c & rest & turns'
                           & Hcalls & Hans & Hturns & Hfail).
        split_and!; [simpl; lia | | exact Hmem |].
        -- rewrite Hreqs. by rewrite <- app_assoc.
        -- exists response', done, c, rest, turns'.
           split_and!; [exact Hcalls | exact Hans | | exact Hfail].
           rewrite Hturns. by rewrite <- !app_assoc.
    + destruct Hres as [Hnone Hhist].
      unfold bind, Loop.add_message, Loop.tool_history_clear. simpl.
      intros [= <- <-]. exists []. split; [constructor |]. simpl.
      split_and!; [lia | | exact Hnone | by rewrite Hreq | by rewrite Hm | done].
      exists chat_history, (world st). by rewrite Hgen.
    + destruct Hres as (done & c & rest & turns & Hcalls & Hans & Hhist & Hfail).
      intros [= <- <-]. exists []. split; [constructor |]. simpl.
      split_and!; [lia | exact Hreq | exact Hm |].
      by exists response, done, c, rest, turns.
Qed.

(** C1, as the code has it.  One call of [run] asks the backend at
    most [max_iterations] times and ends with a value or with the
    [ValueError] of a failed tool.  When the backend requests a tool
    on every turn, [run] either ends with that error or asks exactly
    [max_iterations] times and returns [None], the value of a function
    that ends without [return]: nothing reports that the budget was
    used up.  The user turn is then in memory, and the tool history
    holds, after what it held before, the turns of [max_iterations]
    tool iterations: for each its reply and one tool-result turn per
    call. *)
Theorem run_within_budget a user_message st :
  let r := (Loop.run a user_message st).1 in
  let st' := (Loop.run a user_message st).2 in
  lm_calls (log st') <= lm_calls (log st) + Loop.max_iterations a
  /\ (always_requests a ->
        (exists e, r = Raise e /\ exn_cls e = ValueError)
        \/ (r = Return None
            /\ lm_calls (log st') = lm_calls (log st) + Loop.max_iterations a
            /\ memory st' = memory st ++ [user_message]
            /\ exists its,
                 length its = Loop.max_iterations a
                 /\ Forall tool_iteration its
                 /\ tool_history st' = tool_history st ++ tool_turns its)).
Proof.
  unfold Loop.run, bind, Loop.add_message. simpl.
  set (st0 := {| memory := memory st ++ [user_message];
                 tool_history := tool_history st;
                 world := world st; log := log st |}).
  destruct (Loop.run_loop a (Loop.max_iterations a) st0) as [r st'] eqn:Hloop.
  pose proof (run_loop_history _ _ _ _ _ Hloop) as (its & Hall & Hhist).
  apply run_loop_spec in Hloop as [Hle Hres]. simpl in *.
  split; [exact Hle |]. intros Halways.
  destruct r as [[final |] | e].
  - destruct Hres as (_ & _ & Hnone & messages & w & ->).
    by destruct (Halways messages w).
  - right. destruct Hres as (Hmem & _ & Hcount).
    destruct Hhist as (Hlen & _ & _ & Hturns).
    repeat split; try done. by exists its.
  - left. exists e. split; [done | by destruct Hres as (_ & _ & ?)].
Qed.

(** C5.  In one call of [run] the turns of the tool iterations
    accumulate in the tool history: every request carries, after the
    system message, memory with the user turn and the tool history
    held before, the reply and the tool-result turns of all the
    iterations made so far, none dropped between iterations.  When
    the call returns a final answer, and only then, the tool history
    is emptied: memory holds the user turn and the answer after what
    it held before.  When the iterations are used up, or a tool fails,
    memory gained the user turn only and the tool history holds all
    it held and gained, up to the results of the calls made before
    the failure. *)
Theorem run_tool_history a user_message st :
  let r := (Loop.run a user_message st).1 in
  let st' := (Loop.run a user_message st).2 in
  let sent :=
    [Loop.system_message a] ++ (memory st ++ [user_message]) ++ tool_history st in
  exists its,
    Forall tool_iteration its
    /\ length its <= Loop.max_iterations a
    /\ match r with
       | Return (Some final) =>
           tool_calls final = []
           /\ requests (log st') = requests (log st) ++ iteration_requests sent its true
           /\ memory st' = memory st ++ [user_message; Assistant final]
           /\ tool_history st' = []
       | Return None =>
           length its = Loop.max_iterations a
           /\ requests (log st') = requests (log st) ++ iteration_requests sent its false
           /\ memory st' = memory st ++ [user_message]
           /\ tool_history st' = tool_history st ++ tool_turns its
       | Raise e =>
           requests (log st') = requests (log st) ++ iteration_requests sent its true
           /\ memory st' = memory st ++ [user_message]
           /\ exists response done c rest turns,
                tool_calls response = done ++ c :: rest /\ answers done turns
                /\ tool_history st'
                   = tool_history st ++ tool_turns its ++ Assistant response :: turns
       end.
Proof.
  unfold Loop.run, bind, Loop.add_message. simpl.
  set (st0 := {| memory := memory st ++ [user_message];
                 tool_history := tool_history st;
                 world := world st; log := log st |}).
  destruct (Loop.run_loop a (Loop.max_iterations a) st0) as [r st'] eqn:Hloop.
  pose proof (run_loop_history _ _ _ _ _ Hloop) as (its & Hall & Hhist).
  simpl in *. exists its. split; [exact Hall |].
  destruct r as [[final |] | e].
  - destruct Hhist as (Hlen & _ & Hnone & Hreqs & Hmem & Hclear).
    split; [lia |]. repeat split; try done. rewrite Hmem. by rewrite <- app_assoc.
  - destruct Hhist as (Hlen & Hreqs & Hmem & Hturns). split; [lia | done].
  - destruct Hhist as (Hlen & Hreqs & Hmem & response & done & c & rest & turns
                       & Hcalls & Hans & Hturns & _).
    split; [lia |]. repeat split; try done. by exists response, done, c, rest, turns.
Qed.

End LoopHistory.

Lemma run_within_budget_witness :
  let r := (Loop.run requesting_agent user_message (Loop.initial_state 0)).1 in
  let st' := (Loop.run requesting_agent user_message (Loop.initial_state 0)).2 in
  let result := ToolMessage "call_1" "get_weather" "Virginia: 70F." in
  lm_calls (log st') <= 3
  /\ r = Return None
  /\ lm_calls (log st') = 3
  /\ memory st' = [user_message]
  /\ (exists its,
        length its = 3 /\ Forall tool_iteration its /\ tool_history st' = tool_turns its)
  /\ tool_history st'
     = [Assistant request_virginia; result;
        Assistant request_virginia; result;
        Assistant request_virginia; result].
Proof.
  intros r st' result.
  destruct (run_within_budget requesting_agent user_message (Loop.initial_state 0))
    as [Hle Hrequests].
  split; [exact Hle |].
  destruct (Hrequests requesting_llm_always_requests)
    as [(e & He & _) | (Hr & Hcount & Hmem & Hits)].
  - vm_compute in He. discriminate.
  - split; [exact Hr |]. split; [exact Hcount |]. split; [exact Hmem |].
    split; [exact Hits |]. vm_compute. reflexivity.
Defined.

Lemma run_tool_history_witness :
  let st' := (Loop.run requesting_agent user_message (Loop.initial_state 0)).2 in
  let result := ToolMessage "call_1" "get_weather" "Virginia: 70F." in
  let sent := [system_message; user_message] in
  exists its,
    its = [(request_virginia, [result]); (request_virginia, [result]);
           (request_virginia, [result])]
    /\ requests (log st')
       = [sent;
          sent ++ [Assistant request_virginia; result];
          sent ++ [Assistant request_virginia; result; Assistant request_virginia; result]]
    /\ memory st' = [user_message]
    /\ tool_history st' = tool_turns its.
Proof.
  intros st' result sent.
  destruct (run_tool_history requesting_agent user_message (Loop.initial_state 0))
    as (its & Hall & Hlen & Hrun).
  change (Loop.run requesting_agent user_message (Loop.initial_state 0)).1
    with (@Return (option completion) None) in Hrun.
  destruct Hrun as (_ & Hreqs & Hmem & Hturns).
  eexists. split; [reflexivity |].
  split; [vm_compute; reflexivity |]. split; [exact Hmem |]. vm_compute. reflexivity.
Defined.

(** ** The ReAct loop as a whole *)

Section ReActProps.
Context {W : Type}.
Implicit Types (a : ReAct.Agent W) (st : state W).

(** What an execution leaves in the log is no request. *)
Lemma execute_quiet (tools : gmap string (AgentTool W)) nm args st r st' :
  execute tools nm args st = (r, st') ->
  memory st' = memory st /\ tool_history st' = tool_history st
  /\ exists evs,
       log st' = log st ++ evs /\ requests evs = [] /\ Forall (well_called tools) evs.
Proof.
  intros H. destruct (execute_log _ _ _ _ _ _ H) as (Hm & Hh & Hlog & _).
  split; [done |]. split; [done |].
  destruct Hlog as [Hlog | (ev & Hinv & Hlog)].
  - exists []. rewrite app_nil_r. repeat split; try done; try constructor.
  - exists [ev]. split; [done |]. split.
    + by destruct Hinv as (tool & d & validated & _ & _ & _ & _ & ->).
    + constructor; [| constructor]. right. by eexists _, _.
Qed.

Lemma execute_action_quiet a action_name action_arguments st r st' :
  ReAct.execute_action a action_name action_arguments st = (r, st') ->
  memory st' = memory st /\ tool_history st' = tool_history st
  /\ exists evs,
       log st' = log st ++ evs /\ requests evs = []
       /\ Forall (well_called (ReAct.executor a)) evs.
Proof.
  assert (Hsame : memory st = memory st /\ tool_history st = tool_history st
            /\ exists evs,
                 log st = log st ++ evs /\ requests evs = []
                 /\ Forall (well_called (ReAct.executor a)) evs).
  { repeat split. exists []. rewrite app_nil_r. repeat split; try done; try constructor. }
  unfold ReAct.execute_action.
  destruct action_name, action_arguments; try (intros [= <- <-]; exact Hsame).
  apply execute_quiet.
Qed.

Lemma run_loop_scratchpad a task chat_history n : forall react_loop st r st',
  ReAct.run_loop a task chat_history n react_loop st = (r, st') ->
  tool_history st' = tool_history st
  /\ exists evs rls,
       log st' = log st ++ evs
       /\ requests evs
          = map (fun rl => [Dict "user" (ReAct.format_prompt a chat_history task rl)]) rls
       /\ Forall (fun rl => exists z, rl = react_loop +:+ z) rls
       /\ extending rls
       /\ length rls <= n
       /\ (n <> 0 -> exists tl, rls = react_loop :: tl)
       /\ Forall (well_called (ReAct.executor a)) evs
       /\ match r with
          | Return (Some answer) => memory st' = memory st ++ [Dict "user" task; answer]
          | Return None => memory st' = memory st /\ length rls = n
          | Raise _ => memory st' = memory st
          end.
Proof.
  induction n as [| n IH]; intros react_loop st r st'.
  - intros [= <- <-]. split; [done |]. exists [], []. rewrite app_nil_r.
    repeat split; try done; constructor.
  - cbn [ReAct.run_loop]. unfold bind at 1, ReAct.generate.
    set (messages := [Dict "user" (ReAct.format_prompt a chat_history task react_loop)]).
    destruct (ReAct.llm_generate a messages (world st)) as [response w1] eqn:Hgen.
    set (st1 := {| memory := memory st; tool_history := tool_history st;
                   world := w1; log := log st ++ [Generate messages] |}).
    assert (Hself : exists z, react_loop = react_loop +:+ z).
    { exists "". clear. induction react_loop as [| c s IH]; [done |].
      rewrite string_app_cons. by f_equal. }
    assert (Hstop : forall (r0 : result (option message)),
              match r0 with
              | Return (Some _) | Return None => False
              | Raise _ => True
              end ->
              tool_history st1 = tool_history st
              /\ exists evs rls,
                   log st1 = log st ++ evs
                   /\ requests evs
                      = map (fun rl =>
                               [Dict "user" (ReAct.format_prompt a chat_history task rl)]) rls
                   /\ Forall (fun rl => exists z, rl = react_loop +:+ z) rls
                   /\ extending rls
                   /\ length rls <= S n
                   /\ (S n <> 0 -> exists tl, rls = react_loop :: tl)
                   /\ Forall (well_called (ReAct.executor a)) evs
                   /\ match r0 with
                      | Return (Some answer) =>
                          memory st1 = memory st ++ [Dict "user" task; answer]
                      | Return None => memory st1 = memory st /\ length rls = S n
                      | Raise _ => memory st1 = memory st
                      end).
    { intros r0 Hr0. split; [done |]. exists [Generate messages], [react_loop].
      repeat split; try done; try (by repeat constructor); try (simpl; lia);
        try (by eexists); try constructor.
      by destruct r0 as [[|] |]. }
    destruct (ReAct.parse_response response) as [[d |] | e].
    + destruct (dict_get "name" d) as [nm |], (dict_get "args_json" d) as [args |];
        try (unfold raise; intros [= <- <-]; exact (Hstop (Raise (Exn KeyError "k" None)) I)).
      unfold bind at 1.
      destruct (ReAct.execute_action a nm args st1) as [[v | e] st2] eqn:Hexec;
        apply execute_action_quiet in Hexec as (Hm & Hh & evs1 & Hlog1 & Hreq1 & Hwell1).
      * intros Hloop.
        destruct (IH _ _ _ _ Hloop)
          as (Hh2 & evs2 & rls & Hlog2 & Hreq2 & Hall & Hext & Hlen & _ & Hwell2 & Hres).
        split; [by rewrite Hh2, Hh |].
        exists ([Generate messages] ++ evs1 ++ evs2), (react_loop :: rls).
        assert (Hall' : Forall (fun rl => exists z, rl = react_loop +:+ z) rls).
        { eapply Forall_impl; [exact Hall |]. intros rl [z ->].
          eexists. by rewrite string_app_assoc. }
        repeat split.
        -- rewrite Hlog2, Hlog1. simpl. by rewrite <- !app_assoc.
        -- rewrite !requests_app, Hreq1, Hreq2. reflexivity.
        -- by constructor.
        -- done.
        -- done.
        -- simpl. lia.
        -- by eexists.
        -- apply Forall_app. split; [by repeat constructor | by apply Forall_app].
        -- destruct r as [[answer |] |]; simpl.
           ++ by rewrite Hres, Hm.
           ++ destruct Hres as [Hres Hn]. split; [by rewrite Hres, Hm | by rewrite Hn].
           ++ by rewrite Hres, Hm.
      * intros [= <- <-]. split; [by rewrite Hh |].
        exists ([Generate messages] ++ evs1), [react_loop].
        split; [rewrite Hlog1; simpl; by rewrite <- app_assoc |].
        split; [rewrite requests_app, Hreq1; reflexivity |].
        split; [by constructor |]. split; [by repeat constructor |].
        split; [simpl; lia |]. split; [by eexists |].
        split; [apply Forall_app; split; [by repeat constructor | done] |].
        exact Hm.
    + unfold bind, ReAct.add_messages. intros [= <- <-]. split; [done |].
      exists [Generate messages], [react_loop].
      repeat split; try done; try (by repeat constructor); try (simpl; lia);
        try (by eexists); try constructor.
    + unfold raise. intros [= <- <-]. exact (Hstop (Raise (Exn KeyError "k" None)) I).
Qed.

(** X13. One [run] of the ReAct agent never touches the tool history
    and writes memory only when it ends with an answer: the task and
    the answer are then appended.  When it ends with an exception, or
    uses up its iterations and hands back [None], memory is as before:
    the task is not recorded.  Every prompt is built from the chat
    history as it was when [run] began, the task, and a scratchpad
    that starts empty and only grows; there are at most
    [max_iterations] prompts, and exactly that many when the
    iterations are used up. *)
Theorem react_run_memory_and_scratchpad a task st :
  let r := (ReAct.run a task st).1 in
  let st' := (ReAct.run a task st).2 in
  let prompt rl :=
    [Dict "user" (ReAct.format_prompt a (ReAct.messages_to_string st) task rl)] in
  tool_history st' = tool_history st
  /\ exists evs rls,
       log st' = log st ++ evs
       /\ requests evs = map prompt rls
       /\ extending rls
       /\ length rls <= ReAct.max_iterations a
       /\ (rls = [] \/ exists tl, rls = "" :: tl)
       /\ match r with
          | Return (Some answer) => memory st' = memory st ++ [Dict "user" task; answer]
          | Return None =>
              memory st' = memory st /\ length rls = ReAct.max_iterations a
          | Raise _ => memory st' = memory st
          end.
Proof.
  intros r st' prompt. subst r st'. unfold ReAct.run.
  destruct (ReAct.run_loop a task (ReAct.messages_to_string st)
              (ReAct.max_iterations a) "" st) as [r st'] eqn:Hloop.
  destruct (run_loop_scratchpad _ _ _ _ _ _ _ _ Hloop)
    as (Hh & evs & rls & Hlog & Hreq & _ & Hext & Hlen & Hhead & _ & Hres).
  split; [done |]. exists evs, rls. repeat split; try done.
  destruct (ReAct.max_iterations a) as [| n]; [| right; by apply Hhead].
  left. destruct rls; [done | simpl in Hlen; lia].
Qed.

(** X14. The ReAct agent never calls a function it was not given,
    and never with arguments that were not validated: every event of
    a [run] is a request to the LM client or the call of the function
    wrapped by a registered tool, made after the model of the tool
    accepted the dumped arguments, with the arguments the model
    validated. *)
Theorem react_run_calls_only_validated_tools a task st :
  let st' := (ReAct.run a task st).2 in
  exists evs,
    log st' = log st ++ evs /\ Forall (well_called (ReAct.executor a)) evs.
Proof.
  intros st'. subst st'. unfold ReAct.run.
  destruct (ReAct.run_loop a task (ReAct.messages_to_string st)
              (ReAct.max_iterations a) "" st) as [r st'] eqn:Hloop.
  destruct (run_loop_scratchpad _ _ _ _ _ _ _ _ Hloop)
    as (_ & evs & rls & Hlog & _ & _ & _ & _ & _ & Hwell & _).
  by exists evs.
Qed.

End ReActProps.

(** ** Conversation memory *)

Section MemoryProps.
Context {W : Type}.
Implicit Types (st : state W).

Lemma add_messages_spec messages : forall st,
  Memory.add_messages messages st
  = (Return tt,
     {| memory := memory st ++ messages; tool_history := tool_history st;
        world := world st; log := log st |}).
Proof.
  induction messages as [| m messages IH]; intros st.
  - simpl. unfold ret. rewrite app_nil_r. by destruct st.
  - cbn [Memory.add_messages]. unfold bind, Loop.add_message. rewrite IH. simpl.
    by rewrite <- app_assoc.
Qed.

(** X15. [add_messages] appends the turns, in their order, after what
    memory holds, and changes nothing else: it does what one
    [list.extend] would do.  Reading memory afterwards gives the old
    turns followed by the new ones; after [reset_memory], the new ones
    alone. *)
Theorem add_messages_appends_in_order messages st :
  Memory.add_messages messages st = ReAct.add_messages messages st
  /\ (bind (Memory.add_messages messages) (fun _ => Memory.get_messages) st).1
     = Return (memory st ++ messages)
  /\ (bind Memory.reset_memory
        (fun _ => bind (Memory.add_messages messages) (fun _ => Memory.get_messages)) st).1
     = Return messages.
Proof.
  split; [apply add_messages_spec |].
  unfold bind, Memory.reset_memory. rewrite !add_messages_spec. done.
Qed.

End MemoryProps.

(** ** The function-calling definition *)

Lemma dict_pop_absent {V} k (d : list (string * V)) : k ∉ d.*1 -> Schema.dict_pop k d = d.
Proof.
  induction d as [| [k' v] d IH]; [done |]. intros Hk. rewrite fmap_cons in Hk.
  apply not_elem_of_cons in Hk as [Hne Hk]. cbn [Schema.dict_pop].
  destruct (String.eqb_spec k k') as [-> | _]; [done |]. by rewrite IH.
Qed.

Lemma filter_key_absent {V} k (d : list (string * V)) :
  k ∉ d.*1 -> filter (fun kv => kv.1 <> k) d = d.
Proof.
  induction d as [| [k' v] d IH]; [done |]. intros Hk. rewrite fmap_cons in Hk.
  apply not_elem_of_cons in Hk as [Hne Hk].
  rewrite filter_cons_True by (simpl; intros ?; by subst). by rewrite IH.
Qed.

Lemma dict_pop_filter {V} k (d : list (string * V)) :
  NoDup d.*1 -> Schema.dict_pop k d = filter (fun kv => kv.1 <> k) d.
Proof.
  induction d as [| [k' v] d IH]; [done |]. rewrite fmap_cons. intros Hnd.
  apply NoDup_cons in Hnd as [Hk' Hnd]. cbn [Schema.dict_pop].
  destruct (String.eqb_spec k k') as [-> | Hne].
  - rewrite filter_cons_False by (simpl; tauto). by rewrite filter_key_absent.
  - rewrite filter_cons_True by (simpl; intros ?; by subst). by rewrite IH.
Qed.

Lemma filter_keys_NoDup {V} (P : string * V -> Prop) `{!forall x, Decision (P x)}
    (d : list (string * V)) :
  NoDup d.*1 -> NoDup (filter P d).*1.
Proof.
  induction d as [| [k v] d IH]; [done |]. rewrite fmap_cons. intros Hnd.
  apply NoDup_cons in Hnd as [Hk Hnd]. destruct (decide (P (k, v))) as [Hp | Hp].
  - rewrite filter_cons_True by done. rewrite fmap_cons. apply NoDup_cons. split; [| by apply IH].
    intros Hin. apply Hk. apply list_elem_of_fmap in Hin as (x & -> & Hx).
    apply list_elem_of_fmap. exists x. split; [done |]. by apply list_elem_of_filter in Hx as [_ Hx].
  - rewrite filter_cons_False by done. by apply IH.
Qed.

Lemma dict_get_filter {V} (P : string * V -> Prop) `{!forall x, Decision (P x)}
    k (d : list (string * V)) :
  (forall v, P (k, v)) -> dict_get k (filter P d) = dict_get k d.
Proof.
  intros Hk. induction d as [| [k' v] d IH]; [done |]. cbn [dict_get].
  destruct (decide (P (k', v))) as [Hp | Hp].
  - rewrite filter_cons_True by done. cbn [dict_get]. by rewrite IH.
  - rewrite filter_cons_False by done. rewrite IH.
    destruct (String.eqb_spec k k') as [-> | _]; [| done]. by destruct Hp.
Qed.

(** X16. The function-calling definition of a tool carries, as
    [parameters], the schema of the argument model without its
    top-level [title] and [description], the other entries in their
    order (titles and descriptions nested deeper are kept); its
    [description] is the one of the schema, the empty text when the
    schema has none.  The stand-alone function of lesson 9 builds the
    same dictionary but for that default. *)
Theorem function_call_definition_parameters {W} (t : AgentTool W)
    (model_json_schema : list (string * json)) :
  NoDup model_json_schema.*1 ->
  let parameters :=
    filter (fun kv => kv.1 <> "description")
      (filter (fun kv => kv.1 <> "title") model_json_schema) in
  let definition description :=
    JObj [("type", JStr "function");
          ("function",
           JObj [("name", JStr (name t));
                 ("description", description);
                 ("parameters", JObj parameters)])] in
  Schema.to_openai_function_call_definition t model_json_schema
  = definition (default (JStr "") (dict_get "description" model_json_schema))
  /\ Schema.to_openai_function_call_definition_9 (name t) model_json_schema
     = definition (default (JStr "No description provided")
                     (dict_get "description" model_json_schema))
  /\ dict_get "title" parameters = None
  /\ dict_get "description" parameters = None
  /\ forall k, k <> "title" -> k <> "description" ->
       dict_get k parameters = dict_get k model_json_schema.
Proof.
  intros Hnd parameters definition.
  assert (Hnd1 : NoDup (filter (fun kv : string * json => kv.1 <> "title") model_json_schema).*1)
    by (by apply filter_keys_NoDup).
  assert (Hnd2 : NoDup (filter (fun kv : string * json => kv.1 <> "description")
                          model_json_schema).*1)
    by (by apply filter_keys_NoDup).
  assert (Hget : forall k (d : list (string * json)),
            dict_get k (filter (fun kv => kv.1 <> k) d) = None).
  { intros k d. induction d as [| [k' v] d IH]; [done |].
    destruct (decide (k' = k)) as [-> | Hne].
    - by rewrite filter_cons_False by (simpl; tauto).
    - rewrite filter_cons_True by done. cbn [dict_get].
      destruct (String.eqb_spec k k') as [-> | _]; [done | exact IH]. }
  repeat split.
  - unfold Schema.to_openai_function_call_definition, Schema.args_schema, definition, parameters.
    rewrite (dict_pop_filter "title") by done.
    rewrite (dict_pop_filter "description") by done.
    by rewrite dict_get_filter by (intros v; simpl; intros ?; by subst).
  - unfold Schema.to_openai_function_call_definition_9, definition, parameters.
    rewrite (dict_pop_filter "description") by done.
    rewrite (dict_pop_filter "title") by done.
    assert (Hcomm : filter (fun kv : string * json => kv.1 <> "title")
                      (filter (fun kv : string * json => kv.1 <> "description")
                         model_json_schema)
                    = filter (fun kv : string * json => kv.1 <> "description")
                        (filter (fun kv : string * json => kv.1 <> "title")
                           model_json_schema)).
    { rewrite !list_filter_filter. apply list_filter_iff. intros x. tauto. }
    by rewrite Hcomm.
  - unfold parameters. rewrite dict_get_filter by (intros v; simpl; intros ?; by subst). apply Hget.
  - apply Hget.
  - intros k Hk1 Hk2. unfold parameters.
    by rewrite !dict_get_filter by (intros v; simpl; intros ?; by subst).
Qed.

(** ** Conversations of the memory agent *)

Section ConversationProps.
Context {W : Type}.
Implicit Types (a : Memory.Agent W) (st : state W).

Lemma memory_run_spec a user_message st :
  let chat_history := [Memory.system_message a] ++ memory st ++ [user_message] in
  let response := (Memory.llm_generate a chat_history (world st)).1 in
  Memory.run a user_message st
  = (Return response,
     {| memory := memory st ++ [user_message; Assistant response];
        tool_history := tool_history st;
        world := (Memory.llm_generate a chat_history (world st)).2;
        log := log st ++ [Generate chat_history] |}).
Proof.
  intros chat_history response. subst response.
  unfold Memory.run, bind, Loop.add_message, Memory.generate.
  cbn [memory tool_history world log]. fold chat_history.
  destruct (Memory.llm_generate a chat_history (world st)) as [response w1].
  unfold ret. cbn [memory tool_history world log fst snd].
  by rewrite <- app_assoc.
Qed.

Lemma prompts_increasing sys users : forall mem responses,
  increasing (prompts sys mem users responses)
  /\ Forall (fun messages => exists added, messages = [sys] ++ mem ++ added)
            (prompts sys mem users responses).
Proof.
  induction users as [| u users IH]; intros mem [| r responses]; try (by split; constructor).
  cbn [prompts]. destruct (IH (mem ++ [u; Assistant r]) responses) as [Hinc Hall].
  assert (Hext : Forall (fun messages => exists added, messages = [sys] ++ mem ++ [u] ++ added)
                   (prompts sys (mem ++ [u; Assistant r]) users responses)).
  { eapply Forall_impl; [exact Hall |]. intros messages [added ->].
    exists (Assistant r :: added). by rewrite <- !app_assoc. }
  split; [split; [| done] | constructor; [by eexists |]].
  - eapply Forall_impl; [exact Hext |]. intros messages [added ->].
    exists added. by rewrite <- !app_assoc.
  - eapply Forall_impl; [exact Hext |]. intros messages [added ->]. by eexists.
Qed.

(** X17. Across any sequence of [run] calls of the memory agent
    nothing said earlier is forgotten: every call succeeds, memory
    gains the user turn and the reply of each call in order, the
    request of each call is the system message followed by the whole
    memory and the new user turn, and every request extends the one
    before it. *)
Theorem conversation_is_remembered a users st :
  exists responses evs st',
    converse a users st = (Return responses, st')
    /\ length responses = length users
    /\ memory st' = memory st ++ dialogue users responses
    /\ tool_history st' = tool_history st
    /\ log st' = log st ++ evs
    /\ requests evs = prompts (Memory.system_message a) (memory st) users responses
    /\ length evs = length users
    /\ increasing (requests evs).
Proof.
  revert st. induction users as [| u users IH]; intros st.
  - exists [], [], st. simpl. rewrite !app_nil_r. by repeat split.
  - cbn [converse]. unfold bind at 1. rewrite memory_run_spec.
    set (chat_history := [Memory.system_message a] ++ memory st ++ [u]).
    set (response := (Memory.llm_generate a chat_history (world st)).1).
    set (st1 := {| memory := memory st ++ [u; Assistant response];
                   tool_history := tool_history st;
                   world := (Memory.llm_generate a chat_history (world st)).2;
                   log := log st ++ [Generate chat_history] |}).
    destruct (IH st1) as (responses & evs & st' & Hrun & Hlen & Hmem & Hh & Hlog & Hreq & Hevs & _).
    exists (response :: responses), (Generate chat_history :: evs), st'.
    unfold bind. rewrite Hrun.
    assert (Hreqs : requests (Generate chat_history :: evs)
                    = prompts (Memory.system_message a) (memory st) (u :: users)
                        (response :: responses)).
    { change (requests (Generate chat_history :: evs)) with (chat_history :: requests evs).
      by rewrite Hreq. }
    split; [done |]. split; [simpl; by rewrite Hlen |].
    split; [rewrite Hmem; simpl; by rewrite <- app_assoc |].
    split; [done |]. split; [rewrite Hlog; simpl; by rewrite <- app_assoc |].
    split; [done |]. split; [simpl; by rewrite Hevs |].
    rewrite Hreqs. apply prompts_increasing.
Qed.

End ConversationProps.

(** ** The outcomes of [parse_response] *)

Lemma scan_object_fuel f :
  (forall depth acc s v r,
     parse_members f depth acc s = Scanned v r -> exists d, v = JObj d).
Proof.
  induction f as [| f IH]; intros depth acc s v r; [discriminate |].
  cbn [parse_members]. destruct (scanstring s) as [key s1 | | | | |]; try discriminate.
  destruct (skip_ws s1) as [| c s2]; [discriminate |].
  destruct (Ascii.eqb c ":"); [| discriminate].
  destruct (scan_once f depth (skip_ws s2)) as [v0 s3 | | | | |]; try discriminate.
  destruct (skip_ws s3) as [| c4 s4]; [discriminate |].
  destruct (Ascii.eqb c4 "}"); [intros [= <- <-]; by eexists |].
  destruct (Ascii.eqb c4 ","); [| discriminate].
  destruct (skip_ws s4) as [| c5 s5]; [discriminate |].
  destruct (Ascii.eqb c5 dquote); [| discriminate]. apply IH.
Qed.

(** A text that starts with an opening brace decodes to a dictionary
    or not at all. *)
Lemma decode_brace s v r : decode (String "{" s) = Scanned v r -> exists d, v = JObj d.
Proof.
  unfold decode. change (skip_ws (String "{" s)) with (String "{" s).
  destruct (fuel_for (String "{" s)) as [| f]; [discriminate |].
  change (scan_once (S f) max_nesting (String "{" s))
    with (match max_nesting with
          | O => RecursionLimit
          | S depth' =>
              match skip_ws s with
              | String c1 s1 =>
                  if Ascii.eqb c1 "}" then Scanned (JObj []) s1
                  else if Ascii.eqb c1 dquote then parse_members f depth' [] s1
                  else DecodeError
              | "" => DecodeError
              end
          end).
  destruct max_nesting as [| depth']; [discriminate |].
  destruct (skip_ws s) as [| c1 s1]; [discriminate |].
  destruct (Ascii.eqb c1 "}").
  - destruct (skip_ws s1); [intros [= <- <-]; by eexists | discriminate].
  - destruct (Ascii.eqb c1 dquote); [| discriminate].
    destruct (parse_members f depth' [] s1) as [v0 r0 | | | | |] eqn:Hm; try discriminate.
    destruct (skip_ws r0); [| discriminate]. intros [= <- <-].
    by eapply scan_object_fuel.
Qed.

Lemma loads_brace s v : loads (String "{" s) = Some v -> exists d, v = JObj d.
Proof.
  unfold loads. destruct (decode (String "{" s)) as [v0 r | | | | |] eqn:Hd; try discriminate.
  intros [= <-]. by eapply decode_brace.
Qed.

Lemma rstrip_head c s : is_space c = false -> exists t, rstrip (String c s) = String c t.
Proof. intros Hc. cbn [rstrip]. destruct (rstrip s); [rewrite Hc |]; by eexists. Qed.

Lemma strip_balanced span : balanced span -> exists t, strip span = String "{" t.
Proof. intros [body _]. unfold strip. cbn [lstrip]. by apply rstrip_head. Qed.

(** X18. What [parse_response] of the text protocol answers, and no
    other.  No balanced brace part: [None].  A balanced part that
    decodes: the decoded value is always a dictionary, and the action
    is that dictionary with [args_json] set to the dumped
    [arguments], or a [KeyError] when it has no [arguments].  A
    balanced part on which [json.loads] raises [JSONDecodeError]: the
    [ValueError] "Invalid JSON in action content".  The two other
    exceptions of [json.loads] are not caught and leave the function
    as they are: the [ValueError] of an integer of more than 4300
    digits, and the [RecursionError] of objects and arrays nested
    beyond the limit.  A reply without content: [AttributeError].
    Where the brace part holds a [\u] escape of a code point of 256
    or more, the answer is marked [Unrepresentable] and says nothing
    of the code. *)
Theorem parse_response_outcomes response :
  match ReAct.parse_response response with
  | Return None =>
      exists text, content response = Some text /\ search (ReAct.normalize text) = None
  | Return (Some action_dict) =>
      exists text span d arguments,
        content response = Some text
        /\ search (ReAct.normalize text) = Some span
        /\ loads (strip span) = Some (JObj d)
        /\ dict_get "arguments" d = Some arguments
        /\ action_dict = dict_set "args_json" (JStr (dumps arguments)) d
  | Raise e =>
      (content response = None /\ exn_cls e = AttributeError)
      \/ exists text span,
           content response = Some text
           /\ search (ReAct.normalize text) = Some span
           /\ ((decode (strip span) = DecodeError
                /\ e = Exn ValueError "Invalid JSON in action content" None)
               \/ (decode (strip span) = DigitsLimit
                   /\ exn_cls e = ValueError
                   /\ exn_str e <> "Invalid JSON in action content")
               \/ (decode (strip span) = RecursionLimit /\ exn_cls e = RecursionError)
               \/ (decode (strip span) = WideCharacter /\ exn_cls e = Unrepresentable)
               \/ exists d,
                    loads (strip span) = Some (JObj d)
                    /\ dict_get "arguments" d = None
                    /\ e = Exn KeyError "'arguments'" None)
  end.
Proof.
  unfold ReAct.parse_response. destruct (content response) as [text |]; [| by left].
  destruct (search (ReAct.normalize text)) as [span |] eqn:Hs; [| by exists text].
  destruct (strip_balanced span (search_found _ _ Hs)) as [t Ht].
  pose proof (decode_fuel (strip span)) as Hfuel.
  unfold json_loads.
  destruct (decode (strip span)) as [v r | | | | |] eqn:Hd; try done.
  - assert (Hv : exists d, v = JObj d) by (rewrite Ht in Hd; by eapply decode_brace).
    destruct Hv as [d ->].
    assert (Hl : loads (strip span) = Some (JObj d)) by (unfold loads; by rewrite Hd).
    destruct (dict_get "arguments" d) as [arguments |] eqn:Ha.
    + by exists text, span, d, arguments.
    + right. exists text, span. repeat split; try done. do 4 right. by exists d.
  - right. exists text, span. repeat split; try done. by left.
  - right. exists text, span. repeat split; try done. right. by left.
  - right. exists text, span. repeat split; try done. do 2 right. by left.
  - right. exists text, span. repeat split; try done. do 3 right. by left.
Qed.

(** X2. A text with neither backslash nor doubled brace is searched as
    it stands: the two rewriting steps leave it unchanged.  What
    [parse_nested_json] then returns other than [None] is a
    dictionary, decoded from the balanced part of the text itself
    that starts leftmost; and when the text has no balanced part the
    function returns [None]. *)
Theorem parse_nested_json_clean text :
  contains bs text = false ->
  contains "{{" text = false ->
  contains "}}" text = false ->
  ReAct.normalize text = text
  /\ (forall v,
        ReAct.parse_nested_json text = Return (Some v) ->
        exists pre span post members,
          text = pre +:+ span +:+ post /\ balanced span
          /\ (forall pre' m' post',
                text = pre' +:+ m' +:+ post' -> balanced m' ->
                String.length pre <= String.length pre')
          /\ loads span = Some v /\ v = JObj members)
  /\ ((forall pre m post, text = pre +:+ m +:+ post -> ~ balanced m) ->
        ReAct.parse_nested_json text = Return None).
Proof.
  intros Hb Ho Hc. pose proof (normalize_clean text Hb Ho Hc) as Hn.
  split; [exact Hn |]. unfold ReAct.parse_nested_json. rewrite Hn.
  pose proof (search_leftmost text) as Hsearch.
  destruct (search text) as [span |].
  - destruct Hsearch as (pre & post & Heq & Hbal & Hmin). split.
    + intros v Hv.
      destruct (json_loads span) as [v0 | e] eqn:Hl; [| by destruct (exn_cls e)].
      injection Hv as ->. apply json_loads_Return in Hl.
      destruct Hbal as [body Hbody].
      destruct (loads_brace _ _ Hl) as [members ->].
      exists pre, (String "{" (body +:+ "}")), post, members.
      repeat split; done.
    + intros Hnone. by destruct (Hnone _ _ _ Heq).
  - split; [discriminate | done].
Qed.

Lemma parse_nested_json_clean_witness :
  let text := q "Result: {'name': 'greet', 'arguments': {'person': 'Roberto'} } Thanks" in
  let v := JObj [("name", JStr "greet"); ("arguments", JObj [("person", JStr "Roberto")])] in
  ReAct.normalize text = text
  /\ ReAct.parse_nested_json text = Return (Some v)
  /\ exists pre span post,
       text = pre +:+ span +:+ post /\ balanced span /\ loads span = Some v.
Proof.
  intros text v.
  destruct (parse_nested_json_clean text) as (Hn & Hv & _); [reflexivity .. |].
  split; [exact Hn |]. split; [reflexivity |].
  destruct (Hv v eq_refl) as (pre & span & post & members & Heq & Hbal & _ & Hl & _).
  by exists pre, span, post.
Defined.

(** ** Arguments written as text and read back *)

Lemma json_induction (P : json -> Prop) :
  P JNull -> (forall b, P (JBool b)) -> (forall z, P (JInt z)) ->
  (forall repr, P (JFloat repr)) -> (forall s, P (JStr s)) ->
  (forall items, Forall P items -> P (JArr items)) ->
  (forall members, Forall (fun kv => P (snd kv)) members -> P (JObj members)) ->
  forall v, P v.
Proof.
  intros HN HB HI HF HS HA HO. fix IH 1. intros [| b | z | repr | s | items | members].
  - exact HN.
  - apply HB.
  - apply HI.
  - apply HF.
  - apply HS.
  - apply HA. induction items as [| x items IHi]; constructor; [apply IH | exact IHi].
  - apply HO. induction members as [| [k x] members IHm]; constructor; [apply IH | exact IHm].
Qed.

Lemma string_app_nil_r (s : string) : s +:+ "" = s.
Proof. induction s as [| c s IH]; [done |]. rewrite string_app_cons. by f_equal. Qed.

Lemma digit_facts c :
  is_digit c = true ->
  is_ws c = false /\ Ascii.eqb c "]" = false /\ Ascii.eqb c "-" = false
  /\ (is_digit c || Ascii.eqb c "-") = true.
Proof.
  destruct c as [[] [] [] [] [] [] [] []]; intros H; first [by vm_compute in H | done].
Qed.

Lemma list_ascii_of_string_app (a b : string) :
  list_ascii_of_string (a +:+ b) = list_ascii_of_string a ++ list_ascii_of_string b.
Proof. induction a as [| c a IH]; [done |]. rewrite string_app_cons. simpl. by f_equal. Qed.

Lemma digits_value_snoc d c :
  digits_value (d +:+ String c "")
  = (digits_value d * 10 + Z.of_nat (nat_of_ascii c - 48))%Z.
Proof.
  unfold digits_value. rewrite list_ascii_of_string_app, fold_left_app. reflexivity.
Qed.

Lemma all_digits_app a b : all_digits a = true -> all_digits b = true -> all_digits (a +:+ b) = true.
Proof.
  induction a as [| c a IH]; [done |]. rewrite string_app_cons. simpl.
  intros [Hc Ha]%andb_true_iff Hb. by rewrite Hc, IH.
Qed.

Lemma pretty_N_char_digit k :
  (k < 10)%N ->
  is_digit (pretty_N_char k) = true
  /\ Z.of_nat (nat_of_ascii (pretty_N_char k) - 48) = Z.of_N k
  /\ (k <> 0%N -> Ascii.eqb (pretty_N_char k) "0" = false).
Proof.
  intros Hk.
  assert (k = 0 \/ k = 1 \/ k = 2 \/ k = 3 \/ k = 4 \/ k = 5 \/ k = 6 \/ k = 7 \/ k = 8 \/ k = 9)%N
    as Hcases by lia.
  repeat (destruct Hcases as [-> | Hcases]); try subst k; done.
Qed.

(** The digits [pretty] writes for a natural number. *)
Lemma pretty_N_go_digits x :
  exists d,
    (forall s, pretty_N_go x s = d +:+ s)
    /\ all_digits d = true
    /\ digits_value d = Z.of_N x
    /\ (x = 0%N -> d = "")
    /\ (x <> 0%N -> exists c t, d = String c t /\ is_digit c = true /\ Ascii.eqb c "0" = false).
Proof.
  induction (N.lt_wf_0 x) as [x _ IH].
  destruct (decide (x = 0%N)) as [-> | Hx].
  { exists "". repeat split; try done. }
  assert (Hpos : (0 < x)%N) by lia.
  destruct (IH (x `div` 10)%N) as (d' & Hgo & Hall & Hval & Hzero & Hhead).
  { by apply N.div_lt. }
  assert (Hmod : (x `mod` 10 < 10)%N) by (by apply N.mod_lt).
  destruct (pretty_N_char_digit _ Hmod) as (Hdig & Hcval & Hcnz).
  exists (d' +:+ String (pretty_N_char (x `mod` 10)) "").
  split; [| split; [| split; [| split]]].
  - intros s. rewrite pretty_N_go_step by done. rewrite Hgo. by rewrite string_app_assoc.
  - apply all_digits_app; [done |]. simpl. by rewrite Hdig.
  - rewrite digits_value_snoc, Hval, Hcval. rewrite (N.div_mod x 10) at 3 by done. lia.
  - done.
  - intros _. destruct (decide (x `div` 10 = 0)%N) as [Hdiv | Hdiv].
    + rewrite (Hzero Hdiv). exists (pretty_N_char (x `mod` 10)), "".
      split; [done |]. split; [done |]. apply Hcnz.
      intros Hm. pose proof (N.div_mod x 10) as Hdm. lia.
    + destruct (Hhead Hdiv) as (c & t & -> & Hc & Hc0).
      exists c, (t +:+ String (pretty_N_char (x `mod` 10)) ""). by rewrite string_app_cons.
Qed.

Lemma span_digits_app d rest :
  all_digits d = true ->
  match rest with "" => True | String c _ => is_digit c = false end ->
  span_digits (d +:+ rest) = (d, rest).
Proof.
  intros Hd Hrest. induction d as [| c d IH].
  - destruct rest as [| c r]; [done |]. change ("" +:+ String c r) with (String c r).
    simpl. by rewrite Hrest.
  - simpl in Hd. apply andb_true_iff in Hd as [Hc Hd]. rewrite string_app_cons.
    cbn [span_digits]. by rewrite Hc, (IH Hd).
Qed.

Lemma ends_token_spec rest :
  ends_token rest = true ->
  match rest with "" => True | String c _ => is_digit c = false end
  /\ scan_frac rest = ("", rest) /\ scan_exp rest = ("", rest).
Proof.
  destruct rest as [| c r]; [done |]. unfold ends_token.
  intros H. apply negb_true_iff in H.
  apply orb_false_elim in H as [H He2]. apply orb_false_elim in H as [H He1].
  apply orb_false_elim in H as [Hd Hdot].
  split; [done |]. split.
  - unfold scan_frac. by rewrite Hdot.
  - unfold scan_exp. by rewrite He1, He2.
Qed.

Lemma match_number_unsigned c s :
  Ascii.eqb c "-" = false ->
  match_number (String c s)
  = match scan_int_part (String c s) with
    | None => None
    | Some (i, s1) =>
        let '(f, s2) := scan_frac s1 in
        let '(e, s3) := scan_exp s2 in
        match f, e with
        | "", "" => Some (JInt (digits_value i), s3)
        | _, _ => Some (JFloat (float_repr false i f e), s3)
        end
    end.
Proof. intros H. unfold match_number. by rewrite H. Qed.

Lemma match_number_digits d rest c t :
  d = String c t -> is_digit c = true -> Ascii.eqb c "0" = false ->
  all_digits d = true -> ends_token rest = true ->
  match_number (d +:+ rest) = Some (JInt (digits_value d), rest)
  /\ match_number (String "-" (d +:+ rest)) = Some (JInt (- digits_value d), rest).
Proof.
  intros Hd Hc Hc0 Hall Hrest.
  destruct (ends_token_spec _ Hrest) as (Hnd & Hfrac & Hexp).
  assert (Hint : scan_int_part (d +:+ rest) = Some (d, rest)).
  { rewrite <- (span_digits_app d rest Hall Hnd). rewrite Hd, string_app_cons.
    unfold scan_int_part. by rewrite Hc0, Hc. }
  destruct (digit_facts _ Hc) as (_ & _ & Hdash & _).
  split.
  - rewrite Hd, string_app_cons, match_number_unsigned by done.
    rewrite <- string_app_cons, <- Hd, Hint, Hfrac, Hexp. done.
  - unfold match_number. change (Ascii.eqb "-" "-") with true. cbv iota.
    rewrite Hint, Hfrac, Hexp. done.
Qed.

Lemma pretty_Z_head (z : Z) :
  exists c t, pretty z = String c t /\ (is_digit c || Ascii.eqb c "-") = true.
Proof.
  destruct z as [| p | p].
  - by exists "0"%char, "".
  - destruct (pretty_N_go_digits (Npos p)) as (d & Hgo & _ & _ & _ & Hhead).
    destruct (Hhead ltac:(done)) as (c & t & -> & Hc & _).
    exists c, t. split; [| by rewrite Hc].
    change (pretty (Zpos p)) with (pretty_N_go (Npos p) ""). by rewrite Hgo, string_app_nil_r.
  - exists "-"%char, (pretty p). by split.
Qed.

Lemma match_number_pretty (z : Z) rest :
  ends_token rest = true -> match_number (pretty z +:+ rest) = Some (JInt z, rest).
Proof.
  intros Hrest. destruct z as [| p | p].
  - destruct (ends_token_spec _ Hrest) as (_ & Hfrac & Hexp).
    change (pretty 0%Z +:+ rest) with (String "0" rest).
    unfold match_number. change (Ascii.eqb "0" "-") with false. cbv iota.
    change (scan_int_part (String "0" rest)) with (Some ("0", rest)). cbv iota.
    by rewrite Hfrac, Hexp.
  - destruct (pretty_N_go_digits (Npos p)) as (d & Hgo & Hall & Hval & _ & Hhead).
    destruct (Hhead ltac:(done)) as (c & t & Hd & Hc & Hc0).
    change (pretty (Zpos p)) with (pretty_N_go (Npos p) "").
    rewrite Hgo, string_app_nil_r.
    destruct (match_number_digits d rest c t Hd Hc Hc0 Hall Hrest) as [-> _].
    by rewrite Hval.
  - destruct (pretty_N_go_digits (Npos p)) as (d & Hgo & Hall & Hval & _ & Hhead).
    destruct (Hhead ltac:(done)) as (c & t & Hd & Hc & Hc0).
    change (pretty (Zneg p)) with ("-" +:+ pretty_N_go (Npos p) "").
    rewrite Hgo, string_app_nil_r.
    change (("-" +:+ d) +:+ rest) with (String "-" (d +:+ rest)).
    destruct (match_number_digits d rest c t Hd Hc Hc0 Hall Hrest) as [_ ->].
    by rewrite Hval.
Qed.

Lemma scan_once_number f depth c s :
  (is_digit c || Ascii.eqb c "-") = true ->
  scan_once (S f) depth (String c s)
  = match match_number (String c s) with
    | Some (JInt z, rest) =>
        if exceeds_digits z then DigitsLimit else Scanned (JInt z) rest
    | Some (v, rest) => Scanned v rest
    | None =>
        if startswith "NaN" (String c s) then Scanned (JFloat "nan") (drop 3 (String c s))
        else if startswith "Infinity" (String c s)
             then Scanned (JFloat "inf") (drop 8 (String c s))
        else if startswith "-Infinity" (String c s)
             then Scanned (JFloat "-inf") (drop 9 (String c s))
        else DecodeError
    end.
Proof.
  destruct c as [[] [] [] [] [] [] [] []]; intros H;
    first [by vm_compute in H | reflexivity].
Qed.

Lemma scanstring_escape_char c tail :
  scanstring (escape_char c +:+ tail)
  = match scanstring tail with
    | Scanned r rest => Scanned (String c r) rest
    | e => e
    end.
Proof. destruct c as [[] [] [] [] [] [] [] []]; reflexivity. Qed.

Lemma scanstring_escape s rest :
  scanstring (escape s +:+ String dquote rest) = Scanned s rest.
Proof.
  induction s as [| c s IH]; [reflexivity |].
  cbn [escape]. by rewrite string_app_assoc, scanstring_escape_char, IH.
Qed.

Lemma skip_ws_head c t : is_ws c = false -> skip_ws (String c t) = String c t.
Proof. intros H. simpl. by rewrite H. Qed.

Lemma weight_pos v : 1 <= weight v.
Proof. destruct v; simpl; lia. Qed.

(** The first character of a dumped value starts a value. *)
Lemma dumps_head v :
  float_free v = true ->
  exists c t,
    dumps v = String c t /\ is_ws c = false /\ Ascii.eqb c "]" = false.
Proof.
  destruct v as [| [|] | z | repr | s | items | members]; intros Hf;
    try discriminate; try (by eexists _, _).
  destruct (pretty_Z_head z) as (c & t & Hz & Hc). exists c, t. split; [done |].
  apply orb_true_iff in Hc as [Hc | Hc].
  - by destruct (digit_facts _ Hc) as (? & ? & _).
  - apply Ascii.eqb_eq in Hc. by subst c.
Qed.

Lemma join_head sep c t parts :
  exists t', join sep (String c t :: parts) = String c t'.
Proof. destruct parts as [| p parts]; simpl; by eexists. Qed.

Lemma join_cons2 sep p q parts :
  join sep (p :: q :: parts) = p +:+ sep +:+ join sep (q :: parts).
Proof. reflexivity. Qed.

Lemma dict_set_fresh {V} k (v : V) d : k ∉ map fst d -> dict_set k v d = d ++ [(k, v)].
Proof.
  induction d as [| [k' v'] d IH]; [done |]. intros Hk. simpl in Hk.
  apply not_elem_of_cons in Hk as [Hne Hk]. cbn [dict_set].
  destruct (String.eqb_spec k k') as [-> | _]; [done |]. by rewrite IH.
Qed.

(** The loop of [JSONArray] on the dumped items. *)
Lemma parse_items_dumps items depth :
  Forall (fun v =>
            float_free v = true -> unique_keys v = true ->
            forall depth, readable depth v = true ->
            forall fuel rest,
              weight v <= fuel -> ends_token rest = true ->
              scan_once fuel depth (dumps v +:+ rest) = Scanned v rest) items ->
  forallb float_free items = true -> forallb unique_keys items = true ->
  forallb (fun x => readable depth x) items = true ->
  items <> [] ->
  forall acc fuel rest,
    1 + list_sum (map weight items) <= fuel ->
    parse_items fuel depth acc (join ", " (map dumps items) +:+ String "]" rest)
    = Scanned (JArr (acc ++ items)) rest.
Proof.
  induction 1 as [| x items Hx _ IH]; [done |].
  cbn [forallb].
  intros [Hfx Hfl]%andb_true_iff [Hux Hul]%andb_true_iff [Hrx Hrl]%andb_true_iff
         _ acc fuel rest Hfuel.
  destruct fuel as [| f]; [simpl in Hfuel; lia |].
  pose proof (weight_pos x) as Hwx. simpl in Hfuel.
  destruct items as [| y items].
  - change (join ", " (map dumps [x])) with (dumps x).
    cbn [parse_items]. rewrite (Hx Hfx Hux depth Hrx) by (simpl in *; first [lia | done]).
    reflexivity.
  - cbn [map]. rewrite join_cons2, !string_app_assoc.
    change (", " +:+ ?z) with (String "," (String " " z)).
    cbn [parse_items]. rewrite (Hx Hfx Hux depth Hrx) by (simpl in *; first [lia | done]).
    change (skip_ws (String "," ?z)) with (String "," z). cbv iota.
    change (Ascii.eqb "," "]") with false. change (Ascii.eqb "," ",") with true. cbv iota.
    change (skip_ws (String " " ?z)) with (skip_ws z).
    cbn [forallb] in Hfl. pose proof Hfl as Hfl'. apply andb_true_iff in Hfl' as [Hfy _].
    destruct (dumps_head y Hfy) as (c & t & Hy & Hws & _).
    destruct (join_head ", " c t (map dumps items)) as [t' Ht'].
    rewrite Hy at 1. change (map dumps (y :: items)) with (dumps y :: map dumps items) in IH.
    rewrite Ht', string_app_cons, (skip_ws_head _ _ Hws).
    rewrite <- string_app_cons, <- Ht', <- Hy.
    rewrite (IH Hfl Hul Hrl ltac:(done) (acc ++ [x]) f rest) by (simpl in *; lia).
    by rewrite <- app_assoc.
Qed.

(** The loop of [JSONObject] on the dumped members. *)
Lemma parse_members_dumps members depth :
  Forall (fun kv =>
            float_free (snd kv) = true -> unique_keys (snd kv) = true ->
            forall depth, readable depth (snd kv) = true ->
            forall fuel rest,
              weight (snd kv) <= fuel -> ends_token rest = true ->
              scan_once fuel depth (dumps (snd kv) +:+ rest) = Scanned (snd kv) rest)
         members ->
  forallb (fun kv => float_free (snd kv)) members = true ->
  forallb (fun kv => unique_keys (snd kv)) members = true ->
  forallb (fun kv => readable depth (snd kv)) members = true ->
  members <> [] ->
  forall acc fuel rest text,
    NoDup (map fst (acc ++ members)) ->
    1 + list_sum (map (fun kv => weight (snd kv)) members) <= fuel ->
    join ", " (map member_text members) = String dquote text ->
    parse_members fuel depth acc (text +:+ String "}" rest)
    = Scanned (JObj (acc ++ members)) rest.
Proof.
  induction 1 as [| [k x] members Hx _ IH]; [done |].
  cbn [forallb snd]. cbn [snd] in Hx.
  intros [Hfx Hfl]%andb_true_iff [Hux Hul]%andb_true_iff [Hrx Hrl]%andb_true_iff
         _ acc fuel rest text Hnd Hfuel Htext.
  destruct fuel as [| f]; [simpl in Hfuel; lia |].
  pose proof (weight_pos x) as Hwx. simpl in Hfuel.
  assert (Hfresh : k ∉ map fst acc).
  { rewrite map_app in Hnd. apply NoDup_app in Hnd as (_ & Hdis & _).
    intros Hin. apply (Hdis _ Hin). simpl. apply list_elem_of_here. }
  destruct (dumps_head x Hfx) as (c & t & Hdx & Hws & _).
  destruct members as [| [k' y] members].
  - change (join ", " (map member_text [(k, x)])) with (member_text (k, x)) in Htext.
    unfold member_text, encode_basestring_ascii in Htext. cbn [fst snd] in Htext.
    rewrite string_app_cons in Htext. injection Htext as <-.
    rewrite !string_app_assoc. change (String dquote "" +:+ ?z) with (String dquote z).
    change (": " +:+ ?z) with (String ":" (String " " z)).
    cbn [parse_members]. rewrite scanstring_escape.
    change (skip_ws (String ":" ?z)) with (String ":" z). cbv iota.
    change (Ascii.eqb ":" ":") with true. cbv iota.
    change (skip_ws (String " " ?z)) with (skip_ws z).
    rewrite Hdx at 1. rewrite string_app_cons, (skip_ws_head _ _ Hws).
    rewrite <- string_app_cons, <- Hdx.
    rewrite (Hx Hfx Hux depth Hrx) by (simpl in *; first [lia | done]).
    rewrite (dict_set_fresh _ _ _ Hfresh). reflexivity.
  - cbn [map] in Htext. rewrite join_cons2 in Htext.
    assert (Hnext : exists text', join ", " (member_text (k', y) :: map member_text members)
                                  = String dquote text').
    { unfold member_text at 1, encode_basestring_ascii. cbn [fst].
      rewrite string_app_cons. apply join_head. }
    destruct Hnext as [text' Htext']. rewrite Htext' in Htext.
    unfold member_text at 1, encode_basestring_ascii in Htext. cbn [fst snd] in Htext.
    rewrite string_app_cons in Htext. injection Htext as <-.
    rewrite !string_app_assoc. change (String dquote "" +:+ ?z) with (String dquote z).
    change (": " +:+ ?z) with (String ":" (String " " z)).
    change (", " +:+ ?z) with (String "," (String " " z)).
    rewrite string_app_cons.
    cbn [parse_members]. rewrite scanstring_escape.
    change (skip_ws (String ":" ?z)) with (String ":" z). cbv iota.
    change (Ascii.eqb ":" ":") with true. cbv iota.
    change (skip_ws (String " " ?z)) with (skip_ws z).
    rewrite Hdx at 1. rewrite string_app_cons, (skip_ws_head _ _ Hws).
    rewrite <- string_app_cons, <- Hdx.
    rewrite (Hx Hfx Hux depth Hrx) by (simpl in *; first [lia | done]).
    rewrite (dict_set_fresh _ _ _ Hfresh).
    change (skip_ws (String "," ?z)) with (String "," z). cbv iota.
    change (Ascii.eqb "," "}") with false. change (Ascii.eqb "," ",") with true. cbv iota.
    change (skip_ws (String " " ?z)) with (skip_ws z).
    change (skip_ws (String dquote ?z)) with (String dquote z). cbv iota.
    change (Ascii.eqb dquote dquote) with true. cbv iota.
    rewrite (IH Hfl Hul Hrl ltac:(done) (acc ++ [(k, x)]) f rest text').
    + by rewrite <- app_assoc.
    + by rewrite <- app_assoc.
    + simpl in *. lia.
    + exact Htext'.
Qed.

(** The scanner reads back what [dumps] wrote. *)
Lemma scan_once_dumps v :
  float_free v = true -> unique_keys v = true ->
  forall depth, readable depth v = true ->
  forall fuel rest,
    weight v <= fuel -> ends_token rest = true ->
    scan_once fuel depth (dumps v +:+ rest) = Scanned v rest.
Proof.
  induction v as [| b | z | repr | s | items IH | members IH] using json_induction;
    intros Hf Hu depth Hr fuel rest Hfuel Hrest;
    (destruct fuel as [| f]; [pose proof (weight_pos JNull); simpl in Hfuel; lia |]).
  - reflexivity.
  - by destruct b.
  - destruct (pretty_Z_head z) as (c & t & Hz & Hc).
    cbn [dumps]. rewrite Hz at 1. rewrite string_app_cons, (scan_once_number _ _ _ _ Hc).
    rewrite <- string_app_cons, <- Hz, match_number_pretty by done.
    change (negb (exceeds_digits z) = true) in Hr. apply negb_true_iff in Hr.
    by rewrite Hr.
  - discriminate.
  - cbn [dumps]. unfold encode_basestring_ascii.
    rewrite string_app_cons, string_app_assoc.
    change (String dquote "" +:+ rest) with (String dquote rest).
    change (scan_once (S f) depth (String dquote ?z))
      with (match scanstring z with
            | Scanned r rest' => Scanned (JStr r) rest'
            | DecodeError => DecodeError
            | DigitsLimit => DigitsLimit
            | RecursionLimit => RecursionLimit
            | WideCharacter => WideCharacter
            | OutOfFuel => OutOfFuel
            end).
    by rewrite scanstring_escape.
  - cbn [float_free unique_keys weight] in Hf, Hu, Hfuel.
    destruct depth as [| depth]; [discriminate |]. cbn [readable] in Hr.
    destruct items as [| x items]; [reflexivity |].
    cbn [dumps]. rewrite !string_app_cons.
    change ("" +:+ ?z) with z. rewrite string_app_assoc.
    change ("]" +:+ rest) with (String "]" rest).
    pose proof Hf as Hf'. cbn [forallb] in Hf'. apply andb_true_iff in Hf' as [Hfx _].
    destruct (dumps_head x Hfx) as (c & t & Hx & Hws & Hclose).
    destruct (join_head ", " c t (map dumps items)) as [t' Ht'].
    assert (Hj : join ", " (map dumps (x :: items)) = String c t')
      by (cbn [map]; by rewrite Hx).
    change (scan_once (S f) (S depth) (String "[" ?z))
      with (match skip_ws z with
            | String c1 s1 =>
                if Ascii.eqb c1 "]" then Scanned (JArr []) s1
                else parse_items f depth [] (String c1 s1)
            | "" => DecodeError
            end).
    rewrite Hj, string_app_cons, (skip_ws_head _ _ Hws), Hclose.
    rewrite <- string_app_cons, <- Hj.
    apply (parse_items_dumps (x :: items) depth IH Hf Hu Hr ltac:(done) [] f rest). lia.
  - cbn [float_free unique_keys weight] in Hf, Hu, Hfuel.
    destruct depth as [| depth]; [discriminate |]. cbn [readable] in Hr.
    apply andb_true_iff in Hu as [Hnd Hu]. apply bool_decide_eq_true in Hnd.
    destruct members as [| [k x] members]; [reflexivity |].
    cbn [dumps]. rewrite !string_app_cons.
    change ("" +:+ ?z) with z. rewrite string_app_assoc.
    change ("}" +:+ rest) with (String "}" rest).
    assert (Hj : exists text, join ", " (map member_text ((k, x) :: members))
                              = String dquote text).
    { cbn [map]. unfold member_text at 1, encode_basestring_ascii. cbn [fst].
      rewrite string_app_cons. apply join_head. }
    destruct Hj as [text Hj].
    change (map (fun kv => encode_basestring_ascii kv.1 +:+ ": " +:+ dumps kv.2)
              ((k, x) :: members))
      with (map member_text ((k, x) :: members)).
    change (scan_once (S f) (S depth) (String "{" ?z))
      with (match skip_ws z with
            | String c1 s1 =>
                if Ascii.eqb c1 "}" then Scanned (JObj []) s1
                else if Ascii.eqb c1 dquote then parse_members f depth [] s1
                else DecodeError
            | "" => DecodeError
            end).
    rewrite Hj, string_app_cons.
    change (skip_ws (String dquote ?z)) with (String dquote z). cbv iota.
    change (Ascii.eqb dquote "}") with false. change (Ascii.eqb dquote dquote) with true.
    cbv iota.
    apply (parse_members_dumps ((k, x) :: members) depth IH Hf Hu Hr ltac:(done)
             [] f rest text);
      [done | lia | done].
Qed.

Lemma join_length sep parts :
  list_sum (map String.length parts) <= String.length (join sep parts).
Proof.
  induction parts as [| p parts IH]; [done |].
  destruct parts as [| q parts]; [simpl; lia |].
  rewrite join_cons2, !string_app_length.
  change (list_sum (map String.length (p :: q :: parts)))
    with (String.length p + list_sum (map String.length (q :: parts))).
  lia.
Qed.

Lemma weight_length v : float_free v = true -> weight v <= String.length (dumps v).
Proof.
  induction v as [| b | z | repr | s | items IH | members IH] using json_induction;
    intros Hf.
  - simpl. lia.
  - destruct b; simpl; lia.
  - destruct (pretty_Z_head z) as (c & t & Hz & _). cbn [dumps weight]. rewrite Hz. simpl. lia.
  - discriminate.
  - simpl. lia.
  - cbn [dumps weight]. rewrite !string_app_length. simpl String.length.
    pose proof (join_length ", " (map dumps items)) as Hj.
    assert (Hsum : list_sum (map weight items)
                   <= list_sum (map String.length (map dumps items))).
    { cbn [float_free] in Hf. clear Hj. induction IH as [| x items Hx _ IHl]; [done |].
      cbn [forallb] in Hf. apply andb_true_iff in Hf as [Hfx Hfl].
      specialize (Hx Hfx). specialize (IHl Hfl).
      change (list_sum (map weight (x :: items)))
        with (weight x + list_sum (map weight items)).
      change (list_sum (map String.length (map dumps (x :: items))))
        with (String.length (dumps x) + list_sum (map String.length (map dumps items))).
      lia. }
    lia.
  - cbn [dumps weight]. rewrite !string_app_length. simpl String.length.
    pose proof (join_length ", "
                  (map (fun kv => encode_basestring_ascii kv.1 +:+ ": " +:+ dumps kv.2)
                     members)) as Hj.
    assert (Hsum : list_sum (map (fun kv => weight kv.2) members)
                   <= list_sum (map String.length
                        (map (fun kv => encode_basestring_ascii kv.1 +:+ ": " +:+ dumps kv.2)
                           members))).
    { cbn [float_free] in Hf. clear Hj. induction IH as [| [k x] members Hx _ IHl]; [done |].
      cbn [forallb snd] in Hf. apply andb_true_iff in Hf as [Hfx Hfl].
      cbn [snd] in Hx. specialize (Hx Hfx). specialize (IHl Hfl).
      change (list_sum (map (fun kv : string * json => weight kv.2) ((k, x) :: members)))
        with (weight x + list_sum (map (fun kv : string * json => weight kv.2) members)).
      change (list_sum (map String.length
                (map (fun kv : string * json =>
                        encode_basestring_ascii kv.1 +:+ ": " +:+ dumps kv.2)
                   ((k, x) :: members))))
        with (String.length (encode_basestring_ascii k +:+ ": " +:+ dumps x)
              + list_sum (map String.length
                  (map (fun kv : string * json =>
                          encode_basestring_ascii kv.1 +:+ ": " +:+ dumps kv.2)
                     members))).
      rewrite !string_app_length. lia. }
    lia.
Qed.

(** [json.loads(json.dumps(v))] is [v], for values without [float]
    whose dictionaries hold each key once, nested and with integers
    as [json.loads] accepts them. *)
Lemma loads_dumps v :
  float_free v = true -> unique_keys v = true -> readable max_nesting v = true ->
  loads (dumps v) = Some v.
Proof.
  intros Hf Hu Hr. unfold loads, decode.
  destruct (dumps_head v Hf) as (c & t & Hd & Hws & _).
  rewrite Hd at 2. rewrite (skip_ws_head _ _ Hws), <- Hd.
  rewrite <- (string_app_nil_r (dumps v)) at 2.
  rewrite (scan_once_dumps v Hf Hu max_nesting Hr); [done | | done].
  unfold fuel_for. pose proof (weight_length v Hf). lia.
Qed.

Lemma dict_set_keys_elem {V} x k (v : V) d :
  x ∈ map fst (dict_set k v d) -> x = k \/ x ∈ map fst d.
Proof.
  induction d as [| [k' v'] d IH]; cbn [dict_set].
  - intros Hx. apply list_elem_of_singleton in Hx. by left.
  - destruct (String.eqb_spec k k') as [-> | _]; cbn [map fst].
    + intros Hx. by right.
    + intros [-> | Hx]%elem_of_cons; [right; apply list_elem_of_here |].
      destruct (IH Hx) as [-> | Hin]; [by left | right; by apply list_elem_of_further].
Qed.

Lemma dict_set_keys_NoDup {V} k (v : V) d :
  NoDup (map fst d) -> NoDup (map fst (dict_set k v d)).
Proof.
  induction d as [| [k' v'] d IH]; cbn [dict_set].
  - intros _. apply NoDup_singleton.
  - cbn [map fst]. intros [Hk' Hnd]%NoDup_cons.
    destruct (String.eqb_spec k k') as [-> | Hne]; cbn [map fst].
    + by apply NoDup_cons.
    + apply NoDup_cons. split; [| by apply IH].
      intros Hin. destruct (dict_set_keys_elem _ _ _ _ Hin) as [-> | Hin']; done.
Qed.

Lemma dict_set_forallb {V} (Q : V -> bool) k v d :
  forallb (fun kv => Q (snd kv)) d = true -> Q v = true ->
  forallb (fun kv => Q (snd kv)) (dict_set k v d) = true.
Proof.
  intros Hd Hv. induction d as [| [k' v'] d IH]; cbn [dict_set].
  - simpl. by rewrite Hv.
  - cbn [forallb snd] in Hd. apply andb_true_iff in Hd as [Hv' Hd].
    destruct (String.eqb k k'); cbn [forallb snd].
    + by rewrite Hv, Hd.
    + by rewrite Hv', IH.
Qed.

Lemma dict_get_forallb {V} (Q : V -> bool) k v d :
  forallb (fun kv => Q (snd kv)) d = true -> dict_get k d = Some v -> Q v = true.
Proof.
  induction d as [| [k' v'] d IH]; [done |]. cbn [forallb snd dict_get].
  intros [Hv' Hd]%andb_true_iff. destruct (String.eqb k k'); [by intros [= <-] | by apply IH].
Qed.

Lemma match_number_unique_keys s v r : match_number s = Some (v, r) -> unique_keys v = true.
Proof.
  unfold match_number.
  destruct (match s with
            | "" => (false, "")
            | String c s' => if Ascii.eqb c "-" then (true, s') else (false, s)
            end) as [neg s0].
  destruct (scan_int_part s0) as [[i s1] |]; [| discriminate].
  destruct (scan_frac s1) as [f s2]. destruct (scan_exp s2) as [e s3].
  destruct f, e; by intros [= <- _].
Qed.

(** What the scanner builds holds each key once. *)
Lemma scan_unique_keys f :
  (forall depth s v r, scan_once f depth s = Scanned v r -> unique_keys v = true)
  /\ (forall depth acc s v r,
        NoDup (map fst acc) -> forallb (fun kv => unique_keys (snd kv)) acc = true ->
        parse_members f depth acc s = Scanned v r -> unique_keys v = true)
  /\ (forall depth acc s v r,
        forallb unique_keys acc = true ->
        parse_items f depth acc s = Scanned v r -> unique_keys v = true).
Proof.
  induction f as [| f (IHs & IHm & IHi)]; [by repeat split |].
  split; [| split].
  - intros depth s v r. cbn [scan_once]. destruct s as [| c s']; [discriminate |].
    destruct (Ascii.eqb c dquote).
    { destruct (scanstring s'); [by intros [= <- _] | discriminate ..]. }
    destruct (Ascii.eqb c "{").
    { destruct depth as [| depth]; [discriminate |].
      destruct (skip_ws s') as [| c1 s1]; [discriminate |].
      destruct (Ascii.eqb c1 "}"); [by intros [= <- _] |].
      destruct (Ascii.eqb c1 dquote); [| discriminate].
      apply IHm; [constructor | done]. }
    destruct (Ascii.eqb c "[").
    { destruct depth as [| depth]; [discriminate |].
      destruct (skip_ws s') as [| c1 s1]; [discriminate |].
      destruct (Ascii.eqb c1 "]"); [by intros [= <- _] |]. by apply IHi. }
    destruct (startswith "null" (String c s')); [by intros [= <- _] |].
    destruct (startswith "true" (String c s')); [by intros [= <- _] |].
    destruct (startswith "false" (String c s')); [by intros [= <- _] |].
    destruct (match_number (String c s')) as [[v0 r0] |] eqn:Hn.
    { apply match_number_unique_keys in Hn.
      destruct v0; try (by intros [= <- _]).
      destruct (exceeds_digits z); [discriminate | by intros [= <- _]]. }
    destruct (startswith "NaN" (String c s')); [by intros [= <- _] |].
    destruct (startswith "Infinity" (String c s')); [by intros [= <- _] |].
    destruct (startswith "-Infinity" (String c s')); [by intros [= <- _] | discriminate].
  - intros depth acc s v r Hnd Hall. cbn [parse_members].
    destruct (scanstring s) as [key s1 | | | | |]; try discriminate.
    destruct (skip_ws s1) as [| c s2]; [discriminate |].
    destruct (Ascii.eqb c ":"); [| discriminate].
    destruct (scan_once f depth (skip_ws s2)) as [v0 s3 | | | | |] eqn:Hv; try discriminate.
    pose proof (IHs _ _ _ _ Hv) as Hv0.
    pose proof (dict_set_keys_NoDup key v0 acc Hnd) as Hnd'.
    pose proof (dict_set_forallb unique_keys key v0 acc Hall Hv0) as Hall'.
    destruct (skip_ws s3) as [| c4 s4]; [discriminate |].
    destruct (Ascii.eqb c4 "}").
    { intros [= <- _]. cbn [unique_keys]. rewrite Hall', andb_true_r.
      by apply bool_decide_eq_true. }
    destruct (Ascii.eqb c4 ","); [| discriminate].
    destruct (skip_ws s4) as [| c5 s5]; [discriminate |].
    destruct (Ascii.eqb c5 dquote); [| discriminate]. by apply IHm.
  - intros depth acc s v r Hall. cbn [parse_items].
    destruct (scan_once f depth s) as [v0 s1 | | | | |] eqn:Hv; try discriminate.
    pose proof (IHs _ _ _ _ Hv) as Hv0.
    assert (Hall' : forallb unique_keys (acc ++ [v0]) = true).
    { rewrite forallb_app, Hall. simpl. by rewrite Hv0. }
    destruct (skip_ws s1) as [| c s2]; [discriminate |].
    destruct (Ascii.eqb c "]"); [by intros [= <- _] |].
    destruct (Ascii.eqb c ","); [| discriminate]. by apply IHi.
Qed.

Lemma loads_unique_keys s v : loads s = Some v -> unique_keys v = true.
Proof.
  unfold loads, decode.
  destruct (scan_once (fuel_for s) max_nesting (skip_ws s)) as [v0 r | | | | |] eqn:Hs;
    try discriminate.
  destruct (skip_ws r); [| discriminate]. intros [= <-].
  by eapply (proj1 (scan_unique_keys _)).
Qed.

Lemma match_number_readable s v r depth :
  match_number s = Some (v, r) ->
  match v with JInt _ => True | _ => readable depth v = true end.
Proof.
  unfold match_number.
  destruct (match s with
            | "" => (false, "")
            | String c s' => if Ascii.eqb c "-" then (true, s') else (false, s)
            end) as [neg s0].
  destruct (scan_int_part s0) as [[i s1] |]; [| discriminate].
  destruct (scan_frac s1) as [f s2]. destruct (scan_exp s2) as [e s3].
  destruct f, e; by intros [= <- _].
Qed.

(** What the scanner builds is nested within the depth it was given,
    and its integers have the digits [int] accepts. *)
Lemma scan_readable f :
  (forall depth s v r, scan_once f depth s = Scanned v r -> readable depth v = true)
  /\ (forall depth acc s v r,
        forallb (fun kv => readable depth (snd kv)) acc = true ->
        parse_members f depth acc s = Scanned v r -> readable (S depth) v = true)
  /\ (forall depth acc s v r,
        forallb (fun x => readable depth x) acc = true ->
        parse_items f depth acc s = Scanned v r -> readable (S depth) v = true).
Proof.
  induction f as [| f (IHs & IHm & IHi)]; [by repeat split |].
  split; [| split].
  - intros depth s v r. cbn [scan_once]. destruct s as [| c s']; [discriminate |].
    destruct (Ascii.eqb c dquote).
    { destruct (scanstring s'); [by intros [= <- _] | discriminate ..]. }
    destruct (Ascii.eqb c "{").
    { destruct depth as [| depth]; [discriminate |].
      destruct (skip_ws s') as [| c1 s1]; [discriminate |].
      destruct (Ascii.eqb c1 "}"); [by intros [= <- _] |].
      destruct (Ascii.eqb c1 dquote); [| discriminate].
      by apply IHm. }
    destruct (Ascii.eqb c "[").
    { destruct depth as [| depth]; [discriminate |].
      destruct (skip_ws s') as [| c1 s1]; [discriminate |].
      destruct (Ascii.eqb c1 "]"); [by intros [= <- _] |]. by apply IHi. }
    destruct (startswith "null" (String c s')); [by intros [= <- _] |].
    destruct (startswith "true" (String c s')); [by intros [= <- _] |].
    destruct (startswith "false" (String c s')); [by intros [= <- _] |].
    destruct (match_number (String c s')) as [[v0 r0] |] eqn:Hn.
    { apply (match_number_readable _ _ _ depth) in Hn.
      destruct v0; try (by intros [= <- _]).
      destruct (exceeds_digits z) eqn:Hz; [discriminate |].
      intros [= <- _]. cbn [readable]. by rewrite Hz. }
    destruct (startswith "NaN" (String c s')); [by intros [= <- _] |].
    destruct (startswith "Infinity" (String c s')); [by intros [= <- _] |].
    destruct (startswith "-Infinity" (String c s')); [by intros [= <- _] | discriminate].
  - intros depth acc s v r Hall. cbn [parse_members].
    destruct (scanstring s) as [key s1 | | | | |]; try discriminate.
    destruct (skip_ws s1) as [| c s2]; [discriminate |].
    destruct (Ascii.eqb c ":"); [| discriminate].
    destruct (scan_once f depth (skip_ws s2)) as [v0 s3 | | | | |] eqn:Hv; try discriminate.
    pose proof (IHs _ _ _ _ Hv) as Hv0.
    pose proof (dict_set_forallb (readable depth) key v0 acc Hall Hv0) as Hall'.
    destruct (skip_ws s3) as [| c4 s4]; [discriminate |].
    destruct (Ascii.eqb c4 "}"); [by intros [= <- _] |].
    destruct (Ascii.eqb c4 ","); [| discriminate].
    destruct (skip_ws s4) as [| c5 s5]; [discriminate |].
    destruct (Ascii.eqb c5 dquote); [| discriminate]. by apply IHm.
  - intros depth acc s v r Hall. cbn [parse_items].
    destruct (scan_once f depth s) as [v0 s1 | | | | |] eqn:Hv; try discriminate.
    pose proof (IHs _ _ _ _ Hv) as Hv0.
    assert (Hall' : forallb (fun x => readable depth x) (acc ++ [v0]) = true).
    { rewrite forallb_app, Hall. simpl. by rewrite Hv0. }
    destruct (skip_ws s1) as [| c s2]; [discriminate |].
    destruct (Ascii.eqb c "]"); [by intros [= <- _] |].
    destruct (Ascii.eqb c ","); [| discriminate]. by apply IHi.
Qed.

Lemma loads_readable s v : loads s = Some v -> readable max_nesting v = true.
Proof.
  unfold loads, decode.
  destruct (scan_once (fuel_for s) max_nesting (skip_ws s)) as [v0 r | | | | |] eqn:Hs;
    try discriminate.
  destruct (skip_ws r); [| discriminate]. intros [= <-].
  by eapply (proj1 (scan_readable _)).
Qed.

(** A value that is read with some depth left is read with more. *)
Lemma readable_mono v : forall depth, readable depth v = true -> readable (S depth) v = true.
Proof.
  induction v as [| b | z | repr | s | items IH | members IH] using json_induction;
    intros depth; try done.
  - destruct depth as [| depth]; [discriminate |]. cbn [readable].
    induction IH as [| x items Hx _ IHl]; [done |]. cbn [forallb].
    intros [Hrx Hrl]%andb_true_iff. by rewrite (Hx _ Hrx), (IHl Hrl).
  - destruct depth as [| depth]; [discriminate |]. cbn [readable].
    induction IH as [| [k x] members Hx _ IHl]; [done |]. cbn [forallb snd] in *.
    intros [Hrx Hrl]%andb_true_iff. by rewrite (Hx _ Hrx), (IHl Hrl).
Qed.

Lemma parse_response_parts response action_dict :
  ReAct.parse_response response = Return (Some action_dict) ->
  exists text span d arguments,
    content response = Some text
    /\ search (ReAct.normalize text) = Some span
    /\ loads (strip span) = Some (JObj d)
    /\ dict_get "arguments" d = Some arguments
    /\ action_dict = dict_set "args_json" (JStr (dumps arguments)) d.
Proof.
  unfold ReAct.parse_response. destruct (content response) as [text |]; [| discriminate].
  destruct (search (ReAct.normalize text)) as [span |] eqn:Hs; [| discriminate].
  destruct (json_loads (strip span)) as [[| | | | | | d] | e] eqn:Hl;
    try discriminate; [| by destruct (exn_cls e)].
  apply json_loads_Return in Hl.
  destruct (dict_get "arguments" d) as [arguments |] eqn:Ha; [| discriminate].
  intros [= <-]. by exists text, span, d, arguments.
Qed.

(** X19. In the text protocol the arguments of an action survive the
    detour through text.  [parse_response] stores them dumped under
    [args_json]; when they hold no [float], decoding that text, as
    the executor does, gives the arguments back, so a registered tool
    whose model accepts the text is run with exactly the members the
    model wrote. *)
Theorem action_arguments_survive_text response action_dict arguments :
  ReAct.parse_response response = Return (Some action_dict) ->
  dict_get "arguments" action_dict = Some arguments ->
  float_free arguments = true ->
  dict_get "args_json" action_dict = Some (JStr (dumps arguments))
  /\ loads (dumps arguments) = Some arguments
  /\ forall W (tools : gmap string (AgentTool W)) nm tool members st,
       arguments = JObj members ->
       tools !! nm = Some tool ->
       validate_json_args tool (dumps arguments) = true ->
       execute tools nm (dumps arguments) st
       = try_except (run tool [] (py_dict members))
           (fun e =>
              raise (Exn ValueError
                       ("Error executing tool '" +:+ nm +:+ "': " +:+ exn_str e)
                       (Some e)))
           st.
Proof.
  intros Hparse Hargs Hfloat.
  destruct (parse_response_parts _ _ Hparse)
    as (text & span & d & arguments' & _ & _ & Hloads & Hget & ->).
  rewrite dict_get_set_ne in Hargs by done. rewrite Hget in Hargs. injection Hargs as ->.
  assert (Hround : loads (dumps arguments) = Some arguments).
  { apply loads_dumps; [done | |].
    - pose proof (loads_unique_keys _ _ Hloads) as Hu. cbn [unique_keys] in Hu.
      apply andb_true_iff in Hu as [_ Hu]. by eapply (dict_get_forallb unique_keys).
    - pose proof (loads_readable _ _ Hloads) as Hr.
      destruct max_nesting as [| depth]; [discriminate |]. cbn [readable] in Hr.
      apply readable_mono. by eapply (dict_get_forallb (readable depth)). }
  split; [apply dict_get_set |]. split; [done |].
  intros W tools nm tool members st -> Hlook Hval.
  unfold execute. apply json_loads_Return in Hround. by rewrite Hlook, Hval, Hround.
Qed.

Lemma action_arguments_survive_text_witness :
  exists action_dict,
    ReAct.parse_response marked_action = Return (Some action_dict)
    /\ dict_get "args_json" action_dict = Some (JStr (q "{'location': 'Paris'}"))
    /\ loads (q "{'location': 'Paris'}") = Some (JObj [("location", JStr "Paris")]).
Proof.
  eexists. split; [reflexivity |].
  destruct (action_arguments_survive_text marked_action _
              (JObj [("location", JStr "Paris")]) eq_refl eq_refl eq_refl)
    as (H1 & H2 & _).
  split; [exact H1 | exact H2].
Defined.

(** ** The further properties on the stubs *)

Lemma agent_needs_distinct_tool_names_witness :
  exists a,
    Loop.Agent_init weather_llm system_message 10 [weather_tool] = Return a
    /\ forall t, t ∈ [weather_tool] -> Loop.executor a !! name t = Some t.
Proof.
  destruct (agent_needs_distinct_tool_names [weather_tool] ∅) as [_ H].
  apply (H weather_llm system_message 10).
  apply (bool_decide_unpack (NoDup ["get_weather"])). vm_compute. reflexivity.
Defined.

Lemma run_raises_only_tool_failures_witness :
  exists messages w c,
    c ∈ tool_calls (requesting_llm messages w).1
    /\ tool_failure (∅ : gmap string (AgentTool nat)) c
         (Exn ValueError
            "Execution error in tool 'get_weather': Tool 'get_weather' not found."
            (Some (Exn ValueError "Tool 'get_weather' not found." None))).
Proof.
  apply (run_raises_only_tool_failures Stubs.unequipped_agent user_message
           (Loop.initial_state 0)).
  vm_compute. reflexivity.
Defined.

Lemma prompted_run_one_request_witness :
  let run := Prompted.run Stubs.prompted_agent "What is the weather?" (Loop.initial_state 0) in
  memory run.2 = [Dict "user" "What is the weather?"]
  /\ lm_calls (log run.2) = 1
  /\ exists msg, run.1 = Raise (Exn TypeError msg None).
Proof.
  intros run.
  destruct (prompted_run_one_request Stubs.prompted_agent "What is the weather?"
              (Loop.initial_state 0)) as (Hm & _ & _ & _ & Hdirect).
  destruct (Hdirect "User: What is the weather?") as [Hcalls Hnone];
    [simpl; lia | reflexivity |].
  destruct Hnone as (msg & Hr & _); [reflexivity |].
  split; [exact Hm |]. split; [exact Hcalls |]. exists msg. exact Hr.
Defined.

Lemma function_call_definition_parameters_witness :
  Schema.to_openai_function_call_definition weather_tool Stubs.weather_schema
  = JObj [("type", JStr "function");
          ("function",
           JObj [("name", JStr "get_weather");
                 ("description", JStr "Get weather information based on location.");
                 ("parameters",
                  JObj [("properties",
                         JObj [("location",
                                JObj [("description", JStr "Location to get weather for");
                                      ("title", JStr "Location");
                                      ("type", JStr "string")])]);
                        ("required", JArr [JStr "location"]);
                        ("type", JStr "object")])])].
Proof.
  destruct (function_call_definition_parameters weather_tool Stubs.weather_schema) as [H _].
  - apply (bool_decide_unpack
             (NoDup ["description"; "properties"; "required"; "title"; "type"])).
    vm_compute. reflexivity.
  - exact H.
Defined.
